(** * part9: the match-and-combine engine of the sonnet search tool

    A shallow embedding of [part9/models.py] ([Sonnet], [LineMatch],
    [SearchResult]) and of the query evaluation and display code of
    [part9/app.py] ([main]'s word loop, [print_results]).

    Python strings are modelled as lists of characters (the code points
    below 256), Python integers as [Z].  Python lists of spans are objects
    with identity: they live in an explicit store, because
    [SearchResult.combine_with] extends such a list in place while other
    results still refer to it. *)

From Stdlib Require Import ZArith Ascii String List Lia Sorted Permutation.
From Stdlib Require Import DecimalString.
From stdpp Require Import base decidable list strings.
Import ListNotations.

Local Open Scope Z_scope.

(** ** Strings, indices and slices *)

Abbreviation str := (list ascii).

(** [len(x)] as a Python integer. *)
Definition len {A : Type} (l : list A) : Z := Z.of_nat (length l).

(** A string literal of the source. *)
Definition lit (s : string) : str := list_ascii_of_string s.

(** How a slice bound is adjusted for a sequence of length [n]: a negative
    bound counts from the end, and every bound is clamped to [0, n]. *)
Definition clamp_index (n i : Z) : Z :=
  if i <? 0 then Z.max 0 (i + n) else Z.min i n.

(** [l[lo:hi]] *)
Definition slice {A : Type} (l : list A) (lo hi : Z) : list A :=
  let lo' := clamp_index (len l) lo in
  let hi' := clamp_index (len l) hi in
  take (Z.to_nat (hi' - lo')) (drop (Z.to_nat lo') l).

(** [l[lo:]] *)
Definition slice_from {A : Type} (l : list A) (lo : Z) : list A :=
  drop (Z.to_nat (clamp_index (len l) lo)) l.

(** [range(n)]: empty when [n <= 0]. *)
Definition range (n : Z) : list Z := map Z.of_nat (seq 0 (Z.to_nat n)).

(** [str.lower()] on the strings of this development, which are over the
    code points below 256: there it works character by character, the
    letters A..Z and the accented capitals 192..214 and 216..222 are
    mapped to the small letter 32 places further, and every other
    character is kept.  Beyond these code points [str.lower()] can change
    the length of a string (U+0130 becomes two code points), so that an
    offset into the lowercase form need not be an offset into the string
    itself; no property below is derived from the two having the same
    length. *)
Definition lower_char (c : ascii) : ascii :=
  let n := nat_of_ascii c in
  if (((65 <=? n) && (n <=? 90)) || ((192 <=? n) && (n <=? 214))
      || ((216 <=? n) && (n <=? 222)))%nat
  then ascii_of_nat (n + 32) else c.

Definition lower (s : str) : str := map lower_char s.

(** ** Spans *)

Definition span : Type := Z * Z.

(** Python's ordering of pairs of integers: first components first. *)
Definition span_leb (a b : span) : bool :=
  (fst a <? fst b) || ((fst a =? fst b) && (snd a <=? snd b)).

Definition span_le (a b : span) : Prop :=
  fst a < fst b \/ (fst a = fst b /\ snd a <= snd b).

(** [sorted(...)]: a stable sort, here by insertion.  [leb] is the order of
    the keys. *)
Section Sorting.
Context {A : Type} (leb : A -> A -> bool).

Fixpoint insert_sorted (x : A) (l : list A) : list A :=
  match l with
  | [] => [x]
  | y :: l' => if leb x y then x :: y :: l' else y :: insert_sorted x l'
  end.

Definition sorted (l : list A) : list A := foldr insert_sorted [] l.
End Sorting.

(** ** Sonnet.find_spans *)

(** One turn of the scanning loop at offset [i]. *)
Definition scan_step (text pattern : str) (spans : list span) (i : Z) : list span :=
  if decide (slice text i (i + len pattern) = pattern)
  then spans ++ [(i, i + len pattern)]
  else spans.

Definition find_spans (text pattern : str) : list span :=
  match pattern with
  | [] => []
  | _ :: _ =>
      fold_left (scan_step text pattern) (range (len text - len pattern + 1)) []
  end.

(** ** The store of span lists

    A list of spans is a mutable object.  [title_spans] and the [spans] of a
    [LineMatch] hold a reference to one; [copy] duplicates the reference, not
    the list.  [LineMatch] and [SearchResult] objects themselves are only
    written through a reference nobody else holds (a fresh copy, or the entry
    of [combined_results]), so they are values here. *)

Abbreviation loc := nat.
Abbreviation store := (list (list span)).

Record LineMatch : Type := mkLineMatch {
  line_no : Z;
  text : str;
  spans : loc
}.

Record SearchResult : Type := mkSearchResult {
  title : str;
  title_spans : loc;
  line_matches : list LineMatch;
  matches : Z
}.

(** The attributes [title] and [lines] of a [Sonnet]. *)
Record Sonnet : Type := mkSonnet {
  sonnet_title : str;
  sonnet_lines : list str
}.

(** Computations that read and write the store. *)
Definition M (A : Type) : Type := store -> A * store.

Definition ret {A : Type} (a : A) : M A := fun h => (a, h).

Definition bind {A B : Type} (m : M A) (k : A -> M B) : M B :=
  fun h => let (a, h') := m h in k a h'.

Notation "'do' x <- m ;; k" := (bind m (fun x => k))
  (at level 10, x name, m at level 99, k at level 200).
Notation "'run' m ;; k" := (bind m (fun _ => k))
  (at level 10, m at level 99, k at level 200).

(** A new list object holding [l]. *)
Definition alloc (l : list span) : M loc :=
  fun h => (length h, h ++ [l]).

(** The present contents of the list at [p]. *)
Definition contents (h : store) (p : loc) : list span := default [] (h !! p).

Definition read (p : loc) : M (list span) := fun h => (contents h p, h).

(** [p.extend(l)] *)
Definition extend (p : loc) (l : list span) : M unit :=
  fun h => (tt, <[p := contents h p ++ l]> h).

(** ** LineMatch.copy and SearchResult.copy *)

Definition LineMatch_copy (self : LineMatch) : LineMatch :=
  mkLineMatch (line_no self) (text self) (spans self).

Definition SearchResult_copy (self : SearchResult) : SearchResult :=
  mkSearchResult (title self) (title_spans self) (line_matches self) (matches self).

(** Attribute assignments on a result. *)
Definition set_matches (r : SearchResult) (m : Z) : SearchResult :=
  mkSearchResult (title r) (title_spans r) (line_matches r) m.

Definition set_title_spans (r : SearchResult) (p : loc) : SearchResult :=
  mkSearchResult (title r) p (line_matches r) (matches r).

Definition set_line_matches (r : SearchResult) (lms : list LineMatch) : SearchResult :=
  mkSearchResult (title r) (title_spans r) lms (matches r).

(** [sum(len(lm.spans) for lm in line_matches)], read from the store. *)
Definition line_span_count (h : store) (lms : list LineMatch) : Z :=
  fold_left (fun acc lm => acc + len (contents h (spans lm))) lms 0.

(** ** Sonnet.search_for *)

(** The loop over [enumerate(lines_raw, start=idx)]. *)
Fixpoint search_lines (q : str) (idx : Z) (lines_raw : list str)
    (line_matches : list LineMatch) : M (list LineMatch) :=
  match lines_raw with
  | [] => ret line_matches
  | line_raw :: rest =>
      do spans <- alloc (find_spans (lower line_raw) q) ;;
      do found <- read spans ;;
      match found with
      | [] => search_lines q (idx + 1) rest line_matches
      | _ :: _ =>
          search_lines q (idx + 1) rest
            (line_matches ++ [mkLineMatch idx line_raw spans])
      end
  end.

Definition search_for (self : Sonnet) (query : str) : M SearchResult :=
  let title_raw := sonnet_title self in
  let lines_raw := sonnet_lines self in
  let q := lower query in
  do title_spans <- alloc (find_spans (lower title_raw) q) ;;
  do line_matches <- search_lines q 1 lines_raw [] ;;
  do n_title <- read title_spans ;;
  fun h =>
    let total := len n_title + line_span_count h line_matches in
    (mkSearchResult title_raw title_spans line_matches total, h).

(** ** SearchResult.combine_with *)

(** A dict from line numbers to line matches, in insertion order. *)
Definition dict : Type := list (Z * LineMatch).

Fixpoint dict_get (d : dict) (k : Z) : option LineMatch :=
  match d with
  | [] => None
  | (k', v) :: d' => if decide (k' = k) then Some v else dict_get d' k
  end.

(** [d[k] = v]: an existing key keeps its place. *)
Fixpoint dict_set (d : dict) (k : Z) (v : LineMatch) : dict :=
  match d with
  | [] => [(k, v)]
  | (k', v') :: d' =>
      if decide (k' = k) then (k', v) :: d' else (k', v') :: dict_set d' k v
  end.

Definition dict_values (d : dict) : list LineMatch := map snd d.

(** [{lm.line_no: lm for lm in lms}] *)
Definition lines_dict (lms : list LineMatch) : dict :=
  fold_left (fun d lm => dict_set d (line_no lm) lm) lms [].

(** The loop over [other.line_matches]. *)
Fixpoint merge_lines (others : list LineMatch) (lines_by_no : dict) : M dict :=
  match others with
  | [] => ret lines_by_no
  | lm :: rest =>
      let ln := line_no lm in
      match dict_get lines_by_no ln with
      | Some mine =>
          do more <- read (spans lm) ;;
          run extend (spans mine) more ;;
          merge_lines rest lines_by_no
      | None =>
          merge_lines rest (dict_set lines_by_no ln (LineMatch_copy lm))
      end
  end.

Definition line_no_leb (a b : LineMatch) : bool := line_no a <=? line_no b.

Definition combine_with (self other : SearchResult) : M SearchResult :=
  let combined := SearchResult_copy self in
  let combined := set_matches combined (matches self + matches other) in
  do mine <- read (title_spans self) ;;
  do theirs <- read (title_spans other) ;;
  do merged_title <- alloc (sorted span_leb (mine ++ theirs)) ;;
  let combined := set_title_spans combined merged_title in
  do lines_by_no <- merge_lines (line_matches other) (lines_dict (line_matches combined)) ;;
  let combined :=
    set_line_matches combined (sorted line_no_leb (dict_values lines_by_no)) in
  ret combined.

(** ** SearchResult.ansi_highlight *)

(** One turn of the loop that merges overlapping spans: the state is the
    list [merged] and the pair [current_start, current_end]. *)
Definition merge_step (st : list span * span) (se : span) : list span * span :=
  let '(merged, (current_start, current_end)) := st in
  let '(s, e) := se in
  if s <=? current_end
  then (merged, (current_start, Z.max current_end e))
  else (merged ++ [(current_start, current_end)], (s, e)).

(** The merged runs of a sorted list of spans. *)
Definition merge_spans (spans : list span) : list span :=
  match spans with
  | [] => []
  | first :: rest =>
      let '(merged, current) := fold_left merge_step rest ([], first) in
      merged ++ [current]
  end.

Definition esc : ascii := ascii_of_nat 27.

Definition reset_code : str := esc :: lit "[0m".

Definition color_code (highlight_mode : str) : str :=
  if decide (highlight_mode = lit "GREEN")
  then esc :: lit "[1;92m"
  else (esc :: lit "[43m") ++ (esc :: lit "[30m").

(** The entries of the list [out]: a piece of the text, or an inserted
    escape sequence. *)
Inductive piece : Type :=
  | Text (s : str)
  | Marker (s : str).

Definition piece_str (p : piece) : str :=
  match p with Text s => s | Marker s => s end.

(** ["".join(out)] *)
Definition join (out : list piece) : str := concat (map piece_str out).

(** One turn of the loop that builds the highlighted string: the state is
    the list [out] and the offset [i]. *)
Definition emit_step (text code : str) (st : list piece * Z) (se : span)
    : list piece * Z :=
  let '(out, i) := st in
  let '(s, e) := se in
  (out ++ [Text (slice text i s); Marker code; Text (slice text s e);
           Marker reset_code], e).

(** The list [out] at the end of [ansi_highlight], for non-empty [spans]. *)
Definition highlight_out (text : str) (spans : list span) (highlight_mode : str)
    : list piece :=
  let merged := merge_spans (sorted span_leb spans) in
  let '(out, i) := fold_left (emit_step text (color_code highlight_mode)) merged ([], 0) in
  out ++ [Text (slice_from text i)].

Definition ansi_highlight (text : str) (spans : list span) (highlight_mode : str) : str :=
  match spans with
  | [] => text
  | _ :: _ => join (highlight_out text spans highlight_mode)
  end.

(** ** Printing *)

(** [str(n)] for an integer. *)
Definition str_of_Z (n : Z) : str := lit (NilZero.string_of_int (Z.to_int n)).

(** Right-justification in a field of width [w], as in the format [{n:2}]. *)
Definition rjust (w : nat) (s : str) : str := replicate (w - length s) " "%char ++ s.

Definition newline : ascii := ascii_of_nat 10.
Definition dquote : ascii := ascii_of_nat 34.

(** The standard output is the list of the strings passed to [print], in
    the order of the calls. *)
Definition SearchResult_print (self : SearchResult) (idx : Z) (highlight : bool)
    (total_docs : Z) (highlight_mode : str) (h : store) : list str :=
  let title_line :=
    if highlight
    then ansi_highlight (title self) (contents h (title_spans self)) highlight_mode
    else title self in
  ((newline :: lit "[") ++ str_of_Z idx ++ lit "/" ++ str_of_Z total_docs
     ++ lit "] " ++ title_line)
  :: map (fun lm =>
            let line_out :=
              if highlight
              then ansi_highlight (text lm) (contents h (spans lm)) highlight_mode
              else text lm in
            lit "  [" ++ rjust 2 (str_of_Z (line_no lm)) ++ lit "] " ++ line_out)
         (line_matches self).

(** ** app.print_results *)

(** The loop over [enumerate(matched, start=idx)]. *)
Fixpoint print_matched (idx : Z) (matched : list SearchResult) (highlight : bool)
    (total : Z) (highlight_mode : str) (h : store) : list str :=
  match matched with
  | [] => []
  | r :: rest =>
      SearchResult_print r idx highlight total highlight_mode h
      ++ print_matched (idx + 1) rest highlight total highlight_mode h
  end.

(** [query_time_ms], when given, is the text of the formatted number. *)
Definition print_results (query : str) (results : list SearchResult)
    (highlight : bool) (highlight_mode : str) (query_time_ms : option str)
    (h : store) : list str :=
  let total_docs := len results in
  let matched := filter (fun r => 0 < matches r) results in
  let line :=
    str_of_Z (len matched) ++ lit " out of " ++ str_of_Z total_docs
    ++ lit " sonnets contain " ++ [dquote] ++ query ++ [dquote] ++ lit "." in
  let line :=
    match query_time_ms with
    | Some t => line ++ lit " Your query took " ++ t ++ lit "ms."
    | None => line
    end in
  line :: print_matched 1 matched highlight (len matched) highlight_mode h.

(** ** app.main: query evaluation *)

(** [[s.search_for(word) for s in sonnets]] *)
Fixpoint search_all (sonnets : list Sonnet) (word : str) : M (list SearchResult) :=
  match sonnets with
  | [] => ret []
  | s :: rest =>
      do r <- search_for s word ;;
      do rs <- search_all rest word ;;
      ret (r :: rs)
  end.

(** The body of the loop over the sonnets, for one sonnet. *)
Definition fold_result (search_mode : str) (combined_result result : SearchResult)
    : M SearchResult :=
  if decide (search_mode = lit "AND") then
    if (0 <? matches combined_result) && (0 <? matches result)
    then combine_with combined_result result
    else ret (set_matches combined_result 0)
  else if decide (search_mode = lit "OR") then
    combine_with combined_result result
  else ret combined_result.

(** The loop [for i in range(len(combined_results))].  Both lists hold one
    result per sonnet, so both lookups succeed. *)
Fixpoint fold_results (search_mode : str) (indices : list nat)
    (results combined_results : list SearchResult) : M (list SearchResult) :=
  match indices with
  | [] => ret combined_results
  | i :: rest =>
      match combined_results !! i, results !! i with
      | Some combined_result, Some result =>
          do updated <- fold_result search_mode combined_result result ;;
          fold_results search_mode rest results (<[i := updated]> combined_results)
      | _, _ => ret combined_results
      end
  end.

(** The loop [for word in words]. *)
Fixpoint word_loop (search_mode : str) (sonnets : list Sonnet) (words : list str)
    (combined_results : list SearchResult) : M (list SearchResult) :=
  match words with
  | [] => ret combined_results
  | word :: rest =>
      do results <- search_all sonnets word ;;
      do combined_results <-
        match combined_results with
        | [] => ret results
        | _ :: _ =>
            fold_results search_mode (seq 0 (length combined_results))
              results combined_results
        end ;;
      word_loop search_mode sonnets rest combined_results
  end.

Definition evaluate_query (search_mode : str) (sonnets : list Sonnet)
    (words : list str) : M (list SearchResult) :=
  word_loop search_mode sonnets words [].

(** [str.split()] without arguments: the maximal runs of characters that
    are not white space. *)
Definition is_space (c : ascii) : bool :=
  let n := nat_of_ascii c in
  (((9 <=? n) && (n <=? 13)) || ((28 <=? n) && (n <=? 32))
   || (n =? 133) || (n =? 160))%nat.

Fixpoint split_loop (s word : str) (words : list str) : list str :=
  match s with
  | [] => match word with [] => words | _ :: _ => words ++ [word] end
  | c :: rest =>
      if is_space c
      then match word with
           | [] => split_loop rest [] words
           | _ :: _ => split_loop rest [] (words ++ [word])
           end
      else split_loop rest (word ++ [c]) words
  end.

Definition split (s : str) : list str := split_loop s [] [].

Record Configuration : Type := mkConfiguration {
  highlight : bool;
  search_mode : str;
  highlight_mode : str
}.

(** The default settings of [Configuration.__init__]. *)
Definition DEFAULT_CONFIG : Configuration :=
  mkConfiguration true (lit "AND") (lit "DEFAULT").

(** One turn of the command loop on a line [raw] that is not a command:
    the strings printed.  [elapsed_ms] is the text of the measured time. *)
Definition run_query (config : Configuration) (sonnets : list Sonnet)
    (raw elapsed_ms : str) : M (list str) :=
  match split raw with
  | [] => ret []
  | words =>
      do combined_results <- evaluate_query (search_mode config) sonnets words ;;
      fun h =>
        (print_results raw combined_results (highlight config)
           (highlight_mode config) (Some elapsed_ms) h, h)
  end.

(** * Notions used in the statements *)

(** [pattern] occurs in [text] at offset [i]. *)
Definition occurs_at (text pattern : str) (i : Z) : Prop :=
  exists pre post : str, text = pre ++ pattern ++ post /\ len pre = i.

Definition span_at (pattern : str) (i : Z) : span := (i, i + len pattern).

Definition matches_at (text pattern : str) (i : Z) : Prop :=
  slice text i (i + len pattern) = pattern.

#[local] Instance matches_at_dec text pattern i : Decision (matches_at text pattern i).
Proof. unfold matches_at. apply _. Defined.

(** Starts strictly increase along the list. *)
Definition starts_increase (l : list span) : Prop :=
  StronglySorted (fun a b : span => fst a < fst b) l.

(** The span [x] lies inside the run [r]. *)
Definition within (x r : span) : Prop := fst r <= fst x /\ snd x <= snd r.

(** The offset [x] lies in one of the spans of [l], ends included. *)
Definition covered (l : list span) (x : Z) : Prop :=
  exists se : span, In se l /\ fst se <= x <= snd se.

(** The stretch of the text from offset [x] to [x + 1] lies in one of the
    spans of [l]. *)
Definition joined (l : list span) (x : Z) : Prop :=
  exists se : span, In se l /\ fst se <= x /\ x + 1 <= snd se.

(** The run [r] begins where a span of [l] begins and ends where a span of
    [l] ends. *)
Definition anchored (l : list span) (r : span) : Prop :=
  (exists se : span, In se l /\ fst se = fst r)
  /\ (exists se : span, In se l /\ snd se = snd r).

(** Consecutive runs neither overlap nor touch. *)
Fixpoint apart (runs : list span) : Prop :=
  match runs with
  | a :: (b :: _) as rest => snd a < fst b /\ apart rest
  | _ => True
  end.

(** The pieces written for a list of runs, starting at offset [i]: for each
    run the text before it, the opening marker, the text of the run and the
    closing marker; at the end the rest of the text. *)
Fixpoint run_pieces (text code : str) (i : Z) (runs : list span) : list piece :=
  match runs with
  | [] => [Text (slice_from text i)]
  | (s, e) :: rest =>
      Text (slice text i s) :: Marker code :: Text (slice text s e)
      :: Marker reset_code :: run_pieces text code e rest
  end.

(** The pieces the renderer joins; for an empty [spans] the text alone. *)
Definition rendered (text : str) (spans : list span) (highlight_mode : str)
    : list piece :=
  match spans with
  | [] => [Text text]
  | _ :: _ => highlight_out text spans highlight_mode
  end.

(** The output with the inserted markers removed. *)
Definition without_markers (out : list piece) : str :=
  concat (map (fun p => match p with Text s => s | Marker _ => [] end) out).

Definition markers (out : list piece) : list str :=
  omap (fun p => match p with Text _ => None | Marker s => Some s end) out.

(** Runs in ascending order from offset [i] on, each with [start <= end]. *)
Fixpoint chain (i : Z) (runs : list span) : Prop :=
  match runs with
  | [] => True
  | (s, e) :: rest => i <= s /\ s <= e /\ chain e rest
  end.

(** A span inside the non-negative offsets, with [start <= end]. *)
Definition span_ok (se : span) : Prop := 0 <= fst se <= snd se.

(** The list [out] once the rest of the text is appended to the state of
    the emitting loop. *)
Definition runs_out (st : list piece * Z) (text : str) : list piece :=
  fst st ++ [Text (slice_from text (snd st))].

(** What a holder of a line match or of a result observes in the store
    [h]: the attributes, with the span lists read through their
    references. *)
Definition line_view (h : store) (lm : LineMatch) : Z * str * list span :=
  (line_no lm, text lm, contents h (spans lm)).

Definition view (h : store) (r : SearchResult)
    : str * list span * list (Z * str * list span) * Z :=
  (title r, contents h (title_spans r), map (line_view h) (line_matches r), matches r).

(** The invariant of a result:
    [matches == len(title_spans) + sum(len(lm.spans) for lm in line_matches)]. *)
Definition count_ok (h : store) (r : SearchResult) : Prop :=
  matches r = len (contents h (title_spans r)) + line_span_count h (line_matches r).

#[local] Instance count_ok_dec h r : Decision (count_ok h r).
Proof. unfold count_ok. apply _. Defined.

(** The lines of a sonnet with their numbers, counted from [start]. *)
Fixpoint enumerate {A : Type} (start : Z) (l : list A) : list (Z * A) :=
  match l with
  | [] => []
  | x :: l' => (start, x) :: enumerate (start + 1) l'
  end.

(** The numbered lines in which the lowercased query [q] occurs, each with
    its text as given and the spans found in its lowercased text. *)
Definition matching_lines (q : str) (start : Z) (lines : list str)
    : list (Z * str * list span) :=
  omap (fun '(idx, line_raw) =>
          match find_spans (lower line_raw) q with
          | [] => None
          | found => Some (idx, line_raw, found)
          end)
       (enumerate start lines).

(** [h'] keeps every list of [h] unchanged and may hold new ones. *)
Definition extends (h h' : store) : Prop := exists k, h' = h ++ k.

(** The number of spans in a list of observed line matches. *)
Definition total_spans (ls : list (Z * str * list span)) : Z :=
  fold_left (fun acc l => acc + len (snd l)) ls 0.

(** The sonnet of the example: title "Sonnet", lines "a rose", "rose red". *)
Definition rose_sonnet : Sonnet :=
  mkSonnet (lit "Sonnet") [lit "a rose"; lit "rose red"].

(** A sonnet with capitals in its title and in its line. *)
Definition capital_sonnet : Sonnet := mkSonnet (lit "Roses") [lit "A ROSE"].

(** A sonnet with the one line "ab", searched for "a", then for "b" and
    for "z": the results as [search_for] returns them, each with the store
    after the call. *)
Definition ab_sonnet : Sonnet := mkSonnet (lit "t") [lit "ab"].

Definition found_a : SearchResult * store := search_for ab_sonnet (lit "a") [].

Definition found_b : SearchResult * store :=
  search_for ab_sonnet (lit "b") (snd found_a).

Definition found_z : SearchResult * store :=
  search_for ab_sonnet (lit "z") (snd found_a).

(** [found_a] combined with [found_b]. *)
Definition combined_ab : SearchResult * store :=
  combine_with (fst found_a) (fst found_b) (snd found_b).

(** The number of matches of one word in one sonnet, searched on its own. *)
Definition word_matches (s : Sonnet) (word : str) : Z :=
  matches (fst (search_for s word [])).

(** How the fold changes the [matches] of a cumulative result. *)
Definition fold_matches (search_mode : str) (acc m : Z) : Z :=
  if decide (search_mode = lit "AND") then
    if (0 <? acc) && (0 <? m) then acc + m else 0
  else if decide (search_mode = lit "OR") then acc + m
  else acc.

(** The corpus of the end-to-end example: document A with the lines
    "to be", "or not to be" and document B with the line "never". *)
Definition doc_A : Sonnet := mkSonnet (lit "A") [lit "to be"; lit "or not to be"].
Definition doc_B : Sonnet := mkSonnet (lit "B") [lit "never"].

(** The summary printed first. *)
Definition summary_line (matched total : Z) (query : str) : str :=
  str_of_Z matched ++ lit " out of " ++ str_of_Z total
  ++ lit " sonnets contain " ++ [dquote] ++ query ++ [dquote] ++ lit ".".

(** The line printed first for a displayed document. *)
Definition header_line (idx total : Z) (title_line : str) : str :=
  (newline :: lit "[") ++ str_of_Z idx ++ lit "/" ++ str_of_Z total
  ++ lit "] " ++ title_line.


(** Removing escape sequences from a string: everything from an escape
    character up to the next letter m is dropped. *)
Fixpoint strip_ansi (in_escape : bool) (s : str) : str :=
  match s with
  | [] => []
  | c :: rest =>
      if in_escape then strip_ansi (negb (bool_decide (c = "m"%char))) rest
      else if bool_decide (c = esc) then strip_ansi true rest
      else c :: strip_ansi false rest
  end.

(** A piece of text without escape character, or one of the two markers
    of the style. *)
Definition piece_ok (code : str) (p : piece) : Prop :=
  match p with
  | Text s => Forall (fun c => c <> esc) s
  | Marker m => m = code \/ m = reset_code
  end.

(** Two results that can be combined without interference: the line
    numbers of the receiver are distinct, no span list is referred to by
    two of their line matches, and every reference is in the store. *)
Definition separate (h : store) (a b : SearchResult) : Prop :=
  NoDup (map line_no (line_matches a))
  /\ NoDup (map spans (line_matches a) ++ map spans (line_matches b))
  /\ Forall (fun p => (p < length h)%nat)
       (map spans (line_matches a) ++ map spans (line_matches b)).

(** * Further notions *)

(** The references a result holds: its title list and the lists of its
    line matches. *)
Definition locs (r : SearchResult) : list loc :=
  title_spans r :: map spans (line_matches r).

(** A span that marks a non-empty part of [t]. *)
Definition span_in (t : str) (se : span) : Prop :=
  0 <= fst se /\ fst se < snd se /\ snd se <= len t.

(** [pattern] occurs somewhere in [t]. *)
Definition occurs_in (t pattern : str) : Prop := exists i, occurs_at t pattern i.

#[local] Instance separate_dec h a b : Decision (separate h a b).
Proof. unfold separate. apply _. Defined.

(** The first line match with the number [n]. *)
Fixpoint find_line (lms : list LineMatch) (n : Z) : option LineMatch :=
  match lms with
  | [] => None
  | lm :: rest => if decide (line_no lm = n) then Some lm else find_line rest n
  end.

(** Every entry of the dict is filed under its own line number. *)
Definition keyed (d : dict) : Prop :=
  Forall (fun kv : Z * LineMatch => line_no (snd kv) = fst kv) d.

(** The spans, read in [h], of the line match of [lms] with the number
    [n]; none when there is no such line match. *)
Definition line_spans (h : store) (lms : list LineMatch) (n : Z) : list span :=
  match find_line lms n with
  | Some lm => contents h (spans lm)
  | None => []
  end.

(** The sum of the matches of the words of a query in one sonnet. *)
Definition sum_matches (s : Sonnet) (words : list str) : Z :=
  foldr Z.add 0 (map (word_matches s) words).

(** A result in good order in the store [h]: distinct line numbers, no
    list referred to twice, every reference in the store. *)
Definition well_formed (h : store) (r : SearchResult) : Prop :=
  NoDup (map line_no (line_matches r))
  /\ NoDup (locs r)
  /\ Forall (fun p => (p < length h)%nat) (locs r).

(** What the driver keeps for each cumulative result: the invariant
    [matches == number of spans], except for a result set to 0 under AND. *)
Definition tracked (search_mode : str) (h : store) (r : SearchResult) : Prop :=
  count_ok h r \/ (search_mode = lit "AND" /\ matches r = 0).

(** No list is referred to by two results of [rs]. *)
Fixpoint apart_results (rs : list SearchResult) : Prop :=
  match rs with
  | [] => True
  | r :: rest =>
      (forall p x, In x rest -> In p (locs r) -> ~ In p (locs x))
      /\ apart_results rest
  end.

(** The body of the loop over the sonnets, on the two lists side by side. *)
Fixpoint fold_pairs (search_mode : str) (combined results : list SearchResult)
    : M (list SearchResult) :=
  match combined, results with
  | c :: cs, r :: rs =>
      do updated <- fold_result search_mode c r ;;
      do rest <- fold_pairs search_mode cs rs ;;
      ret (updated :: rest)
  | _, _ => ret combined
  end.

(** No list of [ctx] is referred to by a result of [rs]. *)
Definition disjoint_from (ctx : list loc) (rs : list SearchResult) : Prop :=
  forall p x, In p ctx -> In x rs -> ~ In p (locs x).

(** No list is referred to by a result of [cs] and by a result of [rs]. *)
Definition apart_pairs (cs rs : list SearchResult) : Prop :=
  forall x y p, In x cs -> In y rs -> In p (locs x) -> ~ In p (locs y).

(** What the loop over the words keeps for the cumulative results. *)
Definition driver_inv (search_mode : str) (sonnets : list Sonnet) (h : store)
    (combined : list SearchResult) : Prop :=
  (combined = [] \/ length combined = length sonnets)
  /\ Forall (well_formed h) combined
  /\ Forall (tracked search_mode h) combined
  /\ apart_results combined.

(** * file_utilities: the configuration *)

Local Unset Elimination Schemes.

(** A value decoded from a JSON text.  A number with a fraction is kept by
    its text. *)
Inductive json : Type :=
  | JNull
  | JBool (b : bool)
  | JInt (n : Z)
  | JFloat (text : str)
  | JStr (s : str)
  | JList (l : list json)
  | JDict (d : list (str * json)).

Local Set Elimination Schemes.

(** [d[key]] for a key that may be missing; a dict has a key once. *)
Fixpoint json_get (d : list (str * json)) (key : str) : option json :=
  match d with
  | [] => None
  | (k, v) :: d' => if decide (k = key) then Some v else json_get d' key
  end.

(** Configuration.copy *)
Definition Configuration_copy (self : Configuration) : Configuration :=
  mkConfiguration (highlight self) (search_mode self) (highlight_mode self).

(** Configuration.update, on a dict *)
Definition Configuration_update (self : Configuration) (other : list (str * json))
    : Configuration :=
  let self :=
    match json_get other (lit "highlight") with
    | Some (JBool b) => mkConfiguration b (search_mode self) (highlight_mode self)
    | _ => self
    end in
  let self :=
    match json_get other (lit "search_mode") with
    | Some (JStr s) =>
        if bool_decide (s ∈ [lit "AND"; lit "OR"])
        then mkConfiguration (highlight self) s (highlight_mode self)
        else self
    | _ => self
    end in
  match json_get other (lit "highlight_mode") with
  | Some (JStr s) =>
      if bool_decide (s ∈ [lit "DEFAULT"; lit "GREEN"])
      then mkConfiguration (highlight self) (search_mode self) s
      else self
  | _ => self
  end.

(** Configuration.to_dict *)
Definition to_dict (self : Configuration) : list (str * json) :=
  [(lit "highlight", JBool (highlight self));
   (lit "search_mode", JStr (search_mode self));
   (lit "highlight_mode", JStr (highlight_mode self))].

(** [key in s] for two strings. *)
Definition contains (s key : str) : bool :=
  existsb (fun i => bool_decide (slice s i (i + len key) = key))
    (range (len s - len key + 1)).

(** [key in other] for a decoded value; [None] stands for the TypeError of
    a value that is no container. *)
Definition json_has (other : json) (key : str) : option bool :=
  match other with
  | JList l =>
      Some (existsb (fun v => match v with
                              | JStr s => bool_decide (s = key)
                              | _ => false
                              end) l)
  | JStr s => Some (contains s key)
  | JDict d => Some (bool_decide (is_Some (json_get d key)))
  | _ => None
  end.

(** [cfg.update(other)] for any decoded value: on a list or a string every
    [other[key]] with a string key raises TypeError, so the call raises
    ([None]) as soon as one of the three keys is in [other]. *)
Definition update_value (cfg : Configuration) (other : json) : option Configuration :=
  match other with
  | JDict d => Some (Configuration_update cfg d)
  | _ =>
      match json_has other (lit "highlight"), json_has other (lit "search_mode"),
            json_has other (lit "highlight_mode") with
      | Some false, Some false, Some false => Some cfg
      | _, _, _ => None
      end
  end.

(** What opening and decoding config.json gives: no such file, a text that
    is not JSON, another failure of the operating system, a decoded value,
    or bytes that are no text, for which the decoder raises an error that
    is neither of the former. *)
Inductive config_file : Type :=
  | FileNotFound
  | InvalidJSON
  | ReadFailed
  | Decoded (v : json)
  | NotText.

(** load_config: the configuration returned, [None] when an exception
    leaves the function, and the strings printed. *)
Definition load_config (file : config_file) : option Configuration * list str :=
  let cfg := Configuration_copy DEFAULT_CONFIG in
  match file with
  | Decoded v => (update_value cfg v, [])
  | NotText => (None, [])
  | FileNotFound =>
      (Some cfg, [lit "No config.json found. Using default configuration."])
  | InvalidJSON =>
      (Some cfg, [lit "config.json is invalid. Using default configuration."])
  | ReadFailed =>
      (Some cfg, [lit "Could not read config.json. Using default configuration."])
  end.

(** The settings are among those the program knows. *)
Definition valid_config (c : Configuration) : Prop :=
  In (search_mode c) [lit "AND"; lit "OR"]
  /\ In (highlight_mode c) [lit "DEFAULT"; lit "GREEN"].

(** * app.main: the command loop *)

(** [str.upper()], character by character, on the code points below 256:
    the small letters go to the capital 32 places before, the sharp s to
    SS.  The capitals of the micro sign (181) and of y with diaeresis (255)
    are characters above 255: for a text with one of them the result is
    [None]; it differs from every word the program compares it with. *)
Definition upper_char (c : ascii) : option str :=
  let n := nat_of_ascii c in
  if (((97 <=? n) && (n <=? 122)) || ((224 <=? n) && (n <=? 246))
      || ((248 <=? n) && (n <=? 254)))%nat
  then Some [ascii_of_nat (n - 32)]
  else if (n =? 223)%nat then Some (lit "SS")
  else if ((n =? 181) || (n =? 255))%nat then None
  else Some [c].

Fixpoint upper (s : str) : option str :=
  match s with
  | [] => Some []
  | c :: rest =>
      match upper_char c, upper rest with
      | Some u, Some r => Some (u ++ r)
      | _, _ => None
      end
  end.

(** [s.startswith(prefix)] *)
Definition startswith (s prefix : str) : bool :=
  bool_decide (take (length prefix) s = prefix).

(** [s.strip()]: white space removed at both ends. *)
Fixpoint lstrip (s : str) : str :=
  match s with
  | [] => []
  | c :: rest => if is_space c then lstrip rest else s
  end.

Definition strip (s : str) : str := reverse (lstrip (reverse (lstrip s))).

(** What the loop does to the outside: a string passed to [print], or
    config.json written with a dict.  The prompt of [input] is not
    recorded. *)
Inductive event : Type :=
  | Printed (s : str)
  | Saved (d : list (str * json)).

(** Configuration.save: [writable] tells whether config.json can be opened
    and written. *)
Definition Configuration_save (self : Configuration) (writable : bool) : list event :=
  if writable then [Saved (to_dict self)]
  else [Printed (lit "Writing config.json failed.")].

(** The branch of the loop for a line that starts with a colon: the
    configuration afterwards, what is printed and saved, and whether the
    loop ends.  [HELP] is the help text of the module of constants. *)
Definition command (HELP : str) (writable : bool) (config : Configuration)
    (raw : str) : Configuration * list event * bool :=
  if decide (raw = lit ":quit") then (config, [Printed (lit "Bye.")], true)
  else if decide (raw = lit ":help") then (config, [Printed HELP], false)
  else if startswith raw (lit ":highlight") then
    match split raw with
    | [_; p] =>
        if bool_decide (lower p ∈ [lit "on"; lit "off"]) then
          let config :=
            mkConfiguration (bool_decide (lower p = lit "on")) (search_mode config)
              (highlight_mode config) in
          (config,
           Printed (lit "Highlighting "
                    ++ (if highlight config then lit "ON" else lit "OFF"))
           :: Configuration_save config writable,
           false)
        else (config, [Printed (lit "Usage: :highlight on|off")], false)
    | _ => (config, [Printed (lit "Usage: :highlight on|off")], false)
    end
  else if startswith raw (lit ":search-mode") then
    match split raw with
    | [_; p] =>
        match upper p with
        | Some u =>
            if bool_decide (u ∈ [lit "AND"; lit "OR"]) then
              let config :=
                mkConfiguration (highlight config) u (highlight_mode config) in
              (config,
               Printed (lit "Search mode set to " ++ search_mode config)
               :: Configuration_save config writable,
               false)
            else (config, [Printed (lit "Usage: :search-mode AND|OR")], false)
        | None => (config, [Printed (lit "Usage: :search-mode AND|OR")], false)
        end
    | _ => (config, [Printed (lit "Usage: :search-mode AND|OR")], false)
    end
  else if startswith raw (lit ":hl-mode") then
    match split raw with
    | [_; p] =>
        match upper p with
        | Some u =>
            if bool_decide (u ∈ [lit "DEFAULT"; lit "GREEN"]) then
              let config :=
                mkConfiguration (highlight config) (search_mode config) u in
              (config,
               Printed (lit "Highlight mode set to " ++ highlight_mode config)
               :: Configuration_save config writable,
               false)
            else (config, [Printed (lit "Usage: :hl-mode DEFAULT|GREEN")], false)
        | None => (config, [Printed (lit "Usage: :hl-mode DEFAULT|GREEN")], false)
        end
    | _ => (config, [Printed (lit "Usage: :hl-mode DEFAULT|GREEN")], false)
    end
  else (config, [Printed (lit "Unknown command. Type :help for commands.")], false).

(** What the outside gives to one turn of the loop: the line typed, or
    nothing at the end of the input or on an interrupt; the text of the
    time measured, for a query; and whether config.json can be written,
    for a setting. *)
Record turn : Type := mkTurn {
  typed : option str;
  elapsed : str;
  writable : bool
}.

(** One turn of [while True]. *)
Definition main_step (HELP : str) (config : Configuration) (sonnets : list Sonnet)
    (t : turn) : M (Configuration * list event * bool) :=
  match typed t with
  | None => ret (config, [Printed (newline :: lit "Bye.")], true)
  | Some line =>
      let raw := strip line in
      match raw with
      | [] => ret (config, [], false)
      | _ :: _ =>
          if startswith raw (lit ":")
          then ret (command HELP (writable t) config raw)
          else
            do out <- run_query config sonnets raw (elapsed t) ;;
            ret (config, map Printed out, false)
      end
  end.

(** The loop, for the turns the input lasts. *)
Fixpoint main_loop (HELP : str) (config : Configuration) (sonnets : list Sonnet)
    (turns : list turn) : M (Configuration * list event) :=
  match turns with
  | [] => ret (config, [])
  | t :: rest =>
      do res <- main_step HELP config sonnets t ;;
      if snd res
      then ret (fst (fst res), snd (fst res))
      else
        do more <- main_loop HELP (fst (fst res)) sonnets rest ;;
        ret (fst more, snd (fst res) ++ snd more)
  end.

(** Every list of the store holds spans with a non-negative start and
    [start <= end] only. *)
Definition store_ok (h : store) : Prop := Forall (Forall span_ok) h.
(** * Properties *)

(** ** Slices *)

Lemma len_nonneg {A : Type} (l : list A) : 0 <= len l.
Proof. unfold len. lia. Qed.

Lemma len_app {A : Type} (l k : list A) : len (l ++ k) = len l + len k.
Proof. unfold len. rewrite length_app. lia. Qed.

Lemma len_nil_iff {A : Type} (l : list A) : len l = 0 <-> l = [].
Proof. unfold len. destruct l; simpl; split; intros; try done; lia. Qed.

Lemma clamp_index_inside n i : 0 <= i <= n -> clamp_index n i = i.
Proof.
  intros Hi. unfold clamp_index.
  destruct (Z.ltb_spec i 0); lia.
Qed.

Lemma clamp_index_nonneg n i : 0 <= n -> 0 <= i -> clamp_index n i = Z.min i n.
Proof.
  intros Hn Hi. unfold clamp_index.
  destruct (Z.ltb_spec i 0); lia.
Qed.

(** Inside the bounds a slice is the plain sub-list. *)
Lemma slice_inside {A : Type} (l : list A) (lo hi : Z) :
  0 <= lo <= hi -> hi <= len l ->
  slice l lo hi = take (Z.to_nat (hi - lo)) (drop (Z.to_nat lo) l).
Proof.
  intros H1 H2. unfold slice.
  rewrite !clamp_index_inside by lia. reflexivity.
Qed.


Lemma occurs_at_bounds text pattern i :
  occurs_at text pattern i -> 0 <= i /\ i + len pattern <= len text.
Proof.
  intros (pre & post & -> & <-).
  rewrite !len_app. pose proof (len_nonneg pre). pose proof (len_nonneg post). lia.
Qed.

Lemma slice_occurs_at text pattern i :
  0 <= i -> i + len pattern <= len text ->
  slice text i (i + len pattern) = pattern <-> occurs_at text pattern i.
Proof.
  intros Hi Hle. pose proof (len_nonneg pattern) as Hp.
  rewrite slice_inside by lia.
  replace (Z.to_nat (i + len pattern - i)) with (length pattern)
    by (unfold len; lia).
  split.
  - intros Heq. exists (take (Z.to_nat i) text), (drop (length pattern) (drop (Z.to_nat i) text)).
    split.
    + rewrite <- Heq at 1. rewrite take_drop. rewrite take_drop. reflexivity.
    + unfold len in *. rewrite length_take. lia.
  - intros (pre & post & -> & <-).
    unfold len. rewrite Nat2Z.id.
    rewrite drop_app_length. rewrite take_app_length. reflexivity.
Qed.

(** ** The span finder *)


Lemma scan_fold text pattern (l : list Z) (acc : list span) :
  fold_left (scan_step text pattern) l acc
  = acc ++ map (span_at pattern) (filter (matches_at text pattern) l).
Proof.
  revert acc. induction l as [|i l IH]; intros acc; simpl.
  - by rewrite app_nil_r.
  - rewrite IH. unfold scan_step at 1. rewrite filter_cons.
    unfold matches_at at 2 3.
    destruct (decide (slice text i (i + len pattern) = pattern)); simpl.
    + by rewrite <- app_assoc.
    + reflexivity.
Qed.

Lemma find_spans_closed text pattern :
  pattern <> [] ->
  find_spans text pattern
  = map (span_at pattern)
      (filter (matches_at text pattern) (range (len text - len pattern + 1))).
Proof.
  intros Hne. unfold find_spans. destruct pattern as [|c p]; [done|].
  by rewrite scan_fold.
Qed.

Lemma elem_of_range n i : i ∈ range n <-> 0 <= i < n.
Proof.
  unfold range. rewrite list_elem_of_fmap. split.
  - intros (k & -> & Hk). apply list_elem_of_In, in_seq in Hk. lia.
  - intros Hi. exists (Z.to_nat i). split; [lia|].
    apply list_elem_of_In, in_seq. lia.
Qed.

Lemma range_sorted n : StronglySorted Z.lt (range n).
Proof.
  unfold range. generalize 0%nat as a. induction (Z.to_nat n) as [|k IH]; intros a; simpl.
  - constructor.
  - constructor; [apply IH|].
    apply List.Forall_forall. intros x Hx. apply in_map_iff in Hx as (j & <- & Hj).
    apply in_seq in Hj. lia.
Qed.

Lemma StronglySorted_filter {A : Type} (R : A -> A -> Prop) (P : A -> Prop)
    `{!forall x, Decision (P x)} (l : list A) :
  StronglySorted R l -> StronglySorted R (filter P l).
Proof.
  induction 1 as [|x l Hs IH Hall]; [constructor|].
  rewrite filter_cons. destruct (decide (P x)); [|done].
  constructor; [done|].
  apply Forall_forall. intros y Hy. apply list_elem_of_filter in Hy as [_ Hy].
  rewrite Forall_forall in Hall. by apply Hall.
Qed.

Lemma StronglySorted_map {A B : Type} (R : A -> A -> Prop) (S : B -> B -> Prop)
    (f : A -> B) (l : list A) :
  (forall x y, R x y -> S (f x) (f y)) ->
  StronglySorted R l -> StronglySorted S (map f l).
Proof.
  intros Hf. induction 1 as [|x l Hs IH Hall]; simpl; constructor; [done|].
  apply List.Forall_forall. intros y Hy. apply in_map_iff in Hy as (z & <- & Hz).
  rewrite List.Forall_forall in Hall. by apply Hf, Hall.
Qed.


Lemma find_spans_elem text pattern s e :
  In (s, e) (find_spans text pattern)
  <-> pattern <> [] /\ 0 <= s <= len text - len pattern
      /\ e = s + len pattern /\ occurs_at text pattern s.
Proof.
  destruct (decide (pattern = [])) as [->|Hne].
  - simpl. split; [done|]. by intros [? _].
  - rewrite find_spans_closed by done. rewrite in_map_iff. split.
    + intros (i & Heq & Hi). unfold span_at in Heq. injection Heq as <- <-.
      apply list_elem_of_In, list_elem_of_filter in Hi as [Hm Hr].
      apply elem_of_range in Hr.
      split; [done|]. split; [lia|]. split; [done|].
      apply slice_occurs_at; [lia|lia|done].
    + intros (_ & Hs & -> & Hocc). exists s. split; [done|].
      apply list_elem_of_In, list_elem_of_filter. split.
      * apply slice_occurs_at; [lia|lia|done].
      * apply elem_of_range. lia.
Qed.

Lemma find_spans_increase text pattern : starts_increase (find_spans text pattern).
Proof.
  destruct (decide (pattern = [])) as [->|Hne]; [constructor|].
  rewrite find_spans_closed by done.
  apply StronglySorted_map with (R := Z.lt); [by intros x y Hxy|].
  apply StronglySorted_filter, range_sorted.
Qed.

Lemma find_spans_short text pattern :
  len text < len pattern -> find_spans text pattern = [].
Proof.
  intros Hlt. unfold find_spans. destruct pattern as [|c p]; [done|].
  unfold range. replace (Z.to_nat _) with 0%nat by lia. reflexivity.
Qed.

Lemma find_spans_empty_text pattern : find_spans [] pattern = [].
Proof.
  destruct pattern as [|c p]; [done|].
  apply find_spans_short. unfold len. simpl. lia.
Qed.

(** C5: for a non-empty pattern [find_spans] returns exactly the spans
    [(i, i + len pattern)] of the offsets [i] in [0, len text - len pattern]
    at which the pattern occurs in the text, by ascending start, overlapping
    occurrences included; an empty pattern, an empty text and a pattern
    longer than the text give the empty list.  [find_spans "aaa" "aa"] is
    [(0,2); (1,3)] and [find_spans "abc" "xyz"] is empty. *)
Theorem find_spans_exact :
  (forall text pattern s e,
      In (s, e) (find_spans text pattern)
      <-> pattern <> [] /\ 0 <= s <= len text - len pattern
          /\ e = s + len pattern /\ occurs_at text pattern s)
  /\ (forall text pattern, starts_increase (find_spans text pattern))
  /\ (forall text, find_spans text [] = [])
  /\ (forall pattern, find_spans [] pattern = [])
  /\ (forall text pattern, len text < len pattern -> find_spans text pattern = [])
  /\ find_spans (lit "aaa") (lit "aa") = [(0, 2); (1, 3)]
  /\ find_spans (lit "abc") (lit "xyz") = [].
Proof.
  split; [exact find_spans_elem|].
  split; [exact find_spans_increase|].
  split; [reflexivity|].
  split; [exact find_spans_empty_text|].
  split; [exact find_spans_short|].
  split; vm_compute; reflexivity.
Qed.

Lemma find_spans_exact_witness : find_spans (lit "ab") (lit "abc") = [].
Proof.
  apply (proj1 (proj2 (proj2 (proj2 (proj2 find_spans_exact)))) (lit "ab") (lit "abc")).
  vm_compute. reflexivity.
Defined.

(** C10: every span [(s, e)] returned by [find_spans] has [0 <= s],
    [e = s + len pattern] and [e <= len text], and the starts of the
    returned spans strictly increase. *)
Theorem find_spans_bounds (text pattern : str) :
  Forall (fun se : span =>
            0 <= fst se /\ snd se = fst se + len pattern /\ snd se <= len text)
         (find_spans text pattern)
  /\ starts_increase (find_spans text pattern).
Proof.
  split; [|apply find_spans_increase].
  apply List.Forall_forall. intros [s e] Hin.
  apply find_spans_elem in Hin as (_ & Hs & -> & _). simpl. lia.
Qed.

(** ** Sorting *)

Section SortingFacts.
Context {A : Type} (leb : A -> A -> bool).
Hypothesis leb_total : forall x y, leb x y = true \/ leb y x = true.
Hypothesis leb_trans : forall x y z, leb x y = true -> leb y z = true -> leb x z = true.

Lemma insert_sorted_perm (x : A) (l : list A) :
  Permutation (x :: l) (insert_sorted leb x l).
Proof.
  induction l as [|y l IH]; simpl; [done|].
  destruct (leb x y); [done|].
  rewrite <- IH. apply perm_swap.
Qed.

Lemma sorted_perm (l : list A) : Permutation l (sorted leb l).
Proof.
  induction l as [|x l IH]; simpl; [done|].
  rewrite <- insert_sorted_perm. by constructor.
Qed.

Lemma insert_sorted_ordered (x : A) (l : list A) :
  StronglySorted (fun a b => leb a b = true) l ->
  StronglySorted (fun a b => leb a b = true) (insert_sorted leb x l).
Proof.
  induction 1 as [|y l Hs IH Hall]; simpl.
  - repeat constructor.
  - destruct (leb x y) eqn:Hxy.
    + constructor; [by constructor|].
      constructor; [done|].
      eapply Forall_impl; [exact Hall|]. intros z Hz. by eapply leb_trans.
    + constructor; [done|].
      rewrite <- insert_sorted_perm. constructor; [|done].
      destruct (leb_total x y); congruence.
Qed.

Lemma sorted_ordered (l : list A) :
  StronglySorted (fun a b => leb a b = true) (sorted leb l).
Proof.
  induction l as [|x l IH]; simpl; [constructor|].
  by apply insert_sorted_ordered.
Qed.
End SortingFacts.

Lemma span_leb_le a b : span_leb a b = true <-> span_le a b.
Proof. unfold span_leb, span_le. destruct a, b; simpl. lia. Qed.

Lemma sorted_spans_ordered (l : list span) :
  StronglySorted span_le (sorted span_leb l).
Proof.
  assert (StronglySorted (fun a b => span_leb a b = true) (sorted span_leb l)) as H.
  { apply sorted_ordered.
    - intros x y. rewrite !span_leb_le. unfold span_le. lia.
    - intros x y z. rewrite !span_leb_le. unfold span_le. lia. }
  induction H as [|x k Hs IH Hall]; constructor; [done|].
  eapply Forall_impl; [exact Hall|]. intros z. by rewrite span_leb_le.
Qed.

(** ** Merging the sorted spans into runs *)

Lemma apart_last_end (l : list span) (a b b' : Z) :
  apart (l ++ [(a, b)]) -> apart (l ++ [(a, b')]).
Proof.
  induction l as [|x l IH]; simpl; [done|].
  destruct l as [|y l]; simpl in *; [done|].
  intros [H1 H2]. split; [done|]. by apply IH.
Qed.

Lemma apart_snoc (l : list span) (a b s e : Z) :
  apart (l ++ [(a, b)]) -> b < s -> apart ((l ++ [(a, b)]) ++ [(s, e)]).
Proof.
  intros H Hlt. induction l as [|x l IH]; simpl; [done|].
  destruct l as [|y l]; simpl in *.
  - destruct H. done.
  - destruct H as [H1 H2]. split; [done|]. by apply IH.
Qed.

(** What the merging loop maintains, for the spans [seen] so far and the
    runs [merged ++ [current]]. *)
Definition merge_inv (seen runs : list span) : Prop :=
  apart runs
  /\ (forall se, In se seen -> exists r, In r runs /\ within se r)
  /\ (forall r x, In r runs -> fst r <= x <= snd r -> covered seen x).

Definition runs_of (st : list span * span) : list span := fst st ++ [snd st].

Lemma covered_app_l seen more x : covered seen x -> covered (seen ++ more) x.
Proof. intros (se & Hin & Hx). exists se. split; [apply in_or_app; by left|done]. Qed.

Lemma merge_step_inv (seen merged : list span) (cur se : span) :
  merge_inv seen (runs_of (merged, cur)) ->
  fst cur <= fst se ->
  merge_inv (seen ++ [se]) (runs_of (merge_step (merged, cur) se)).
Proof.
  destruct cur as [cs ce], se as [s e]. unfold runs_of. simpl.
  intros (Hap & Hin & Hcov) Hle.
  destruct (Z.leb_spec s ce) as [Hs|Hs]; simpl.
  - split; [by eapply apart_last_end|]. split.
    + intros x Hx. apply in_app_or in Hx as [Hx|[<-|[]]].
      * destruct (Hin x Hx) as (r & Hr & Hw).
        apply in_app_or in Hr as [Hr|[<-|[]]].
        -- exists r. split; [apply in_or_app; by left|done].
        -- exists (cs, Z.max ce e). split; [apply in_or_app; right; by left|].
           unfold within in *. simpl in *. lia.
      * exists (cs, Z.max ce e). split; [apply in_or_app; right; by left|].
        unfold within. simpl. lia.
    + intros r x Hr Hx. apply in_app_or in Hr as [Hr|[<-|[]]].
      * apply covered_app_l. apply (Hcov r x); [apply in_or_app; by left|done].
      * simpl in Hx. destruct (Z.le_gt_cases x ce) as [Hxc|Hxc].
        -- apply covered_app_l. apply (Hcov (cs, ce) x); [apply in_or_app; right; by left|].
           simpl. lia.
        -- exists (s, e). split; [apply in_or_app; right; by left|]. simpl. lia.
  - split; [by apply apart_snoc|]. split.
    + intros x Hx. apply in_app_or in Hx as [Hx|[<-|[]]].
      * destruct (Hin x Hx) as (r & Hr & Hw).
        exists r. split; [apply in_or_app; by left|done].
      * exists (s, e). split; [apply in_or_app; right; by left|].
        unfold within. lia.
    + intros r x Hr Hx. apply in_app_or in Hr as [Hr|[<-|[]]].
      * apply covered_app_l. by apply (Hcov r x).
      * exists (s, e). split; [apply in_or_app; right; by left|done].
Qed.

Lemma merge_step_start (merged : list span) (cur se : span) :
  fst cur <= fst se -> fst (snd (merge_step (merged, cur) se)) <= fst se.
Proof.
  destruct cur as [cs ce], se as [s e]. simpl.
  destruct (Z.leb_spec s ce); simpl; lia.
Qed.

Lemma span_le_start a b : span_le a b -> fst a <= fst b.
Proof. unfold span_le. lia. Qed.

Lemma merge_loop_inv (rest : list span) :
  forall (seen : list span) (st : list span * span),
    StronglySorted span_le rest ->
    Forall (fun se => fst (snd st) <= fst se) rest ->
    merge_inv seen (runs_of st) ->
    merge_inv (seen ++ rest) (runs_of (fold_left merge_step rest st)).
Proof.
  induction rest as [|se rest IH]; intros seen [merged cur] Hsort Hall Hinv;
    cbn [fold_left].
  - by rewrite app_nil_r.
  - apply StronglySorted_inv in Hsort as [Hsort Hse].
    apply Forall_cons in Hall as [Hcur Hall]. simpl in Hcur.
    replace (seen ++ se :: rest) with ((seen ++ [se]) ++ rest)
      by (by rewrite <- app_assoc).
    pose proof (merge_step_start merged cur se Hcur) as Hstart.
    pose proof (merge_step_inv seen merged cur se Hinv Hcur) as Hstep.
    destruct (merge_step (merged, cur) se) as [merged' cur'] eqn:Hms.
    apply IH; [exact Hsort| |exact Hstep].
    cbn [fst snd] in *.
    apply Forall_forall. intros x Hx.
    rewrite Forall_forall in Hse. specialize (Hse x Hx).
    apply span_le_start in Hse. cbn beta. cbn [fst snd] in *. lia.
Qed.

Lemma merge_spans_runs (l : list span) :
  StronglySorted span_le l -> merge_inv l (merge_spans l).
Proof.
  destruct l as [|first rest]; intros Hsort.
  - simpl. split; [done|]. split; [by intros ? []|by intros ? ? []].
  - apply StronglySorted_inv in Hsort as [Hsort Hfirst].
    unfold merge_spans.
    pose proof (merge_loop_inv rest [first] ([], first) Hsort) as H.
    destruct (fold_left merge_step rest ([], first)) as [merged current].
    apply H.
    + simpl. eapply Forall_impl; [exact Hfirst|]. intros x. apply span_le_start.
    + unfold runs_of. simpl. split; [done|]. split.
      * intros se [<-|[]]. exists first. split; [by left|]. unfold within. lia.
      * intros r x [<-|[]] Hx. exists first. split; [by left|done].
Qed.

Lemma merge_step_ok (merged : list span) (cur se : span) :
  span_ok se -> Forall span_ok (runs_of (merged, cur)) ->
  Forall span_ok (runs_of (merge_step (merged, cur) se)).
Proof.
  destruct cur as [cs ce], se as [s e]. unfold runs_of, span_ok. simpl.
  intros Hse Hruns. apply Forall_app in Hruns as [Hm Hc].
  apply Forall_cons in Hc as [Hc _]. simpl in Hc.
  destruct (Z.leb_spec s ce); simpl.
  - apply Forall_app. split; [done|]. constructor; [simpl; lia|constructor].
  - apply Forall_app. split.
    + apply Forall_app. split; [done|]. constructor; [simpl; lia|constructor].
    + constructor; [simpl; lia|constructor].
Qed.

Lemma merge_loop_ok (rest : list span) :
  forall st : list span * span,
    Forall span_ok rest -> Forall span_ok (runs_of st) ->
    Forall span_ok (runs_of (fold_left merge_step rest st)).
Proof.
  induction rest as [|se rest IH]; intros [merged cur] Hrest Hst; cbn [fold_left];
    [done|].
  apply Forall_cons in Hrest as [Hse Hrest].
  pose proof (merge_step_ok merged cur se Hse Hst) as Hstep.
  destruct (merge_step (merged, cur) se) as [merged' cur'].
  by apply IH.
Qed.

Lemma merge_spans_ok (l : list span) :
  Forall span_ok l -> Forall span_ok (merge_spans l).
Proof.
  destruct l as [|first rest]; intros Hl; [constructor|].
  apply Forall_cons in Hl as [Hfirst Hrest].
  unfold merge_spans.
  pose proof (merge_loop_ok rest ([], first) Hrest) as H.
  destruct (fold_left merge_step rest ([], first)) as [merged current].
  apply H. unfold runs_of. simpl. by constructor.
Qed.

Lemma chain_of_apart (runs : list span) :
  forall i,
    apart runs -> Forall span_ok runs ->
    match runs with [] => True | r :: _ => i <= fst r end ->
    chain i runs.
Proof.
  induction runs as [|[s e] runs IH]; intros i Hap Hok Hi; simpl; [done|].
  apply Forall_cons in Hok as [Hse Hok]. unfold span_ok in Hse. simpl in *.
  split; [done|]. split; [lia|].
  apply IH; [by destruct runs as [|? ?]; [|destruct Hap]|done|].
  destruct runs as [|r runs]; [done|]. destruct Hap. lia.
Qed.

(** ** Building the highlighted string *)

Lemma emit_loop (text code : str) (runs : list span) :
  forall (out : list piece) (i : Z),
    runs_out (fold_left (emit_step text code) runs (out, i)) text
    = out ++ run_pieces text code i runs.
Proof.
  induction runs as [|[s e] runs IH]; intros out i; cbn [fold_left].
  - reflexivity.
  - unfold emit_step at 2. rewrite IH. simpl. by rewrite <- app_assoc.
Qed.

Lemma highlight_out_runs (text : str) (spans : list span) (mode : str) :
  highlight_out text spans mode
  = run_pieces text (color_code mode) 0 (merge_spans (sorted span_leb spans)).
Proof.
  unfold highlight_out.
  pose proof (emit_loop text (color_code mode)
                (merge_spans (sorted span_leb spans)) [] 0) as H.
  unfold runs_out in H.
  destruct (fold_left _ _ _) as [out i]. exact H.
Qed.

Lemma slice_slice_from {A : Type} (l : list A) (i s : Z) :
  0 <= i <= s -> slice l i s ++ slice_from l s = slice_from l i.
Proof.
  intros H. unfold slice, slice_from.
  pose proof (len_nonneg l) as Hn.
  rewrite !clamp_index_nonneg by lia.
  set (a := Z.to_nat (Z.min i (len l))).
  set (b := Z.to_nat (Z.min s (len l))).
  replace (Z.to_nat (Z.min s (len l) - Z.min i (len l))) with (b - a)%nat by lia.
  replace (drop b l) with (drop (b - a) (drop a l)).
  - apply take_drop.
  - rewrite drop_drop. f_equal. lia.
Qed.

Lemma slice_from_0 {A : Type} (l : list A) : slice_from l 0 = l.
Proof.
  unfold slice_from. pose proof (len_nonneg l).
  rewrite clamp_index_nonneg by lia.
  replace (Z.to_nat (Z.min 0 (len l))) with 0%nat by lia. reflexivity.
Qed.

Lemma without_markers_run_pieces (text code : str) (runs : list span) :
  forall i, 0 <= i -> chain i runs ->
    without_markers (run_pieces text code i runs) = slice_from text i.
Proof.
  induction runs as [|[s e] runs IH]; intros i Hi Hch.
  - unfold without_markers. simpl. apply app_nil_r.
  - destruct Hch as (His & Hse & Hch).
    change (without_markers (run_pieces text code i ((s, e) :: runs)))
      with (slice text i s ++ [] ++ slice text s e ++ []
            ++ without_markers (run_pieces text code e runs)).
    simpl. rewrite IH by (done || lia).
    rewrite slice_slice_from by lia. apply slice_slice_from. lia.
Qed.

Lemma markers_run_pieces (text code : str) (runs : list span) :
  forall i,
    markers (run_pieces text code i runs)
    = flat_map (fun _ => [code; reset_code]) runs.
Proof.
  induction runs as [|[s e] runs IH]; intros i; [reflexivity|].
  simpl. unfold markers in *. simpl. by rewrite IH.
Qed.

Lemma sorted_spans_runs (spans : list span) :
  merge_inv spans (merge_spans (sorted span_leb spans)).
Proof.
  pose proof (merge_spans_runs _ (sorted_spans_ordered spans)) as (Hap & Hin & Hcov).
  pose proof (sorted_perm span_leb spans) as Hperm.
  split; [done|]. split.
  - intros se Hse. apply Hin. by eapply Permutation_in.
  - intros r x Hr Hx. destruct (Hcov r x Hr Hx) as (se & Hse & Hb).
    exists se. split; [|done]. eapply Permutation_in; [symmetry; exact Hperm|done].
Qed.

(** The runs are no wider than the spans make them: what the merging loop
    maintains besides [merge_inv]. *)
Definition merge_tight (seen runs : list span) : Prop :=
  (forall r x, In r runs -> fst r <= x < snd r -> joined seen x)
  /\ (forall r, In r runs -> anchored seen r).

Lemma joined_app_l seen more x : joined seen x -> joined (seen ++ more) x.
Proof. intros (se & Hin & Hx). exists se. split; [apply in_or_app; by left|done]. Qed.

Lemma anchored_app_l seen more r : anchored seen r -> anchored (seen ++ more) r.
Proof.
  intros [(a & Ha & Hfa) (b & Hb & Hsb)]. split.
  - exists a. split; [apply in_or_app; by left|done].
  - exists b. split; [apply in_or_app; by left|done].
Qed.

Lemma merge_step_tight (seen merged : list span) (cur se : span) :
  merge_tight seen (runs_of (merged, cur)) ->
  merge_tight (seen ++ [se]) (runs_of (merge_step (merged, cur) se)).
Proof.
  destruct cur as [cs ce], se as [s e]. unfold runs_of. simpl.
  intros [Hj Ha].
  assert (In (s, e) (seen ++ [(s, e)])) as Hnew by (apply in_or_app; right; by left).
  assert (In (cs, ce) (merged ++ [(cs, ce)])) as Hcur by (apply in_or_app; right; by left).
  destruct (Z.leb_spec s ce) as [Hs|Hs]; simpl.
  - split.
    + intros r x Hr Hx. apply in_app_or in Hr as [Hr|[<-|[]]].
      * apply joined_app_l. apply (Hj r x); [apply in_or_app; by left|done].
      * simpl in Hx. destruct (Z.lt_ge_cases x ce) as [Hxc|Hxc].
        -- apply joined_app_l. apply (Hj (cs, ce) x Hcur). simpl. lia.
        -- exists (s, e). split; [exact Hnew|]. simpl. lia.
    + intros r Hr. apply in_app_or in Hr as [Hr|[<-|[]]].
      * apply anchored_app_l, Ha. apply in_or_app. by left.
      * destruct (Ha (cs, ce) Hcur) as [(a & Hin & Hfa) (b & Hb & Hsb)].
        simpl in Hfa, Hsb. split.
        -- exists a. split; [apply in_or_app; by left|done].
        -- simpl. destruct (Z.max_spec ce e) as [[_ ->]|[_ ->]].
           ++ by exists (s, e).
           ++ exists b. split; [apply in_or_app; by left|done].
  - split.
    + intros r x Hr Hx. apply in_app_or in Hr as [Hr|[<-|[]]].
      * apply joined_app_l. by apply (Hj r x).
      * exists (s, e). split; [exact Hnew|]. simpl in *. lia.
    + intros r Hr. apply in_app_or in Hr as [Hr|[<-|[]]].
      * by apply anchored_app_l, Ha.
      * split; by exists (s, e).
Qed.

Lemma merge_loop_tight (rest : list span) :
  forall (seen : list span) (st : list span * span),
    merge_tight seen (runs_of st) ->
    merge_tight (seen ++ rest) (runs_of (fold_left merge_step rest st)).
Proof.
  induction rest as [|se rest IH]; intros seen [merged cur] Hinv; cbn [fold_left].
  - by rewrite app_nil_r.
  - replace (seen ++ se :: rest) with ((seen ++ [se]) ++ rest)
      by (by rewrite <- app_assoc).
    pose proof (merge_step_tight seen merged cur se Hinv) as Hstep.
    destruct (merge_step (merged, cur) se) as [merged' cur'].
    by apply IH.
Qed.

Lemma merge_spans_tight (l : list span) : merge_tight l (merge_spans l).
Proof.
  destruct l as [|first rest].
  - split; by intros ? [].
  - unfold merge_spans.
    pose proof (merge_loop_tight rest [first] ([], first)) as H.
    destruct (fold_left merge_step rest ([], first)) as [merged current].
    apply H. unfold runs_of. simpl. split.
    + intros r x [<-|[]] Hx. exists first. split; [by left|lia].
    + intros r [<-|[]]. split; exists first; split; by (left || reflexivity).
Qed.

Lemma sorted_spans_tight (spans : list span) :
  merge_tight spans (merge_spans (sorted span_leb spans)).
Proof.
  destruct (merge_spans_tight (sorted span_leb spans)) as [Hj Ha].
  assert (forall se, In se (sorted span_leb spans) -> In se spans) as Hback.
  { intros se. apply Permutation_in. symmetry. apply sorted_perm. }
  split.
  - intros r x Hr Hx. destruct (Hj r x Hr Hx) as (se & Hse & Hb).
    exists se. split; [by apply Hback|done].
  - intros r Hr. destruct (Ha r Hr) as [(a & Hin & Hfa) (b & Hb & Hsb)]. split.
    + exists a. split; [by apply Hback|done].
    + exists b. split; [by apply Hback|done].
Qed.

(** One more span at the end of the list: it is merged into the last run
    when its start is at most the end of that run, and begins a run of its
    own otherwise. *)
Lemma merge_spans_snoc (l runs : list span) (cs ce s e : Z) :
  merge_spans l = runs ++ [(cs, ce)] ->
  merge_spans (l ++ [(s, e)])
  = if s <=? ce then runs ++ [(cs, Z.max ce e)] else runs ++ [(cs, ce); (s, e)].
Proof.
  destruct l as [|first rest]; [by destruct runs|].
  cbn [merge_spans app]. rewrite fold_left_app. cbn [fold_left].
  destruct (fold_left merge_step rest ([], first)) as [merged [cs' ce']].
  intros H. apply app_inj_tail in H as [-> [= -> ->]].
  unfold merge_step. destruct (s <=? ce); [reflexivity|].
  by rewrite <- app_assoc.
Qed.

Lemma ansi_highlight_rendered (text : str) (spans : list span) (mode : str) :
  ansi_highlight text spans mode = join (rendered text spans mode).
Proof.
  unfold ansi_highlight, rendered. destruct spans; [|reflexivity].
  unfold join. simpl. by rewrite app_nil_r.
Qed.

Lemma rendered_roundtrip (text : str) (spans : list span) (mode : str) :
  Forall span_ok spans -> without_markers (rendered text spans mode) = text.
Proof.
  intros Hok. unfold rendered. destruct spans as [|se spans].
  - unfold without_markers. simpl. apply app_nil_r.
  - rewrite highlight_out_runs.
    rewrite without_markers_run_pieces; [apply slice_from_0|lia|].
    set (l := se :: spans) in *.
    assert (Forall span_ok (merge_spans (sorted span_leb l))) as Hruns.
    { apply merge_spans_ok. by rewrite <- (sorted_perm span_leb l). }
    apply chain_of_apart; [apply (sorted_spans_runs l)|done|].
    destruct (merge_spans (sorted span_leb l)) as [|r runs]; [done|].
    apply Forall_cons in Hruns as [Hr _]. unfold span_ok in Hr. lia.
Qed.

(** Stripping the escape sequences of a string *)

Lemma strip_ansi_text (t rest : str) :
  Forall (fun c => c <> esc) t ->
  strip_ansi false (t ++ rest) = t ++ strip_ansi false rest.
Proof.
  induction 1 as [|c t Hc Ht IH]; [reflexivity|].
  simpl. rewrite bool_decide_eq_false_2 by done. by rewrite IH.
Qed.

Lemma strip_ansi_reset (rest : str) :
  strip_ansi false (reset_code ++ rest) = strip_ansi false rest.
Proof. reflexivity. Qed.

Lemma strip_ansi_color (highlight_mode rest : str) :
  strip_ansi false (color_code highlight_mode ++ rest) = strip_ansi false rest.
Proof.
  unfold color_code. by destruct (decide (highlight_mode = lit "GREEN")).
Qed.

Lemma strip_ansi_join (highlight_mode : str) (out : list piece) :
  Forall (piece_ok (color_code highlight_mode)) out ->
  strip_ansi false (join out) = without_markers out.
Proof.
  unfold join, without_markers.
  induction 1 as [|p out Hp Hout IH]; [reflexivity|].
  cbn [map concat piece_str]. destruct p as [t|m]; simpl in Hp; cbn [piece_str].
  - rewrite strip_ansi_text by done. by rewrite IH.
  - destruct Hp as [->| ->].
    + by rewrite strip_ansi_color, IH.
    + by rewrite strip_ansi_reset, IH.
Qed.

Lemma slice_Forall {A : Type} (P : A -> Prop) (l : list A) (lo hi : Z) :
  Forall P l -> Forall P (slice l lo hi).
Proof. intros H. unfold slice. by apply Forall_take, Forall_drop. Qed.

Lemma run_pieces_ok (text code : str) (runs : list span) :
  Forall (fun c => c <> esc) text ->
  forall i, Forall (piece_ok code) (run_pieces text code i runs).
Proof.
  intros Htext. induction runs as [|[s e] runs IH]; intros i; simpl.
  - constructor; [|constructor]. simpl. unfold slice_from. by apply Forall_drop.
  - constructor; [simpl; by apply slice_Forall|].
    constructor; [by left|].
    constructor; [simpl; by apply slice_Forall|].
    constructor; [by right|]. apply IH.
Qed.

Lemma rendered_ok (text : str) (spans : list span) (highlight_mode : str) :
  Forall (fun c => c <> esc) text ->
  Forall (piece_ok (color_code highlight_mode)) (rendered text spans highlight_mode).
Proof.
  intros Htext. unfold rendered. destruct spans as [|se spans].
  - by repeat constructor.
  - rewrite highlight_out_runs. by apply run_pieces_ok.
Qed.

(** C6: for spans with a non-negative start and [end >= start], in either
    style, the output of the renderer is the join of pieces of the text and
    inserted markers, every marker being the colour code of the style or
    the reset code, and the pieces without the markers make up the text
    again; for no spans the output is the text.  When the text itself holds
    no escape character, stripping the escape sequences from the output
    string gives the text. *)
Theorem render_roundtrip (text : str) (spans : list span) (highlight_mode : str) :
  Forall span_ok spans ->
  ansi_highlight text spans highlight_mode = join (rendered text spans highlight_mode)
  /\ Forall (fun m => m = color_code highlight_mode \/ m = reset_code)
       (markers (rendered text spans highlight_mode))
  /\ without_markers (rendered text spans highlight_mode) = text
  /\ ansi_highlight text [] highlight_mode = text
  /\ (Forall (fun c => c <> esc) text ->
      strip_ansi false (ansi_highlight text spans highlight_mode) = text).
Proof.
  intros Hok.
  split; [apply ansi_highlight_rendered|].
  split; [|split; [by apply rendered_roundtrip|split; [reflexivity|]]].
  - unfold rendered. destruct spans as [|se spans]; [constructor|].
    rewrite highlight_out_runs, markers_run_pieces.
    induction (merge_spans _) as [|r runs IH]; simpl; [constructor|].
    constructor; [by left|]. constructor; [by right|]. exact IH.
  - intros Htext. rewrite ansi_highlight_rendered.
    rewrite (strip_ansi_join highlight_mode) by (by apply rendered_ok).
    by apply rendered_roundtrip.
Qed.

Lemma render_roundtrip_witness :
  without_markers (rendered (lit "abcdef") [(1, 3); (0, 2); (5, 9)] (lit "GREEN"))
  = lit "abcdef"
  /\ strip_ansi false (ansi_highlight (lit "abcdef") [(1, 3); (0, 2); (5, 9)] (lit "GREEN"))
     = lit "abcdef".
Proof.
  pose proof (render_roundtrip (lit "abcdef") [(1, 3); (0, 2); (5, 9)] (lit "GREEN")) as H.
  destruct H as (_ & _ & H1 & _ & H2).
  - repeat constructor; simpl; lia.
  - split; [exact H1|]. apply H2. repeat constructor; discriminate.
Defined.

(** C7: the renderer orders the spans by (start, end) and merges them into
    maximal runs.  Consecutive runs neither overlap nor touch, and every
    span lies in a run, so spans that overlap or touch are in one run; a
    run is no wider than the spans make it: it begins where a span begins,
    ends where a span ends, and each stretch of it from an offset to the
    next lies in a span, so spans with a gap between them, be it of one
    character, are in different runs.  Span by span: a further span is
    merged into the last run exactly when its start is at most the end of
    that run.  Each run is written with one opening and one closing
    marker, the opening marker being ESC[1;92m in the style GREEN and
    ESC[43m ESC[30m in any other, the closing one ESC[0m.  For "abcdef"
    and the spans (0,2), (2,4) there is the one run (0,4) and one pair of
    markers around "abcd"; the spans (0,2), (3,4) stay two runs. *)
Theorem render_merges (text : str) (spans : list span) (highlight_mode : str) :
  let ordered := sorted span_leb spans in
  let runs := merge_spans ordered in
  let code := color_code highlight_mode in
  Permutation spans ordered
  /\ StronglySorted span_le ordered
  /\ apart runs
  /\ (forall se, In se spans -> exists r, In r runs /\ within se r)
  /\ (forall r x, In r runs -> fst r <= x <= snd r -> covered spans x)
  /\ (spans <> [] ->
      ansi_highlight text spans highlight_mode = join (run_pieces text code 0 runs))
  /\ markers (run_pieces text code 0 runs) = flat_map (fun _ => [code; reset_code]) runs
  /\ merge_spans (sorted span_leb [(0, 2); (2, 4)]) = [(0, 4)]
  /\ ansi_highlight (lit "abcdef") [(0, 2); (2, 4)] (lit "DEFAULT")
     = color_code (lit "DEFAULT") ++ lit "abcd" ++ reset_code ++ lit "ef"
  /\ (forall r x, In r runs -> fst r <= x < snd r -> joined spans x)
  /\ (forall r, In r runs -> anchored spans r)
  /\ (forall (l before : list span) (cs ce s e : Z),
        merge_spans l = before ++ [(cs, ce)] ->
        merge_spans (l ++ [(s, e)])
        = if s <=? ce then before ++ [(cs, Z.max ce e)]
          else before ++ [(cs, ce); (s, e)])
  /\ code = (if decide (highlight_mode = lit "GREEN")
             then "027"%char :: lit "[1;92m"
             else "027"%char :: lit "[43m" ++ "027"%char :: lit "[30m")
  /\ reset_code = "027"%char :: lit "[0m"
  /\ ansi_highlight (lit "abcdef") [(0, 2); (2, 4)] (lit "DEFAULT")
     = "027"%char :: lit "[43m" ++ "027"%char :: lit "[30m" ++ lit "abcd"
       ++ "027"%char :: lit "[0m" ++ lit "ef"
  /\ ansi_highlight (lit "abcdef") [(2, 4); (0, 2)] (lit "GREEN")
     = "027"%char :: lit "[1;92m" ++ lit "abcd" ++ "027"%char :: lit "[0m" ++ lit "ef"
  /\ merge_spans (sorted span_leb [(0, 2); (3, 4)]) = [(0, 2); (3, 4)]
  /\ ansi_highlight (lit "abcdef") [(0, 2); (3, 4)] (lit "GREEN")
     = "027"%char :: lit "[1;92m" ++ lit "ab" ++ "027"%char :: lit "[0m" ++ lit "c"
       ++ "027"%char :: lit "[1;92m" ++ lit "d" ++ "027"%char :: lit "[0m" ++ lit "ef".
Proof.
  intros ordered runs code.
  destruct (sorted_spans_runs spans) as (Hap & Hin & Hcov).
  destruct (sorted_spans_tight spans) as [Hj Ha].
  split; [apply sorted_perm|].
  split; [apply sorted_spans_ordered|].
  split; [exact Hap|]. split; [exact Hin|]. split; [exact Hcov|].
  split.
  { intros Hne. unfold ansi_highlight. destruct spans as [|se spans]; [done|].
    by rewrite highlight_out_runs. }
  split; [apply markers_run_pieces|].
  split; [vm_compute; reflexivity|]. split; [vm_compute; reflexivity|].
  split; [exact Hj|]. split; [exact Ha|].
  split; [intros l before cs ce s e; apply merge_spans_snoc|].
  split.
  { unfold code, color_code. by destruct (decide (highlight_mode = lit "GREEN")). }
  repeat split; vm_compute; reflexivity.
Qed.

Lemma render_merges_witness :
  ansi_highlight (lit "abcdef") [(0, 2); (2, 4)] (lit "DEFAULT")
  = join (run_pieces (lit "abcdef") (color_code (lit "DEFAULT")) 0
            (merge_spans (sorted span_leb [(0, 2); (2, 4)]))).
Proof.
  pose proof (render_merges (lit "abcdef") [(0, 2); (2, 4)] (lit "DEFAULT")) as H.
  cbv zeta in H. destruct H as (_ & _ & _ & _ & _ & H & _).
  apply H. discriminate.
Defined.

(** ** The store *)

Lemma extends_refl h : extends h h.
Proof. exists []. by rewrite app_nil_r. Qed.

Lemma extends_trans h1 h2 h3 : extends h1 h2 -> extends h2 h3 -> extends h1 h3.
Proof. intros [k1 ->] [k2 ->]. exists (k1 ++ k2). by rewrite app_assoc. Qed.

Lemma extends_length h h' : extends h h' -> (length h <= length h')%nat.
Proof. intros [k ->]. rewrite length_app. lia. Qed.

Lemma extends_contents h h' p :
  extends h h' -> (p < length h)%nat -> contents h' p = contents h p.
Proof. intros [k ->] Hp. unfold contents. by rewrite lookup_app_l. Qed.

Lemma contents_alloc l h : contents (h ++ [l]) (length h) = l.
Proof. unfold contents. by rewrite list_lookup_middle. Qed.

(** ** The document matcher *)

Lemma search_lines_cons (q : str) (idx : Z) (line_raw : str) (rest : list str)
    (acc : list LineMatch) (h : store) :
  search_lines q idx (line_raw :: rest) acc h
  = match find_spans (lower line_raw) q with
    | [] => search_lines q (idx + 1) rest acc (h ++ [[]])
    | found =>
        search_lines q (idx + 1) rest
          (acc ++ [mkLineMatch idx line_raw (length h)]) (h ++ [found])
    end.
Proof.
  cbn [search_lines]. unfold bind, alloc, read.
  rewrite contents_alloc. by destruct (find_spans (lower line_raw) q).
Qed.

Lemma matching_lines_cons (q : str) (idx : Z) (line_raw : str) (rest : list str) :
  matching_lines q idx (line_raw :: rest)
  = match find_spans (lower line_raw) q with
    | [] => matching_lines q (idx + 1) rest
    | found => (idx, line_raw, found) :: matching_lines q (idx + 1) rest
    end.
Proof.
  unfold matching_lines. simpl.
  by destruct (find_spans (lower line_raw) q).
Qed.

Lemma search_lines_spec (q : str) (lines : list str) :
  forall idx acc h,
    exists new,
      fst (search_lines q idx lines acc h) = acc ++ new
      /\ extends h (snd (search_lines q idx lines acc h))
      /\ Forall (fun lm => (length h <= spans lm)%nat) new
      /\ map (line_view (snd (search_lines q idx lines acc h))) new
         = matching_lines q idx lines.
Proof.
  induction lines as [|line_raw rest IH]; intros idx acc h.
  - exists []. simpl. rewrite app_nil_r.
    split; [done|]. split; [apply extends_refl|]. split; [constructor|done].
  - rewrite search_lines_cons, matching_lines_cons.
    destruct (find_spans (lower line_raw) q) as [|sp found] eqn:Hfound.
    + destruct (IH (idx + 1) acc (h ++ [[]])) as (new & Hres & Hext & Hfresh & Hview).
      exists new. split; [done|].
      split; [eapply extends_trans; [|exact Hext]; by exists [[]]|].
      split; [|done].
      eapply Forall_impl; [exact Hfresh|]. intros lm. simpl.
      rewrite length_app. simpl. lia.
    + set (lm := mkLineMatch idx line_raw (length h)).
      set (h1 := h ++ [sp :: found]).
      destruct (IH (idx + 1) (acc ++ [lm]) h1) as (new & Hres & Hext & Hfresh & Hview).
      exists (lm :: new). split; [by rewrite Hres, <- app_assoc|].
      split; [eapply extends_trans; [|exact Hext]; by eexists|].
      split.
      * constructor; [simpl; lia|].
        eapply Forall_impl; [exact Hfresh|]. intros x. simpl.
        unfold h1. rewrite length_app. simpl. lia.
      * simpl. rewrite Hview. f_equal. unfold line_view. simpl.
        rewrite (extends_contents h1); [|done|unfold h1; rewrite length_app; simpl; lia].
        unfold h1. by rewrite contents_alloc.
Qed.

Lemma search_for_eq (self : Sonnet) (query : str) (h : store) :
  search_for self query h
  = let q := lower query in
    let h1 := h ++ [find_spans (lower (sonnet_title self)) q] in
    let res := search_lines q 1 (sonnet_lines self) [] h1 in
    (mkSearchResult (sonnet_title self) (length h) (fst res)
       (len (contents (snd res) (length h)) + line_span_count (snd res) (fst res)),
     snd res).
Proof.
  unfold search_for, bind, alloc, read. cbv zeta.
  by destruct (search_lines _ _ _ _ _).
Qed.

Lemma line_span_count_view (h : store) (lms : list LineMatch) :
  line_span_count h lms = total_spans (map (line_view h) lms).
Proof.
  unfold line_span_count, total_spans. generalize 0.
  induction lms as [|lm lms IH]; intros acc; simpl; [done|]. apply IH.
Qed.

(** The result of [search_for] satisfies the invariant: [matches] is
    computed from the lists the result refers to. *)
Lemma search_for_count_ok (self : Sonnet) (query : str) (h : store) :
  count_ok (snd (search_for self query h)) (fst (search_for self query h)).
Proof. rewrite search_for_eq. reflexivity. Qed.

Lemma search_for_view (self : Sonnet) (query : str) (h : store) :
  view (snd (search_for self query h)) (fst (search_for self query h))
  = (sonnet_title self,
     find_spans (lower (sonnet_title self)) (lower query),
     matching_lines (lower query) 1 (sonnet_lines self),
     len (find_spans (lower (sonnet_title self)) (lower query))
     + total_spans (matching_lines (lower query) 1 (sonnet_lines self)))
  /\ extends h (snd (search_for self query h)).
Proof.
  rewrite search_for_eq. cbv zeta.
  set (q := lower query).
  set (h1 := h ++ [find_spans (lower (sonnet_title self)) q]).
  destruct (search_lines_spec q (sonnet_lines self) 1 [] h1)
    as (new & Hres & Hext & Hfresh & Hview).
  simpl in Hres. unfold view. cbn [fst snd title title_spans line_matches matches].
  assert (contents (search_lines q 1 (sonnet_lines self) [] h1).2 (length h)
          = find_spans (lower (sonnet_title self)) q) as Htitle.
  { rewrite (extends_contents h1); [|done|unfold h1; rewrite length_app; simpl; lia].
    apply contents_alloc. }
  rewrite line_span_count_view, Htitle, Hres, Hview.
  split; [reflexivity|].
  eapply extends_trans; [|exact Hext]. by eexists.
Qed.

Lemma matching_lines_elem (q : str) (lines : list str) :
  forall start idx line_raw found,
    In (idx, line_raw, found) (matching_lines q start lines)
    <-> start <= idx
        /\ lines !! Z.to_nat (idx - start) = Some line_raw
        /\ found = find_spans (lower line_raw) q
        /\ found <> [].
Proof.
  induction lines as [|l lines IH]; intros start idx line_raw found.
  - simpl. split; [done|]. by intros (_ & ? & _).
  - rewrite matching_lines_cons.
    assert (In (idx, line_raw, found) (matching_lines q (start + 1) lines)
            <-> start < idx
                /\ lines !! Z.to_nat (idx - start - 1) = Some line_raw
                /\ found = find_spans (lower line_raw) q /\ found <> []) as IH'.
    { rewrite IH. replace (idx - (start + 1)) with (idx - start - 1) by lia.
      split; intros (? & ? & ? & ?); (split; [lia|done]). }
    assert (forall k, start < k ->
              (l :: lines) !! Z.to_nat (k - start) = lines !! Z.to_nat (k - start - 1))
      as Htail.
    { intros k Hk. replace (Z.to_nat (k - start)) with (S (Z.to_nat (k - start - 1))) by lia.
      reflexivity. }
    destruct (find_spans (lower l) q) as [|sp rest] eqn:Hl.
    + rewrite IH'. split.
      * intros (Hlt & Hlk & Hf & Hne). rewrite Htail by done. split; [lia|done].
      * intros (Hle & Hlk & Hf & Hne).
        destruct (decide (idx = start)) as [->|Hneq].
        -- replace (start - start) with 0 in Hlk by lia. simpl in Hlk.
           injection Hlk as <-. congruence.
        -- rewrite Htail in Hlk by lia. split; [lia|done].
    + simpl. rewrite IH'. split.
      * intros [Heq|(Hlt & Hlk & Hf & Hne)].
        -- injection Heq as <- <- <-. replace (start - start) with 0 by lia.
           simpl. split; [lia|]. split; [done|]. split; [by rewrite Hl|done].
        -- rewrite Htail by done. split; [lia|done].
      * intros (Hle & Hlk & Hf & Hne).
        destruct (decide (idx = start)) as [->|Hneq].
        -- left. replace (start - start) with 0 in Hlk by lia. simpl in Hlk.
           injection Hlk as <-. congruence.
        -- right. rewrite Htail in Hlk by lia. split; [lia|done].
Qed.

Lemma StronglySorted_unmap {A B : Type} (R : A -> A -> Prop) (S : B -> B -> Prop)
    (f : A -> B) (l : list A) :
  (forall x y, S (f x) (f y) -> R x y) ->
  StronglySorted S (map f l) -> StronglySorted R l.
Proof.
  intros Hf. induction l as [|x l IH]; simpl; intros Hs; [constructor|].
  apply StronglySorted_inv in Hs as [Hs Hall]. constructor; [by apply IH|].
  apply List.Forall_forall. intros y Hy. apply Hf.
  rewrite List.Forall_forall in Hall. apply Hall. by apply in_map.
Qed.

Lemma matching_lines_sorted (q : str) (lines : list str) :
  forall start,
    StronglySorted (fun a b : Z * str * list span => fst (fst a) < fst (fst b))
      (matching_lines q start lines).
Proof.
  induction lines as [|l lines IH]; intros start; [constructor|].
  rewrite matching_lines_cons.
  destruct (find_spans (lower l) q) as [|sp rest]; [apply IH|].
  constructor; [apply IH|].
  apply List.Forall_forall. intros [[idx line_raw] found] Hin.
  apply matching_lines_elem in Hin as (Hidx & _). simpl. lia.
Qed.

(** C8: [search_for] lowercases the query and finds it in the lowercased
    title and in each lowercased line; the result holds one line match,
    with the 1-based number and the text as given, for exactly the lines
    with at least one span, and [matches] is the number of all spans.  For
    the title "Sonnet", the lines "a rose", "rose red" and the query "rose":
    two matches, one line match per line, no title span.  The query "rOSe"
    is found in the title "Roses" and in the line "A ROSE", which is kept
    as it is. *)
Theorem search_for_result (self : Sonnet) (query : str) (h : store) :
  let q := lower query in
  let r := fst (search_for self query h) in
  let h' := snd (search_for self query h) in
  title r = sonnet_title self
  /\ contents h' (title_spans r) = find_spans (lower (sonnet_title self)) q
  /\ (forall idx line_raw found,
        In (idx, line_raw, found) (map (line_view h') (line_matches r))
        <-> 1 <= idx
            /\ sonnet_lines self !! Z.to_nat (idx - 1) = Some line_raw
            /\ found = find_spans (lower line_raw) q
            /\ found <> [])
  /\ StronglySorted (fun a b => line_no a < line_no b) (line_matches r)
  /\ matches r
     = len (contents h' (title_spans r))
       + total_spans (map (line_view h') (line_matches r))
  /\ extends h h'
  /\ view (snd (search_for rose_sonnet (lit "rose") []))
          (fst (search_for rose_sonnet (lit "rose") []))
     = (lit "Sonnet", [],
        [(1, lit "a rose", [(2, 6)]); (2, lit "rose red", [(0, 4)])], 2)
  /\ view (snd (search_for capital_sonnet (lit "rOSe") []))
          (fst (search_for capital_sonnet (lit "rOSe") []))
     = (lit "Roses", [(0, 4)], [(1, lit "A ROSE", [(2, 6)])], 2).
Proof.
  intros q r h'.
  destruct (search_for_view self query h) as [Hview Hext].
  fold r h' in Hview, Hext. unfold view in Hview.
  injection Hview as Ht Hts Hlines Hm.
  split; [done|]. split; [done|].
  split; [intros idx line_raw found; rewrite Hlines; apply matching_lines_elem|].
  split.
  { apply StronglySorted_unmap
      with (f := line_view h') (S := fun a b => fst (fst a) < fst (fst b)); [done|].
    rewrite Hlines. apply matching_lines_sorted. }
  split; [by rewrite Hm, Hts, Hlines|].
  split; [done|]. split; vm_compute; reflexivity.
Qed.

(** ** The result combiner *)

Lemma combine_with_eq (self other : SearchResult) (h : store) :
  combine_with self other h
  = let h1 := h ++ [sorted span_leb (contents h (title_spans self)
                                     ++ contents h (title_spans other))] in
    let res := merge_lines (line_matches other) (lines_dict (line_matches self)) h1 in
    (mkSearchResult (title self) (length h)
       (sorted line_no_leb (dict_values (fst res)))
       (matches self + matches other),
     snd res).
Proof.
  unfold combine_with, bind, alloc, read, ret. cbv zeta.
  by destruct (merge_lines _ _ _).
Qed.

Lemma combine_with_matches (self other : SearchResult) (h : store) :
  matches (fst (combine_with self other h)) = matches self + matches other.
Proof. by rewrite combine_with_eq. Qed.

(** C1, on the results [found_a] and [found_b] of two searches in the
    sonnet with the line "ab": both satisfy the invariant, and so does
    their combination, but after the combination step [found_a], which the
    caller still holds, does not: its [matches] is 1 and its line match has
    two spans.  A second combination of the same two results does not
    satisfy the invariant either. *)
Theorem combine_with_breaks_count :
  let a := fst found_a in
  let b := fst found_b in
  let h := snd found_b in
  let c := fst combined_ab in
  let h' := snd combined_ab in
  count_ok h a /\ count_ok h b /\ count_ok h' c
  /\ ~ count_ok h' a
  /\ view h' a = (lit "t", [], [(1, lit "ab", [(0, 1); (1, 2)])], 1)
  /\ ~ count_ok (snd (combine_with a b h')) (fst (combine_with a b h')).
Proof.
  vm_compute. repeat split; try reflexivity; intros H; discriminate H.
Qed.

(** C3, on the same results: [combine_with] leaves the title spans of both
    inputs and the line matches of the argument as they were, but the span
    list of the receiver's line match is extended in place: [found_a] is
    observed with the spans (0,1) before the call and with (0,1), (1,2)
    after it. *)
Theorem combine_with_mutates_receiver :
  let a := fst found_a in
  let b := fst found_b in
  let h := snd found_b in
  let h' := snd combined_ab in
  view h a = (lit "t", [], [(1, lit "ab", [(0, 1)])], 1)
  /\ view h' a = (lit "t", [], [(1, lit "ab", [(0, 1); (1, 2)])], 1)
  /\ view h' a <> view h a
  /\ view h' b = view h b.
Proof.
  vm_compute. repeat split; try reflexivity. intros H; discriminate H.
Qed.

(** ** The fold of the query driver *)

(** C2 as stated fails: under AND, when the new result has no match, the
    cumulative result gets [matches = 0] but its line match still has its
    span. *)
Lemma and_fold_spans_not_reset :
  ~ (forall (combined r : SearchResult) (h : store),
       ~ (0 < matches combined /\ 0 < matches r) ->
       let c' := fst (fold_result (lit "AND") combined r h) in
       let h' := snd (fold_result (lit "AND") combined r h) in
       matches c' = 0
       /\ contents h' (title_spans c') = []
       /\ Forall (fun lm => contents h' (spans lm) = []) (line_matches c')).
Proof.
  intros H.
  specialize (H (fst found_a) (fst found_z) (snd found_z)).
  vm_compute in H.
  destruct H as (_ & _ & H); [intros [_ Hz]; discriminate Hz|].
  inversion H as [|lm lms Hlm Hlms]. discriminate Hlm.
Qed.

(** C2, amended: under AND, when both the cumulative result and the new
    result have matches the cumulative result becomes their combination;
    otherwise only its [matches] is set to 0: the store, its title spans
    and its line matches with their spans stay as they were. *)
Theorem and_fold (combined r : SearchResult) (h : store) :
  (0 < matches combined /\ 0 < matches r ->
     fold_result (lit "AND") combined r h = combine_with combined r h)
  /\ (~ (0 < matches combined /\ 0 < matches r) ->
     let c' := fst (fold_result (lit "AND") combined r h) in
     let h' := snd (fold_result (lit "AND") combined r h) in
     matches c' = 0 /\ h' = h
     /\ view h' c'
        = (title combined, contents h (title_spans combined),
           map (line_view h) (line_matches combined), 0)).
Proof.
  unfold fold_result.
  destruct (decide (lit "AND" = lit "AND")) as [_|Hne]; [|done].
  destruct (Z.ltb_spec 0 (matches combined)), (Z.ltb_spec 0 (matches r)); simpl;
    (split; [intros [? ?]; (reflexivity || lia)|]);
    intros Hnot; try (exfalso; apply Hnot; split; assumption);
    repeat split.
Qed.

Lemma and_fold_witness :
  fold_result (lit "AND") (fst found_a) (fst found_b) (snd found_b)
  = combine_with (fst found_a) (fst found_b) (snd found_b)
  /\ view (snd (fold_result (lit "AND") (fst found_a) (fst found_z) (snd found_z)))
          (fst (fold_result (lit "AND") (fst found_a) (fst found_z) (snd found_z)))
     = (lit "t", [], [(1, lit "ab", [(0, 1)])], 0).
Proof.
  split.
  - apply (proj1 (and_fold (fst found_a) (fst found_b) (snd found_b))).
    vm_compute. split; reflexivity.
  - apply (proj2 (and_fold (fst found_a) (fst found_z) (snd found_z))).
    vm_compute. intros [_ Hz]. discriminate Hz.
Defined.

Lemma total_spans_nonneg (ls : list (Z * str * list span)) : 0 <= total_spans ls.
Proof.
  unfold total_spans.
  assert (forall acc, 0 <= acc -> 0 <= fold_left (fun acc l => acc + len (snd l)) ls acc) as H.
  { induction ls as [|l ls IH]; intros acc Hacc; simpl; [done|].
    apply IH. pose proof (len_nonneg (snd l)). lia. }
  by apply H.
Qed.

Lemma search_for_matches (s : Sonnet) (word : str) (h : store) :
  matches (fst (search_for s word h)) = word_matches s word.
Proof.
  unfold word_matches.
  destruct (search_for_view s word h) as [H1 _].
  destruct (search_for_view s word []) as [H2 _].
  unfold view in H1, H2. injection H1 as _ _ _ ->. by injection H2 as _ _ _ ->.
Qed.

Lemma word_matches_nonneg (s : Sonnet) (word : str) : 0 <= word_matches s word.
Proof.
  unfold word_matches.
  destruct (search_for_view s word []) as [H _].
  unfold view in H. injection H as _ _ _ ->.
  pose proof (len_nonneg (find_spans (lower (sonnet_title s)) (lower word))).
  pose proof (total_spans_nonneg (matching_lines (lower word) 1 (sonnet_lines s))).
  lia.
Qed.

Lemma search_all_cons (s : Sonnet) (rest : list Sonnet) (word : str) (h : store) :
  search_all (s :: rest) word h
  = (fst (search_for s word h)
       :: fst (search_all rest word (snd (search_for s word h))),
     snd (search_all rest word (snd (search_for s word h)))).
Proof.
  cbn [search_all]. unfold bind, ret.
  destruct (search_for s word h) as [r h1]. simpl.
  by destruct (search_all rest word h1).
Qed.

Lemma search_all_matches (sonnets : list Sonnet) (word : str) :
  forall h,
    map matches (fst (search_all sonnets word h))
    = map (fun s => word_matches s word) sonnets.
Proof.
  induction sonnets as [|s rest IH]; intros h; [reflexivity|].
  rewrite search_all_cons. simpl. by rewrite search_for_matches, IH.
Qed.

Lemma search_all_length (sonnets : list Sonnet) (word : str) (h : store) :
  length (fst (search_all sonnets word h)) = length sonnets.
Proof.
  rewrite <- (length_map matches), search_all_matches. apply length_map.
Qed.

Lemma fold_result_matches (search_mode : str) (c r : SearchResult) (h : store) :
  matches (fst (fold_result search_mode c r h))
  = fold_matches search_mode (matches c) (matches r).
Proof.
  unfold fold_result, fold_matches.
  destruct (decide (search_mode = lit "AND")).
  - destruct ((0 <? matches c) && (0 <? matches r)); [apply combine_with_matches|done].
  - destruct (decide (search_mode = lit "OR")); [apply combine_with_matches|done].
Qed.

Lemma fold_results_matches (search_mode : str) (indices : list nat)
    (results : list SearchResult) :
  forall (combined : list SearchResult) (h : store),
    NoDup indices ->
    Forall (fun i => (i < length combined)%nat) indices ->
    length results = length combined ->
    let out := fst (fold_results search_mode indices results combined h) in
    length out = length combined
    /\ forall j c r,
         combined !! j = Some c -> results !! j = Some r ->
         matches <$> out !! j
         = Some (if decide (j ∈ indices)
                 then fold_matches search_mode (matches c) (matches r)
                 else matches c).
Proof.
  induction indices as [|i rest IH]; intros combined h Hnd Hin Hlen; cbn zeta.
  - simpl. split; [done|]. intros j c r Hc Hr. by rewrite Hc.
  - apply NoDup_cons in Hnd as [Hi Hnd]. apply Forall_cons in Hin as [Hlt Hin].
    destruct (lookup_lt_is_Some_2 combined i Hlt) as [ci Hci].
    destruct (lookup_lt_is_Some_2 results i) as [ri Hri]; [lia|].
    cbn [fold_results]. rewrite Hci, Hri. unfold bind.
    pose proof (fold_result_matches search_mode ci ri h) as Hm.
    destruct (fold_result search_mode ci ri h) as [updated h1]. simpl in Hm.
    destruct (IH (<[i:=updated]> combined) h1) as [Hl Hj].
    { done. }
    { eapply Forall_impl; [exact Hin|]. intros k. by rewrite length_insert. }
    { by rewrite length_insert. }
    rewrite length_insert in Hl. split; [done|].
    intros j c r Hc Hr.
    destruct (decide (j = i)) as [->|Hne].
    + rewrite (Hj i updated r); [|by apply list_lookup_insert_eq|done].
      rewrite decide_False by done. rewrite decide_True by left.
      rewrite Hci in Hc. rewrite Hri in Hr. congruence.
    + rewrite (Hj j c r); [|by rewrite list_lookup_insert_ne|done].
      f_equal. destruct (decide (j ∈ rest)).
      * rewrite decide_True; [done|by right].
      * rewrite decide_False; [done|]. intros Hel. apply elem_of_cons in Hel as [?|?]; done.
Qed.

Lemma elem_of_seq_0 (n j : nat) : j ∈ seq 0 n <-> (j < n)%nat.
Proof. rewrite list_elem_of_In, in_seq. lia. Qed.

Lemma word_loop_cons (search_mode : str) (sonnets : list Sonnet) (word : str)
    (rest : list str) (combined : list SearchResult) (h : store) :
  word_loop search_mode sonnets (word :: rest) combined h
  = let found := search_all sonnets word h in
    let folded :=
      match combined with
      | [] => found
      | _ :: _ =>
          fold_results search_mode (seq 0 (length combined)) (fst found) combined
            (snd found)
      end in
    word_loop search_mode sonnets rest (fst folded) (snd folded).
Proof.
  cbn [word_loop]. unfold bind, ret. cbv zeta.
  destruct (search_all sonnets word h) as [results h1].
  destruct combined as [|c combined].
  - reflexivity.
  - cbn [fst snd]. by destruct (fold_results _ _ _ _ _).
Qed.

Lemma word_loop_matches (search_mode : str) (sonnets : list Sonnet) (words : list str) :
  forall (combined : list SearchResult) (h : store),
    length combined = length sonnets ->
    let out := fst (word_loop search_mode sonnets words combined h) in
    length out = length sonnets
    /\ forall j s c,
         sonnets !! j = Some s -> combined !! j = Some c ->
         matches <$> out !! j
         = Some (fold_left (fold_matches search_mode)
                   (map (word_matches s) words) (matches c)).
Proof.
  induction words as [|word rest IH]; intros combined h Hlen; cbn zeta.
  - simpl. split; [done|]. intros j s c _ Hc. by rewrite Hc.
  - rewrite word_loop_cons. cbv zeta.
    pose proof (search_all_length sonnets word h) as Hfl.
    pose proof (search_all_matches sonnets word h) as Hfm.
    destruct (search_all sonnets word h) as [results h1]. cbn [fst snd] in *.
    destruct combined as [|c0 combined'].
    + destruct sonnets; [|done].
      destruct (IH results h1 Hfl) as [Hl Hj]. split; [done|].
      intros j s c Hs. done.
    + set (combined := c0 :: combined') in *.
      destruct (fold_results_matches search_mode (seq 0 (length combined)) results
                  combined h1) as [Hl Hj].
      { apply NoDup_ListNoDup, seq_NoDup. }
      { apply Forall_forall. intros k. by rewrite elem_of_seq_0. }
      { lia. }
      destruct (fold_results _ _ _ _ _) as [folded h2]. cbn [fst snd] in *.
      destruct (IH folded h2) as [Hl' Hj']; [lia|]. split; [done|].
      intros j s c Hs Hc.
      assert (exists r, results !! j = Some r /\ matches r = word_matches s word)
        as (r & Hr & Hrm).
      { assert (map matches results !! j = Some (word_matches s word)) as Hmj.
        { rewrite Hfm. by rewrite list_lookup_fmap, Hs. }
        rewrite list_lookup_fmap in Hmj.
        destruct (results !! j) as [r|]; [|done].
        exists r. split; [done|]. by injection Hmj. }
      specialize (Hj j c r Hc Hr).
      rewrite decide_True in Hj
        by (apply elem_of_seq_0; by eapply lookup_lt_Some).
      destruct (folded !! j) as [f|] eqn:Hf; [|done].
      rewrite (Hj' j s f Hs Hf). simpl. injection Hj as ->. by rewrite Hrm.
Qed.

Lemma evaluate_query_first (search_mode : str) (sonnets : list Sonnet)
    (word : str) (h : store) :
  evaluate_query search_mode sonnets [word] h = search_all sonnets word h.
Proof.
  unfold evaluate_query. rewrite word_loop_cons. simpl.
  by destruct (search_all sonnets word h).
Qed.

Lemma evaluate_query_matches (search_mode : str) (sonnets : list Sonnet)
    (word : str) (words : list str) (h : store) (j : nat) (s : Sonnet) :
  sonnets !! j = Some s ->
  exists r,
    fst (evaluate_query search_mode sonnets (word :: words) h) !! j = Some r
    /\ matches r
       = fold_left (fold_matches search_mode) (map (word_matches s) words)
           (word_matches s word).
Proof.
  intros Hs. unfold evaluate_query. rewrite word_loop_cons. cbv zeta.
  pose proof (search_all_length sonnets word h) as Hfl.
  pose proof (search_all_matches sonnets word h) as Hfm.
  destruct (search_all sonnets word h) as [results h1]. cbn [fst snd] in *.
  destruct (word_loop_matches search_mode sonnets words results h1 Hfl) as [Hl Hj].
  assert (exists r, results !! j = Some r /\ matches r = word_matches s word)
    as (r & Hr & Hrm).
  { assert (map matches results !! j = Some (word_matches s word)) as Hmj.
    { rewrite Hfm. by rewrite list_lookup_fmap, Hs. }
    rewrite list_lookup_fmap in Hmj.
    destruct (results !! j) as [r|]; [|done].
    exists r. split; [done|]. by injection Hmj. }
  specialize (Hj j s r Hs Hr).
  destruct ((word_loop search_mode sonnets words results h1).1 !! j) as [f|]; [|done].
  exists f. split; [done|]. injection Hj as ->. by rewrite Hrm.
Qed.

Lemma all_positive_under_and (ms : list Z) :
  forall acc,
    0 < fold_left (fold_matches (lit "AND")) ms acc
    <-> 0 < acc /\ Forall (fun m => 0 < m) ms.
Proof.
  induction ms as [|m ms IH]; intros acc; simpl.
  - split; [by intros ?; split|by intros [? _]].
  - rewrite IH, Forall_cons. unfold fold_matches.
    destruct (decide (lit "AND" = lit "AND")); [|done].
    destruct (Z.ltb_spec 0 acc), (Z.ltb_spec 0 m); simpl; intuition lia.
Qed.

Lemma fold_matches_OR (acc m : Z) : fold_matches (lit "OR") acc m = acc + m.
Proof. reflexivity. Qed.

Lemma some_positive_under_or (ms : list Z) :
  forall acc,
    0 <= acc -> Forall (fun m => 0 <= m) ms ->
    0 < fold_left (fold_matches (lit "OR")) ms acc
    <-> 0 < acc \/ Exists (fun m => 0 < m) ms.
Proof.
  induction ms as [|m ms IH]; intros acc Hacc Hms; cbn [fold_left].
  - rewrite Exists_nil. tauto.
  - apply Forall_cons in Hms as [Hm Hms]. simpl in Hm.
    rewrite fold_matches_OR.
    rewrite IH; [|lia|exact Hms]. rewrite Exists_cons. intuition lia.
Qed.

(** C4: for a query of one or more words the first word seeds the
    cumulative results with its search results, and the further words are
    folded in from left to right; for each document the final [matches] is
    positive under AND iff every word on its own has matches in the
    document, and under OR iff at least one word has. *)
Theorem fold_query (search_mode : str) (sonnets : list Sonnet) (word : str)
    (words : list str) (h : store) (j : nat) (s : Sonnet) :
  sonnets !! j = Some s ->
  evaluate_query search_mode sonnets [word] h = search_all sonnets word h
  /\ exists r,
       fst (evaluate_query search_mode sonnets (word :: words) h) !! j = Some r
       /\ matches r
          = fold_left (fold_matches search_mode) (map (word_matches s) words)
              (word_matches s word)
       /\ (search_mode = lit "AND" ->
           (0 < matches r
            <-> forall w, In w (word :: words) -> 0 < word_matches s w))
       /\ (search_mode = lit "OR" ->
           (0 < matches r
            <-> exists w, In w (word :: words) /\ 0 < word_matches s w)).
Proof.
  intros Hs. split; [apply evaluate_query_first|].
  destruct (evaluate_query_matches search_mode sonnets word words h j s Hs)
    as (r & Hr & Hm).
  exists r. split; [done|]. split; [done|]. rewrite Hm. split.
  - intros ->. rewrite all_positive_under_and.
    rewrite List.Forall_forall. split.
    + intros [H0 Hall] w [<-|Hw]; [done|].
      apply Hall. by apply in_map.
    + intros Hall. split; [apply Hall; by left|].
      intros m Hin. apply in_map_iff in Hin as (w & <- & Hw).
      apply Hall. by right.
  - intros ->. rewrite some_positive_under_or.
    + rewrite List.Exists_exists. split.
      * intros [H0|(m & Hin & Hpos)].
        -- exists word. split; [by left|done].
        -- apply in_map_iff in Hin as (w & <- & Hw).
           exists w. split; [by right|done].
      * intros (w & [<-|Hw] & Hpos); [by left|].
        right. exists (word_matches s w). split; [by apply in_map|done].
    + apply word_matches_nonneg.
    + apply List.Forall_forall. intros m Hin.
      apply in_map_iff in Hin as (w & <- & _). apply word_matches_nonneg.
Qed.

Lemma fold_query_witness :
  exists r,
    fst (evaluate_query (lit "AND") [rose_sonnet] [lit "rose"; lit "red"] []) !! 0%nat
    = Some r
    /\ matches r
       = fold_left (fold_matches (lit "AND"))
           (map (word_matches rose_sonnet) [lit "red"])
           (word_matches rose_sonnet (lit "rose"))
    /\ (lit "AND" = lit "AND" ->
        (0 < matches r
         <-> forall w, In w [lit "rose"; lit "red"] -> 0 < word_matches rose_sonnet w))
    /\ (lit "AND" = lit "OR" ->
        (0 < matches r
         <-> exists w, In w [lit "rose"; lit "red"] /\ 0 < word_matches rose_sonnet w)).
Proof.
  apply (fold_query (lit "AND") [rose_sonnet] (lit "rose") [lit "red"] [] 0%nat
           rose_sonnet).
  reflexivity.
Defined.

(** ** Display *)

Lemma print_matched_imap (matched : list SearchResult) (highlight : bool)
    (total : Z) (highlight_mode : str) (h : store) :
  forall idx,
    print_matched idx matched highlight total highlight_mode h
    = concat (imap (fun i r =>
                      SearchResult_print r (idx + Z.of_nat i) highlight total
                        highlight_mode h)
                matched).
Proof.
  induction matched as [|r rest IH]; intros idx; [reflexivity|].
  cbn [print_matched]. rewrite imap_cons. cbn [concat].
  rewrite Z.add_0_r. f_equal. rewrite IH. f_equal.
  apply imap_ext. intros i x _. simpl. f_equal. lia.
Qed.

(** C9: [print_results] first prints the summary with the number of results
    with [matches > 0] and the number of all results; then it prints the
    results with [matches > 0], and no others, in the order of the corpus,
    numbered 1, 2, ... among themselves.  For the corpus of the documents A
    and B and the query "be" under OR the summary starts with
    "1 out of 2 sonnets contain", A is printed as number 1 of 1 with its two
    lines, and B is not printed. *)
Theorem print_results_display (query : str) (results : list SearchResult)
    (highlight : bool) (highlight_mode : str) (query_time_ms : option str)
    (h : store) :
  let matched := filter (fun r => 0 < matches r) results in
  print_results query results highlight highlight_mode query_time_ms h
  = (summary_line (len matched) (len results) query
     ++ match query_time_ms with
        | Some t => lit " Your query took " ++ t ++ lit "ms."
        | None => []
        end)
    :: concat (imap (fun i r =>
                       SearchResult_print r (1 + Z.of_nat i) highlight (len matched)
                         highlight_mode h)
                 matched)
  /\ (forall r, In r matched <-> In r results /\ 0 < matches r)
  /\ (forall r, In r results -> matches r = 0 -> ~ In r matched)
  /\ sublist matched results
  /\ (forall r idx total,
        head (SearchResult_print r idx highlight total highlight_mode h)
        = Some (header_line idx total
                  (if highlight
                   then ansi_highlight (title r) (contents h (title_spans r))
                          highlight_mode
                   else title r)))
  /\ fst (run_query (mkConfiguration false (lit "OR") (lit "DEFAULT"))
            [doc_A; doc_B] (lit "be") (lit "0.05") [])
     = [summary_line 1 2 (lit "be") ++ lit " Your query took 0.05ms.";
        header_line 1 1 (lit "A");
        lit "  [ 1] to be";
        lit "  [ 2] or not to be"]
  /\ map matches (fst (evaluate_query (lit "OR") [doc_A; doc_B] [lit "be"] []))
     = [2; 0].
Proof.
  intros matched.
  split.
  { unfold print_results. fold matched. rewrite print_matched_imap.
    unfold summary_line. destruct query_time_ms as [t|]; [reflexivity|].
    by rewrite app_nil_r. }
  split.
  { intros r. unfold matched. rewrite <- !list_elem_of_In, list_elem_of_filter. tauto. }
  split.
  { intros r _ H0 Hin. unfold matched in Hin.
    apply list_elem_of_In, list_elem_of_filter in Hin as [Hpos _]. lia. }
  split; [apply sublist_filter|].
  split; [reflexivity|].
  split; vm_compute; reflexivity.
Qed.

(** ** The combiner on results that share no span list *)

Lemma line_span_count_shift (h : store) (lms : list LineMatch) :
  forall acc,
    fold_left (fun acc lm => acc + len (contents h (spans lm))) lms acc
    = acc + line_span_count h lms.
Proof.
  unfold line_span_count.
  induction lms as [|lm lms IH]; intros acc; simpl; [lia|].
  rewrite IH, (IH (0 + _)). lia.
Qed.

Lemma line_span_count_cons (h : store) (lm : LineMatch) (lms : list LineMatch) :
  line_span_count h (lm :: lms)
  = len (contents h (spans lm)) + line_span_count h lms.
Proof.
  unfold line_span_count at 1. simpl. by rewrite line_span_count_shift.
Qed.

Lemma line_span_count_app (h : store) (l k : list LineMatch) :
  line_span_count h (l ++ k) = line_span_count h l + line_span_count h k.
Proof.
  induction l as [|lm l IH]; [reflexivity|].
  simpl. rewrite !line_span_count_cons, IH. lia.
Qed.

Lemma line_span_count_perm (h : store) (l k : list LineMatch) :
  Permutation l k -> line_span_count h l = line_span_count h k.
Proof.
  induction 1 as [|x l k _ IH|x y l|l k m _ IH1 _ IH2].
  - reflexivity.
  - by rewrite !line_span_count_cons, IH.
  - rewrite !line_span_count_cons. lia.
  - congruence.
Qed.

Lemma contents_insert (h : store) (p : nat) (x : list span) :
  (p < length h)%nat -> contents (<[p:=x]> h) p = x.
Proof. intros Hp. unfold contents. by rewrite list_lookup_insert_eq. Qed.

Lemma contents_insert_ne (h : store) (p q : nat) (x : list span) :
  p <> q -> contents (<[p:=x]> h) q = contents h q.
Proof. intros Hne. unfold contents. by rewrite list_lookup_insert_ne. Qed.

Lemma line_span_count_insert_notin (h : store) (p : nat) (x : list span)
    (lms : list LineMatch) :
  ~ In p (map spans lms) ->
  line_span_count (<[p:=x]> h) lms = line_span_count h lms.
Proof.
  induction lms as [|lm lms IH]; intros Hnot; [reflexivity|].
  rewrite !line_span_count_cons. simpl in Hnot.
  rewrite contents_insert_ne by (intros Heq; apply Hnot; left; by symmetry).
  rewrite IH by tauto. reflexivity.
Qed.

Lemma line_span_count_insert_in (h : store) (mine : LineMatch) (x : list span)
    (lms : list LineMatch) :
  NoDup (map spans lms) -> In mine lms -> (spans mine < length h)%nat ->
  line_span_count (<[spans mine:=x]> h) lms
  = line_span_count h lms - len (contents h (spans mine)) + len x.
Proof.
  induction lms as [|lm lms IH]; intros Hnd Hin Hlt; [done|].
  simpl in Hnd. apply NoDup_cons in Hnd as [Hlm Hnd].
  rewrite !line_span_count_cons.
  destruct (decide (spans lm = spans mine)) as [Heq|Hne].
  - rewrite Heq, contents_insert by done.
    rewrite line_span_count_insert_notin; [lia|].
    rewrite <- Heq. by rewrite <- list_elem_of_In.
  - destruct Hin as [->|Hin]; [done|].
    rewrite contents_insert_ne by done. rewrite IH by done. lia.
Qed.

Lemma dict_get_values (d : dict) (k : Z) (v : LineMatch) :
  dict_get d k = Some v -> In v (dict_values d).
Proof.
  induction d as [|[k' v'] d IH]; simpl; [done|].
  destruct (decide (k' = k)); [intros [= ->]; by left|]. intros H. right. by apply IH.
Qed.

Lemma dict_set_new (d : dict) (k : Z) (v : LineMatch) :
  dict_get d k = None -> dict_set d k v = d ++ [(k, v)].
Proof.
  induction d as [|[k' v'] d IH]; simpl; [done|].
  destruct (decide (k' = k)); [done|]. intros H. by rewrite IH.
Qed.

Lemma dict_get_None (d : dict) (k : Z) :
  dict_get d k = None <-> ~ In k (map fst d).
Proof.
  induction d as [|[k' v'] d IH]; simpl; [tauto|].
  destruct (decide (k' = k)); [split; [done|tauto]|]. rewrite IH. tauto.
Qed.

Lemma LineMatch_copy_eq (lm : LineMatch) : LineMatch_copy lm = lm.
Proof. by destruct lm. Qed.

Lemma merge_lines_cons (lm : LineMatch) (rest : list LineMatch) (d : dict) (h : store) :
  merge_lines (lm :: rest) d h
  = match dict_get d (line_no lm) with
    | Some mine =>
        merge_lines rest d
          (<[spans mine := contents h (spans mine) ++ contents h (spans lm)]> h)
    | None => merge_lines rest (d ++ [(line_no lm, lm)]) h
    end.
Proof.
  cbn [merge_lines]. destruct (dict_get d (line_no lm)) eqn:Hget.
  - reflexivity.
  - by rewrite dict_set_new, LineMatch_copy_eq.
Qed.

Lemma dict_values_app (d : dict) (k : Z) (v : LineMatch) :
  dict_values (d ++ [(k, v)]) = dict_values d ++ [v].
Proof. unfold dict_values. by rewrite map_app. Qed.

Lemma line_span_count_nil (h : store) : line_span_count h [] = 0.
Proof. reflexivity. Qed.

(** The loop over the other result's line matches adds the spans of each of
    them to the total, when no span list is shared. *)
Lemma merge_lines_total (others : list LineMatch) :
  forall (d : dict) (h : store),
    NoDup (map spans (dict_values d) ++ map spans others) ->
    Forall (fun p => (p < length h)%nat)
      (map spans (dict_values d) ++ map spans others) ->
    line_span_count (snd (merge_lines others d h)) (dict_values (fst (merge_lines others d h)))
    = line_span_count h (dict_values d) + line_span_count h others
    /\ length (snd (merge_lines others d h)) = length h.
Proof.
  induction others as [|lm rest IH]; intros d h Hnd Hvalid.
  - simpl. rewrite line_span_count_nil. split; [lia|done].
  - rewrite merge_lines_cons.
    assert (NoDup (map spans (dict_values d) ++ map spans rest)) as Hnd'.
    { simpl in Hnd. apply NoDup_app in Hnd as (H1 & H2 & H3).
      apply NoDup_cons in H3 as [_ H3]. apply NoDup_app.
      split; [done|]. split; [|done].
      intros p Hp Hp'. apply (H2 p Hp). by right. }
    assert (~ In (spans lm) (map spans rest)) as Hlm_rest.
    { simpl in Hnd. apply NoDup_app in Hnd as (_ & _ & H3).
      apply NoDup_cons in H3 as [H3 _]. by rewrite <- list_elem_of_In. }
    apply Forall_app in Hvalid as [Hvd Hvo]. simpl in Hvo.
    apply Forall_cons in Hvo as [Hvlm Hvo].
    rewrite line_span_count_cons.
    destruct (dict_get d (line_no lm)) as [mine|] eqn:Hget.
    + pose proof (dict_get_values d _ _ Hget) as Hmine.
      assert (spans mine < length h)%nat as Hlt.
      { rewrite Forall_forall in Hvd. apply Hvd, list_elem_of_In.
        by apply in_map. }
      set (h1 := <[spans mine := contents h (spans mine) ++ contents h (spans lm)]> h).
      destruct (IH d h1 Hnd') as [Hsum Hlen].
      { unfold h1. rewrite length_insert. by apply Forall_app. }
      rewrite Hsum, Hlen. unfold h1. rewrite length_insert. split; [|done].
      rewrite line_span_count_insert_in; [|by apply NoDup_app in Hnd' as (? & _)|done|done].
      rewrite line_span_count_insert_notin.
      * rewrite len_app. lia.
      * apply NoDup_app in Hnd' as (_ & H2 & _).
        intros Hin. apply (H2 (spans mine)); [|by apply list_elem_of_In].
        apply list_elem_of_In. by apply in_map.
    + destruct (IH (d ++ [(line_no lm, lm)]) h) as [Hsum Hlen].
      { rewrite dict_values_app, map_app. simpl. rewrite <- app_assoc. exact Hnd. }
      { rewrite dict_values_app, map_app. apply Forall_app. split; [|done].
        apply Forall_app. split; [done|]. by constructor. }
      rewrite Hsum, Hlen. split; [|done].
      rewrite dict_values_app, line_span_count_app.
      rewrite (line_span_count_cons h lm []), line_span_count_nil. lia.
Qed.

Lemma dict_get_app (d : dict) (k0 k : Z) (v0 : LineMatch) :
  dict_get (d ++ [(k0, v0)]) k
  = match dict_get d k with
    | Some v => Some v
    | None => if decide (k0 = k) then Some v0 else None
    end.
Proof.
  induction d as [|[k' v'] d IH]; simpl; [done|].
  by destruct (decide (k' = k)).
Qed.

(** The loop changes no list other than those of the entries it finds. *)
Lemma merge_lines_frame (others : list LineMatch) (A : list nat) :
  forall (d : dict) (h : store),
    (forall v, In v (dict_values d) -> In (spans v) A) ->
    (forall lm, In lm others -> In (spans lm) A) ->
    forall p, ~ In p A ->
      contents (snd (merge_lines others d h)) p = contents h p.
Proof.
  induction others as [|lm rest IH]; intros d h Hd Ho p Hp; [reflexivity|].
  rewrite merge_lines_cons.
  destruct (dict_get d (line_no lm)) as [mine|] eqn:Hget.
  - rewrite IH; [|done|by intros x Hx; apply Ho; right|done].
    apply contents_insert_ne. intros <-. apply Hp, Hd.
    by eapply dict_get_values.
  - apply IH; [|by intros x Hx; apply Ho; right|done].
    intros v Hv. rewrite dict_values_app in Hv.
    apply in_app_or in Hv as [Hv|[<-|[]]]; [by apply Hd|apply Ho; by left].
Qed.

(** With distinct line numbers in the other result, only lists of the
    entries that were in the dict at the start are changed. *)
Lemma merge_lines_frame_receiver (others : list LineMatch) (A : list nat) :
  forall (d : dict) (h : store),
    NoDup (map line_no others) ->
    (forall k v, dict_get d k = Some v -> In k (map line_no others) -> In (spans v) A) ->
    forall p, ~ In p A ->
      contents (snd (merge_lines others d h)) p = contents h p.
Proof.
  induction others as [|lm rest IH]; intros d h Hnd Hd p Hp; [reflexivity|].
  rewrite merge_lines_cons. simpl in Hnd. apply NoDup_cons in Hnd as [Hlm Hnd].
  destruct (dict_get d (line_no lm)) as [mine|] eqn:Hget.
  - rewrite IH; [|done|by intros k v Hk Hin; apply (Hd k v Hk); right|done].
    apply contents_insert_ne. intros <-. apply Hp, (Hd (line_no lm) mine Hget).
    by left.
  - apply IH; [done| |done].
    intros k v Hk Hin. rewrite dict_get_app in Hk.
    destruct (dict_get d k) as [v'|] eqn:Hdk.
    + injection Hk as <-. apply (Hd k v' Hdk). by right.
    + destruct (decide (line_no lm = k)) as [<-|]; [|done].
      exfalso. apply Hlm. by apply list_elem_of_In.
Qed.

Lemma lines_dict_fold (lms : list LineMatch) :
  forall d : dict,
    NoDup (map fst d ++ map line_no lms) ->
    fold_left (fun d lm => dict_set d (line_no lm) lm) lms d
    = d ++ map (fun lm => (line_no lm, lm)) lms.
Proof.
  induction lms as [|lm lms IH]; intros d Hnd; simpl; [by rewrite app_nil_r|].
  rewrite dict_set_new.
  - rewrite IH; [by rewrite <- app_assoc|].
    rewrite map_app. simpl. by rewrite <- app_assoc.
  - apply dict_get_None. simpl in Hnd. apply NoDup_app in Hnd as (_ & H & _).
    intros Hin. apply (H (line_no lm)); [by apply list_elem_of_In|by left].
Qed.

Lemma lines_dict_values (lms : list LineMatch) :
  NoDup (map line_no lms) -> dict_values (lines_dict lms) = lms.
Proof.
  intros Hnd. unfold lines_dict. rewrite lines_dict_fold by done.
  unfold dict_values. simpl. rewrite map_map. simpl. apply map_id.
Qed.

Lemma line_span_count_extends (h h' : store) (lms : list LineMatch) :
  extends h h' -> Forall (fun p => (p < length h)%nat) (map spans lms) ->
  line_span_count h' lms = line_span_count h lms.
Proof.
  intros Hext. induction lms as [|lm lms IH]; intros Hv; [reflexivity|].
  simpl in Hv. apply Forall_cons in Hv as [Hlm Hv].
  rewrite !line_span_count_cons, IH by done.
  by rewrite (extends_contents h h').
Qed.

(** The value returned by [combine_with] satisfies the invariant when both
    inputs satisfy it and share no span list. *)
Lemma combine_with_count_ok (a b : SearchResult) (h : store) :
  separate h a b -> count_ok h a -> count_ok h b ->
  count_ok (snd (combine_with a b h)) (fst (combine_with a b h)).
Proof.
  intros (Hln & Hnd & Hvalid) Ha Hb. rewrite combine_with_eq. cbv zeta.
  set (T := sorted span_leb (contents h (title_spans a) ++ contents h (title_spans b))).
  set (h1 := h ++ [T]).
  assert (extends h h1) as Hext by (by eexists).
  assert (Forall (fun p => (p < length h1)%nat)
            (map spans (line_matches a) ++ map spans (line_matches b))) as Hvalid1.
  { eapply Forall_impl; [exact Hvalid|]. intros p Hp. simpl in Hp.
    apply extends_length in Hext. lia. }
  pose proof (lines_dict_values _ Hln) as Hvals.
  destruct (merge_lines_total (line_matches b) (lines_dict (line_matches a)) h1)
    as [Hsum Hlen]; [by rewrite Hvals|by rewrite Hvals|].
  assert (contents (merge_lines (line_matches b) (lines_dict (line_matches a)) h1).2
            (length h) = T) as Htitle.
  { rewrite (merge_lines_frame (line_matches b)
               (map spans (line_matches a) ++ map spans (line_matches b))).
    - apply contents_alloc.
    - intros v Hv. rewrite Hvals in Hv. apply in_or_app. left. by apply in_map.
    - intros lm Hlm. apply in_or_app. right. by apply in_map.
    - intros Hin. rewrite List.Forall_forall in Hvalid. apply Hvalid in Hin. lia. }
  unfold count_ok. cbn [fst snd matches title_spans line_matches].
  rewrite Htitle.
  rewrite <- (line_span_count_perm _ _ _ (sorted_perm line_no_leb _)).
  rewrite Hsum, Hvals.
  apply Forall_app in Hvalid as [Hva Hvb].
  rewrite !(line_span_count_extends h h1) by done.
  unfold T, len. rewrite <- (Permutation_length (sorted_perm span_leb _)), length_app.
  unfold count_ok, len in Ha, Hb. lia.
Qed.

(** [combine_with] changes no list of the store other than the span lists
    of the receiver's line matches, when the line numbers of each input are
    distinct. *)
Lemma combine_with_frame (a b : SearchResult) (h : store) (p : nat) :
  NoDup (map line_no (line_matches a)) ->
  NoDup (map line_no (line_matches b)) ->
  (p < length h)%nat -> ~ In p (map spans (line_matches a)) ->
  contents (snd (combine_with a b h)) p = contents h p.
Proof.
  intros Hla Hlb Hp Hnot. rewrite combine_with_eq. cbv zeta. cbn [snd].
  rewrite (merge_lines_frame_receiver (line_matches b) (map spans (line_matches a)));
    [|done| |done].
  - apply (extends_contents h); [by eexists|done].
  - intros k v Hk _. apply in_map.
    apply dict_get_values in Hk. by rewrite lines_dict_values in Hk.
Qed.

(** * Further properties *)

(** ** More on the span finder *)

Lemma find_spans_nonempty (t pattern : str) :
  find_spans t pattern <> [] <-> pattern <> [] /\ occurs_in t pattern.
Proof.
  split.
  - intros Hne. destruct (find_spans t pattern) as [|[s e] l] eqn:Hf; [done|].
    assert (In (s, e) (find_spans t pattern)) as Hin by (rewrite Hf; by left).
    apply find_spans_elem in Hin as (Hp & _ & _ & Hocc).
    split; [done|]. by exists s.
  - intros (Hp & i & Hocc) Hnil.
    pose proof (occurs_at_bounds _ _ _ Hocc) as Hb.
    assert (In (i, i + len pattern) (find_spans t pattern)) as Hin.
    { apply find_spans_elem. split; [done|]. split; [lia|done]. }
    by rewrite Hnil in Hin.
Qed.

(** X1: [find_spans] returns at most one span per offset it tries, so at
    most [len text - len pattern + 1] spans; a non-empty text searched for
    itself gives the one span of the whole text. *)
Theorem find_spans_count (t pattern : str) :
  len (find_spans t pattern) <= Z.max 0 (len t - len pattern + 1)
  /\ (t <> [] -> find_spans t t = [(0, len t)]).
Proof.
  split.
  - destruct (decide (pattern = [])) as [->|Hne].
    + simpl. unfold len at 1. simpl. lia.
    + rewrite find_spans_closed by done. unfold len at 1.
      rewrite length_map.
      pose proof (length_filter (matches_at t pattern)
                    (range (len t - len pattern + 1))) as Hle.
      unfold range in Hle at 2. rewrite length_map, length_seq in Hle. lia.
  - intros Hne. rewrite find_spans_closed by done.
    replace (len t - len t + 1) with 1 by lia.
    change (range 1) with [0]. rewrite filter_cons, filter_nil.
    destruct (decide (matches_at t t 0)) as [_|Hno]; [reflexivity|].
    exfalso. apply Hno. unfold matches_at.
    pose proof (len_nonneg t).
    apply slice_occurs_at; [lia|lia|].
    exists [], []. by rewrite app_nil_r.
Qed.

Lemma find_spans_count_witness : find_spans (lit "rose") (lit "rose") = [(0, 4)].
Proof.
  apply (proj2 (find_spans_count (lit "rose") (lit "rose"))). discriminate.
Defined.

(** ** More on the document matcher *)

Lemma lower_char_idem (c : ascii) : lower_char (lower_char c) = lower_char c.
Proof. destruct c as [[] [] [] [] [] [] [] []]; reflexivity. Qed.

Lemma lower_idem (s : str) : lower (lower s) = lower s.
Proof.
  unfold lower. rewrite map_map. apply map_ext. intros c. apply lower_char_idem.
Qed.

Lemma find_spans_span_in (t raw pattern : str) :
  len t = len raw -> Forall (span_in raw) (find_spans t pattern).
Proof.
  intros Hlen. apply List.Forall_forall. intros [s e] Hin.
  apply find_spans_elem in Hin as (Hp & Hs & -> & _).
  assert (0 < len pattern).
  { pose proof (len_nonneg pattern). destruct (decide (len pattern = 0)) as [H0|]; [|lia].
    by apply len_nil_iff in H0. }
  unfold span_in. simpl. lia.
Qed.

(** X2: the spans of a search result are offsets into the lowercase forms
    of the texts the result holds: every title span marks a non-empty part
    of the lowercase title, and every span of a line match a non-empty
    part of the lowercase text of that line match.  The result holds the
    texts with their capitals; where lowercasing keeps the length of such
    a text, the spans mark non-empty parts of the text itself. *)
Theorem search_for_spans_in_text (self : Sonnet) (query : str) (h : store) :
  let r := fst (search_for self query h) in
  let h' := snd (search_for self query h) in
  Forall (span_in (lower (title r))) (contents h' (title_spans r))
  /\ Forall (fun lm => Forall (span_in (lower (text lm))) (contents h' (spans lm)))
       (line_matches r)
  /\ (len (lower (title r)) = len (title r) ->
      Forall (span_in (title r)) (contents h' (title_spans r)))
  /\ (forall lm,
        In lm (line_matches r) -> len (lower (text lm)) = len (text lm) ->
        Forall (span_in (text lm)) (contents h' (spans lm))).
Proof.
  intros r h'.
  destruct (search_for_view self query h) as [Hview _].
  fold r h' in Hview. unfold view in Hview. injection Hview as Ht Hts Hlines _.
  assert (forall lm, In lm (line_matches r) ->
            exists line_raw,
              text lm = line_raw
              /\ contents h' (spans lm) = find_spans (lower line_raw) (lower query))
    as Hline.
  { intros lm Hlm.
    assert (In (line_view h' lm) (matching_lines (lower query) 1 (sonnet_lines self)))
      as Hin by (rewrite <- Hlines; by apply in_map).
    unfold line_view in Hin. apply matching_lines_elem in Hin as (_ & _ & Hs & _).
    by exists (text lm). }
  split; [rewrite Hts, Ht; by apply find_spans_span_in|]. split; [|split].
  - apply List.Forall_forall. intros lm Hlm.
    destruct (Hline lm Hlm) as (line_raw & -> & ->). by apply find_spans_span_in.
  - intros Hlen. rewrite Hts. rewrite Ht in *. by apply find_spans_span_in.
  - intros lm Hlm Hlen.
    destruct (Hline lm Hlm) as (line_raw & Htext & ->). rewrite Htext in *.
    by apply find_spans_span_in.
Qed.

Lemma search_for_spans_in_text_witness :
  Forall (span_in (title (fst (search_for capital_sonnet (lit "ROSE") []))))
    (contents (snd (search_for capital_sonnet (lit "ROSE") []))
       (title_spans (fst (search_for capital_sonnet (lit "ROSE") [])))).
Proof.
  pose proof (search_for_spans_in_text capital_sonnet (lit "ROSE") []) as H.
  cbv zeta in H. destruct H as (_ & _ & H & _). apply H. reflexivity.
Defined.

Lemma matching_lines_no_pattern (start : Z) (lines : list str) :
  matching_lines [] start lines = [].
Proof.
  revert start. induction lines as [|l lines IH]; intros start; [reflexivity|].
  rewrite matching_lines_cons. simpl. apply IH.
Qed.

(** X3: a query that is empty finds nothing: no title span, no line match,
    [matches = 0]. *)
Theorem search_for_empty_query (self : Sonnet) (h : store) :
  view (snd (search_for self [] h)) (fst (search_for self [] h))
  = (sonnet_title self, [], [], 0).
Proof.
  destruct (search_for_view self [] h) as [Hview _]. rewrite Hview.
  change (lower []) with (@nil ascii).
  by rewrite matching_lines_no_pattern.
Qed.

(** X4: the search ignores the case of the query: two queries with the same
    lowercase form give the same result and the same store, and so do a
    query and its lowercase form. *)
Theorem search_for_ignores_query_case (self : Sonnet) (q1 q2 : str) (h : store) :
  (lower q1 = lower q2 -> search_for self q1 h = search_for self q2 h)
  /\ search_for self (lower q1) h = search_for self q1 h.
Proof.
  assert (forall a b, lower a = lower b -> search_for self a h = search_for self b h) as H.
  { intros a b Hab. rewrite !search_for_eq. cbv zeta. by rewrite Hab. }
  split; [apply H|]. apply H, lower_idem.
Qed.

Lemma search_for_ignores_query_case_witness :
  search_for rose_sonnet (lit "ROSE") [] = search_for rose_sonnet (lit "Rose") [].
Proof.
  apply (proj1 (search_for_ignores_query_case rose_sonnet (lit "ROSE") (lit "Rose") [])).
  reflexivity.
Defined.

Lemma total_spans_cons (l : Z * str * list span) (ls : list (Z * str * list span)) :
  total_spans (l :: ls) = len (snd l) + total_spans ls.
Proof.
  assert (forall k acc,
            fold_left (fun (acc : Z) (x : Z * str * list span) => acc + len (snd x))
              k acc
            = acc + total_spans k) as Hshift.
  { unfold total_spans. induction k as [|x k IH]; intros acc; simpl; [lia|].
    rewrite IH, (IH (0 + _)). lia. }
  unfold total_spans at 1. simpl. by rewrite Hshift.
Qed.

Lemma matching_lines_nonempty (q : str) (lines : list str) (start : Z) :
  matching_lines q start lines <> []
  <-> exists line_raw, In line_raw lines /\ find_spans (lower line_raw) q <> [].
Proof.
  split.
  - intros Hne. destruct (matching_lines q start lines) as [|[[idx l] found] ls] eqn:Hm;
      [done|].
    assert (In (idx, l, found) (matching_lines q start lines)) as Hin
      by (rewrite Hm; by left).
    apply matching_lines_elem in Hin as (_ & Hl & -> & Hf).
    exists l. split; [|done]. apply list_elem_of_In. by eapply list_elem_of_lookup_2.
  - intros (l & Hin & Hf) Hnil.
    apply list_elem_of_In, list_elem_of_lookup in Hin as [n Hn].
    assert (In (start + Z.of_nat n, l, find_spans (lower l) q)
              (matching_lines q start lines)) as H.
    { apply matching_lines_elem. split; [lia|].
      replace (Z.to_nat (start + Z.of_nat n - start)) with n by lia. done. }
    by rewrite Hnil in H.
Qed.

(** X5: a sonnet has matches for a query exactly when the query is not
    empty and occurs, case ignored, in the title or in one of the lines. *)
Theorem search_for_matches_iff (self : Sonnet) (query : str) (h : store) :
  0 < matches (fst (search_for self query h))
  <-> query <> []
      /\ (occurs_in (lower (sonnet_title self)) (lower query)
          \/ exists line_raw,
               In line_raw (sonnet_lines self)
               /\ occurs_in (lower line_raw) (lower query)).
Proof.
  destruct (search_for_view self query h) as [Hview _].
  unfold view in Hview. injection Hview as _ _ _ ->.
  set (q := lower query).
  assert (query <> [] <-> q <> []) as Hq.
  { unfold q, lower. destruct query; simpl; split; intros H; done. }
  pose proof (len_nonneg (find_spans (lower (sonnet_title self)) q)) as Ht.
  pose proof (total_spans_nonneg (matching_lines q 1 (sonnet_lines self))) as Hl.
  assert (0 < len (find_spans (lower (sonnet_title self)) q)
          <-> find_spans (lower (sonnet_title self)) q <> []) as Ht'.
  { split.
    - intros Hpos Hnil. rewrite Hnil in Hpos. unfold len in Hpos. simpl in Hpos. lia.
    - intros Hne. assert (len (find_spans (lower (sonnet_title self)) q) <> 0)
        by (by rewrite len_nil_iff). lia. }
  assert (0 < total_spans (matching_lines q 1 (sonnet_lines self))
          <-> matching_lines q 1 (sonnet_lines self) <> []) as Hl'.
  { destruct (matching_lines q 1 (sonnet_lines self)) as [|[[idx l] found] ls] eqn:Hm.
    - unfold total_spans. simpl. split; [lia|done].
    - split; [done|]. intros _.
      assert (In (idx, l, found) (matching_lines q 1 (sonnet_lines self))) as Hin
        by (rewrite Hm; by left).
      apply matching_lines_elem in Hin as (_ & _ & _ & Hf).
      rewrite total_spans_cons. simpl.
      pose proof (total_spans_nonneg ls). pose proof (len_nonneg found).
      assert (len found <> 0) by (by rewrite len_nil_iff). lia. }
  rewrite matching_lines_nonempty in Hl'. rewrite find_spans_nonempty in Ht'.
  split.
  - intros Hpos.
    assert (0 < len (find_spans (lower (sonnet_title self)) q)
            \/ 0 < total_spans (matching_lines q 1 (sonnet_lines self))) as [H|H] by lia.
    + apply Ht' in H as [Hp Hocc]. split; [by apply Hq|by left].
    + apply Hl' in H as (l & Hin & Hf). apply find_spans_nonempty in Hf as [Hp Hocc].
      split; [by apply Hq|]. right. by exists l.
  - intros [Hp [Hocc|(l & Hin & Hocc)]].
    + assert (0 < len (find_spans (lower (sonnet_title self)) q)); [|lia].
      apply Ht'. split; [by apply Hq|done].
    + assert (0 < total_spans (matching_lines q 1 (sonnet_lines self))); [|lia].
      apply Hl'. exists l. split; [done|]. apply find_spans_nonempty.
      split; [by apply Hq|done].
Qed.

Lemma search_lines_locs (q : str) (lines : list str) :
  forall idx acc h,
    exists new,
      fst (search_lines q idx lines acc h) = acc ++ new
      /\ StronglySorted lt (map spans new)
      /\ Forall (fun p => (length h <= p < length (snd (search_lines q idx lines acc h)))%nat)
           (map spans new).
Proof.
  induction lines as [|line_raw rest IH]; intros idx acc h.
  - exists []. simpl. rewrite app_nil_r. repeat split; constructor.
  - rewrite search_lines_cons.
    destruct (find_spans (lower line_raw) q) as [|sp found].
    + destruct (IH (idx + 1) acc (h ++ [[]])) as (new & Hres & Hsort & Hrange).
      exists new. split; [done|]. split; [done|].
      eapply Forall_impl; [exact Hrange|]. intros p. simpl.
      rewrite length_app. simpl. lia.
    + set (lm := mkLineMatch idx line_raw (length h)).
      set (h1 := h ++ [sp :: found]).
      destruct (IH (idx + 1) (acc ++ [lm]) h1) as (new & Hres & Hsort & Hrange).
      assert (length h1 = S (length h)) as Hlen1
        by (unfold h1; rewrite length_app; simpl; lia).
      exists (lm :: new). split; [by rewrite Hres, <- app_assoc|].
      split.
      * simpl. constructor; [done|].
        eapply Forall_impl; [exact Hrange|]. intros p. simpl. lia.
      * simpl. constructor.
        -- destruct (search_lines_spec q rest (idx + 1) (acc ++ [lm]) h1)
             as (_ & _ & Hext & _).
           apply extends_length in Hext. lia.
        -- eapply Forall_impl; [exact Hrange|]. intros p. simpl. lia.
Qed.

Lemma StronglySorted_lt_NoDup (l : list nat) : StronglySorted lt l -> NoDup l.
Proof.
  induction 1 as [|x l Hs IH Hall]; constructor; [|done].
  intros Hin. rewrite Forall_forall in Hall. specialize (Hall x Hin). lia.
Qed.

Lemma StronglySorted_Zlt_NoDup (l : list Z) : StronglySorted Z.lt l -> NoDup l.
Proof.
  induction 1 as [|x l Hs IH Hall]; constructor; [|done].
  intros Hin. rewrite Forall_forall in Hall. specialize (Hall x Hin). lia.
Qed.

Lemma search_for_line_nos (self : Sonnet) (query : str) (h : store) :
  NoDup (map line_no (line_matches (fst (search_for self query h)))).
Proof.
  destruct (search_for_view self query h) as [Hview _].
  unfold view in Hview. injection Hview as _ _ Hlines _.
  apply StronglySorted_Zlt_NoDup.
  apply StronglySorted_map with (R := fun a b => line_no a < line_no b); [done|].
  apply StronglySorted_unmap
    with (f := line_view (snd (search_for self query h)))
         (S := fun a b => fst (fst a) < fst (fst b)); [done|].
  rewrite Hlines. apply matching_lines_sorted.
Qed.

Lemma fresh_search_locs (self : Sonnet) (query : str) (h : store) :
  let r := fst (search_for self query h) in
  let h' := snd (search_for self query h) in
  Forall (fun p => (length h <= p < length h')%nat) (locs r)
  /\ NoDup (locs r)
  /\ NoDup (map line_no (line_matches r)).
Proof.
  intros r h'.
  split; [|split; [|apply search_for_line_nos]];
    unfold r, h', locs; rewrite search_for_eq; cbv zeta;
    cbn [fst snd title_spans line_matches];
    set (q := lower query);
    set (h1 := h ++ [find_spans (lower (sonnet_title self)) q]);
    destruct (search_lines_locs q (sonnet_lines self) 1 [] h1)
      as (new & Hres & Hsort & Hrange);
    destruct (search_lines_spec q (sonnet_lines self) 1 [] h1) as (_ & _ & Hext & _);
    apply extends_length in Hext;
    assert (length h1 = S (length h)) as Hlen1
      by (unfold h1; rewrite length_app; simpl; lia);
    simpl in Hres; rewrite Hres.
  - constructor; [lia|].
    eapply Forall_impl; [exact Hrange|]. intros p. simpl. lia.
  - constructor; [|by apply StronglySorted_lt_NoDup].
    intros Hin. rewrite Forall_forall in Hrange. specialize (Hrange _ Hin).
    simpl in Hrange. lia.
Qed.

(** X6: [search_for] puts what it finds into new lists: every list the
    result refers to was created by the call, no list is referred to
    twice, and the line numbers of the line matches are distinct. *)
Theorem search_for_fresh (self : Sonnet) (query : str) (h : store) :
  let r := fst (search_for self query h) in
  let h' := snd (search_for self query h) in
  Forall (fun p => (length h <= p < length h')%nat) (locs r)
  /\ NoDup (locs r)
  /\ NoDup (map line_no (line_matches r)).
Proof. apply fresh_search_locs. Qed.

Lemma dict_set_values (d : dict) (k : Z) (v x : LineMatch) :
  In x (dict_values (dict_set d k v)) -> x = v \/ In x (dict_values d).
Proof.
  induction d as [|[k' v'] d IH]; simpl.
  - intros [<-|[]]. by left.
  - destruct (decide (k' = k)); simpl.
    + intros [<-|Hx]; [by left|right; by right].
    + intros [<-|Hx]; [right; by left|].
      destruct (IH Hx) as [->|Hin]; [by left|right; by right].
Qed.

Lemma dict_get_values_lines (lms : list LineMatch) (x : LineMatch) :
  In x (dict_values (lines_dict lms)) -> In x lms.
Proof.
  unfold lines_dict.
  assert (forall d, In x (dict_values (fold_left (fun d lm => dict_set d (line_no lm) lm) lms d))
                    -> In x (dict_values d) \/ In x lms) as H.
  { induction lms as [|lm lms IH]; intros d Hx; simpl in *; [by left|].
    destruct (IH _ Hx) as [Hd|Hl]; [|right; by right].
    apply dict_set_values in Hd as [->|Hd]; [right; by left|by left]. }
  intros Hx. destruct (H [] Hx) as [[]|Hl]. done.
Qed.

(** ** More on the result combiner *)

Ltac by_decide := apply (bool_decide_unpack _); vm_compute; exact I.

Lemma combine_with_title_contents (a b : SearchResult) (h : store) :
  Forall (fun p => (p < length h)%nat)
    (map spans (line_matches a) ++ map spans (line_matches b)) ->
  contents (snd (combine_with a b h)) (title_spans (fst (combine_with a b h)))
  = sorted span_leb (contents h (title_spans a) ++ contents h (title_spans b)).
Proof.
  intros Hvalid. rewrite combine_with_eq. cbv zeta. cbn [fst snd title_spans].
  rewrite (merge_lines_frame (line_matches b)
             (map spans (line_matches a) ++ map spans (line_matches b))).
  - apply contents_alloc.
  - intros v Hv. apply dict_get_values_lines in Hv.
    apply in_or_app. left. by apply in_map.
  - intros lm Hlm. apply in_or_app. right. by apply in_map.
  - intros Hin. rewrite List.Forall_forall in Hvalid. apply Hvalid in Hin. lia.
Qed.

Lemma dict_set_keys (d : dict) (k : Z) (v : LineMatch) :
  map fst (dict_set d k v)
  = if decide (k ∈ map fst d) then map fst d else map fst d ++ [k].
Proof.
  induction d as [|[k' v'] d IH]; cbn [dict_set map fst].
  - rewrite decide_False; [done|]. apply not_elem_of_nil.
  - destruct (decide (k' = k)) as [->|Hne]; cbn [map fst].
    + by rewrite decide_True by left.
    + rewrite IH. destruct (decide (k ∈ map fst d)).
      * by rewrite decide_True by (by right).
      * rewrite decide_False; [done|]. intros Hel.
        apply elem_of_cons in Hel as [?|?]; done.
Qed.

Lemma dict_set_keys_NoDup (d : dict) (k : Z) (v : LineMatch) :
  NoDup (map fst d) -> NoDup (map fst (dict_set d k v)).
Proof.
  intros Hnd. rewrite dict_set_keys. destruct (decide (k ∈ map fst d)); [done|].
  apply NoDup_app. split; [done|]. split; [|apply NoDup_singleton].
  intros x Hx Hk. by apply list_elem_of_singleton in Hk as ->.
Qed.

Lemma dict_set_keys_elem (d : dict) (k : Z) (v : LineMatch) (n : Z) :
  In n (map fst (dict_set d k v)) <-> n = k \/ In n (map fst d).
Proof.
  rewrite dict_set_keys. destruct (decide (k ∈ map fst d)) as [Hin|Hnot].
  - apply list_elem_of_In in Hin. split; [by right|]. intros [->|?]; done.
  - rewrite in_app_iff. simpl. split; [intros [?|[<-|[]]]; auto|].
    intros [->|?]; auto.
Qed.

Lemma dict_set_keyed (d : dict) (v : LineMatch) :
  keyed d -> keyed (dict_set d (line_no v) v).
Proof.
  unfold keyed. induction 1 as [|[k' v'] d Hkv Hd IH]; simpl.
  - by repeat constructor.
  - destruct (decide (k' = line_no v)) as [->|Hne]; by constructor.
Qed.

Lemma lines_dict_keys (lms : list LineMatch) :
  NoDup (map fst (lines_dict lms)) /\ keyed (lines_dict lms)
  /\ forall n, In n (map fst (lines_dict lms)) <-> In n (map line_no lms).
Proof.
  unfold lines_dict.
  assert (forall d, NoDup (map fst d) -> keyed d ->
            let d' := fold_left (fun d lm => dict_set d (line_no lm) lm) lms d in
            NoDup (map fst d') /\ keyed d'
            /\ forall n, In n (map fst d') <-> In n (map fst d) \/ In n (map line_no lms))
    as H.
  { induction lms as [|lm lms IH]; intros d Hnd Hk; cbn zeta; simpl.
    - split; [done|]. split; [done|]. intros n. tauto.
    - destruct (IH (dict_set d (line_no lm) lm)) as (H1 & H2 & H3);
        [by apply dict_set_keys_NoDup|by apply dict_set_keyed|].
      split; [done|]. split; [done|]. intros n. rewrite H3, dict_set_keys_elem.
      split; [intros [[->|?]|?]; auto|intros [?|[<-|?]]; auto]. }
  destruct (H []) as (H1 & H2 & H3); [constructor|constructor|].
  split; [done|]. split; [done|]. intros n. rewrite H3. simpl. tauto.
Qed.

Lemma merge_lines_keys (others : list LineMatch) :
  forall (d : dict) (h : store),
    NoDup (map fst d) -> keyed d ->
    let d' := fst (merge_lines others d h) in
    NoDup (map fst d') /\ keyed d'
    /\ forall n, In n (map fst d') <-> In n (map fst d) \/ In n (map line_no others).
Proof.
  induction others as [|lm rest IH]; intros d h Hnd Hk; cbn zeta.
  - simpl. split; [done|]. split; [done|]. intros n. tauto.
  - rewrite merge_lines_cons.
    destruct (dict_get d (line_no lm)) as [mine|] eqn:Hget.
    + destruct (IH d (<[spans mine := contents h (spans mine) ++ contents h (spans lm)]> h))
        as (H1 & H2 & H3); [done|done|].
      split; [done|]. split; [done|]. intros n. rewrite H3. simpl.
      assert (In (line_no lm) (map fst d)) as Hin.
      { destruct (decide (line_no lm ∈ map fst d)) as [Hel|Hnot];
          [by apply list_elem_of_In|].
        rewrite list_elem_of_In in Hnot. apply dict_get_None in Hnot. congruence. }
      split; [intros [?|?]; auto|intros [?|[<-|?]]; auto].
    + rewrite <- (dict_set_new d (line_no lm) lm Hget).
      destruct (IH (dict_set d (line_no lm) lm) h) as (H1 & H2 & H3);
        [by apply dict_set_keys_NoDup|by apply dict_set_keyed|].
      split; [done|]. split; [done|]. intros n. rewrite H3, dict_set_keys_elem. simpl.
      split; [intros [[->|?]|?]; auto|intros [?|[<-|?]]; auto].
Qed.

Lemma keyed_line_nos (d : dict) : keyed d -> map line_no (dict_values d) = map fst d.
Proof.
  unfold keyed, dict_values. induction 1 as [|kv d Hkv Hd IH]; simpl; [done|].
  by rewrite Hkv, IH.
Qed.

Lemma sorted_line_nos_strict (lms : list LineMatch) :
  NoDup (map line_no lms) ->
  StronglySorted (fun a b => line_no a < line_no b) (sorted line_no_leb lms).
Proof.
  intros Hnd.
  assert (StronglySorted (fun a b => line_no_leb a b = true) (sorted line_no_leb lms))
    as Hs.
  { apply sorted_ordered.
    - intros x y. unfold line_no_leb. lia.
    - intros x y z. unfold line_no_leb. lia. }
  assert (NoDup (map line_no (sorted line_no_leb lms))) as Hnd'.
  { by rewrite <- (sorted_perm line_no_leb lms). }
  induction Hs as [|x l Hs IH Hall]; [constructor|].
  simpl in Hnd'. apply NoDup_cons in Hnd' as [Hx Hnd'].
  constructor; [by apply IH|].
  apply Forall_forall. intros y Hy. rewrite Forall_forall in Hall.
  specialize (Hall y Hy). unfold line_no_leb in Hall.
  assert (line_no y <> line_no x).
  { intros Heq. apply Hx. rewrite <- Heq. by apply list_elem_of_fmap_2. }
  lia.
Qed.

(** X9: the line matches of a combined result are in ascending order of
    their line numbers, no number twice, and the numbers are those of the
    one result together with those of the other. *)
Theorem combine_with_line_numbers (a b : SearchResult) (h : store) :
  let c := fst (combine_with a b h) in
  StronglySorted Z.lt (map line_no (line_matches c))
  /\ forall n,
       In n (map line_no (line_matches c))
       <-> In n (map line_no (line_matches a)) \/ In n (map line_no (line_matches b)).
Proof.
  intros c. unfold c. rewrite combine_with_eq. cbv zeta. cbn [fst line_matches].
  set (h1 := h ++ _).
  destruct (lines_dict_keys (line_matches a)) as (Hnd0 & Hk0 & Hkeys0).
  destruct (merge_lines_keys (line_matches b) (lines_dict (line_matches a)) h1 Hnd0 Hk0)
    as (Hnd & Hk & Hkeys).
  set (d' := fst (merge_lines (line_matches b) (lines_dict (line_matches a)) h1)) in *.
  assert (NoDup (map line_no (dict_values d'))) as Hvals
    by (by rewrite keyed_line_nos).
  split.
  - apply StronglySorted_map with (R := fun x y => line_no x < line_no y); [done|].
    by apply sorted_line_nos_strict.
  - intros n. rewrite <- (Permutation_in' (eq_refl n)
                           (Permutation_map line_no (sorted_perm line_no_leb (dict_values d')))).
    rewrite keyed_line_nos by done. rewrite Hkeys, Hkeys0. tauto.
Qed.

Lemma combine_with_length (a b : SearchResult) (h : store) :
  length (snd (combine_with a b h)) = S (length h).
Proof.
  rewrite combine_with_eq. cbv zeta. cbn [snd].
  set (h1 := h ++ _).
  assert (forall others d h0, length (snd (merge_lines others d h0)) = length h0) as H.
  { induction others as [|lm rest IH]; intros d h0; [done|].
    rewrite merge_lines_cons. destruct (dict_get d (line_no lm)); rewrite IH; [|done].
    apply length_insert. }
  rewrite H. unfold h1. rewrite length_app. simpl. lia.
Qed.

(** X7: when two results share no span list and both satisfy the invariant
    [matches == number of spans], the value [combine_with] returns
    satisfies it too; its [matches] is the sum, its title is the
    receiver's, and its title spans are those of both results in
    ascending order. *)
Theorem combine_with_result (a b : SearchResult) (h : store) :
  separate h a b -> count_ok h a -> count_ok h b ->
  let c := fst (combine_with a b h) in
  let h' := snd (combine_with a b h) in
  count_ok h' c
  /\ matches c = matches a + matches b
  /\ title c = title a
  /\ Permutation (contents h (title_spans a) ++ contents h (title_spans b))
       (contents h' (title_spans c))
  /\ StronglySorted span_le (contents h' (title_spans c)).
Proof.
  intros Hsep Ha Hb c h'.
  split; [by apply combine_with_count_ok|].
  split; [apply combine_with_matches|].
  split; [unfold c; by rewrite combine_with_eq|].
  destruct Hsep as (_ & _ & Hvalid).
  unfold c, h'. rewrite combine_with_title_contents by done.
  split; [apply sorted_perm|apply sorted_spans_ordered].
Qed.

Lemma combine_with_result_witness :
  count_ok (snd combined_ab) (fst combined_ab)
  /\ matches (fst combined_ab) = matches (fst found_a) + matches (fst found_b).
Proof.
  pose proof (combine_with_result (fst found_a) (fst found_b) (snd found_b)) as H.
  cbv zeta in H. destruct H as (H1 & H2 & _).
  - by_decide.
  - by_decide.
  - by_decide.
  - split; [exact H1|exact H2].
Defined.

(** X8: [combine_with] adds one list to the store, the new title spans, and
    changes no list other than the span lists of the receiver's line
    matches: a result whose lists are none of those is observed after the
    call as before. *)
Theorem combine_with_changes_only_receiver (a b r : SearchResult) (h : store) :
  NoDup (map line_no (line_matches a)) ->
  NoDup (map line_no (line_matches b)) ->
  Forall (fun p => (p < length h)%nat /\ ~ In p (map spans (line_matches a))) (locs r) ->
  let h' := snd (combine_with a b h) in
  length h' = S (length h) /\ view h' r = view h r.
Proof.
  intros Hla Hlb Hr h'. split; [apply combine_with_length|].
  unfold locs in Hr. apply Forall_cons in Hr as [[Ht Ht'] Hr].
  unfold view.
  assert (contents h' (title_spans r) = contents h (title_spans r)) as ->
    by (by apply combine_with_frame).
  assert (map (line_view h') (line_matches r) = map (line_view h) (line_matches r)) as ->;
    [|reflexivity].
  apply map_ext_in. intros lm Hlm. unfold line_view. f_equal.
  rewrite List.Forall_forall in Hr.
  destruct (Hr (spans lm)) as [H1 H2]; [by apply in_map|].
  by apply combine_with_frame.
Qed.

Lemma combine_with_changes_only_receiver_witness :
  view (snd combined_ab) (fst found_b) = view (snd found_b) (fst found_b).
Proof.
  apply (combine_with_changes_only_receiver (fst found_a) (fst found_b) (fst found_b)
           (snd found_b)).
  - by_decide.
  - by_decide.
  - vm_compute. repeat constructor; try lia; intros [H|[]]; discriminate H.
Defined.

Lemma find_line_None (lms : list LineMatch) (n : Z) :
  find_line lms n = None <-> ~ In n (map line_no lms).
Proof.
  induction lms as [|lm lms IH]; simpl; [tauto|].
  destruct (decide (line_no lm = n)); [split; [done|tauto]|]. rewrite IH. tauto.
Qed.

Lemma find_line_in (lms : list LineMatch) (v : LineMatch) :
  NoDup (map line_no lms) -> In v lms -> find_line lms (line_no v) = Some v.
Proof.
  induction lms as [|lm lms IH]; simpl; intros Hnd Hin; [done|].
  apply NoDup_cons in Hnd as [Hlm Hnd].
  destruct Hin as [->|Hin]; [by rewrite decide_True|].
  rewrite decide_False; [by apply IH|].
  intros Heq. apply Hlm. rewrite Heq. by apply list_elem_of_fmap_2, list_elem_of_In.
Qed.

Lemma find_line_elem (lms : list LineMatch) (n : Z) (v : LineMatch) :
  find_line lms n = Some v -> In v lms /\ line_no v = n.
Proof.
  induction lms as [|lm lms IH]; simpl; [done|].
  destruct (decide (line_no lm = n)); [intros [= <-]; split; [by left|done]|].
  intros H. destruct (IH H). split; [by right|done].
Qed.

Lemma dict_get_keyed (d : dict) (k : Z) (v : LineMatch) :
  keyed d -> dict_get d k = Some v -> line_no v = k.
Proof.
  unfold keyed. induction 1 as [|[k' v'] d Hkv Hd IH]; simpl; [done|].
  destruct (decide (k' = k)) as [<-|]; [by intros [= <-]|done].
Qed.

Lemma dict_get_value (d : dict) (v : LineMatch) :
  NoDup (map fst d) -> keyed d -> In v (dict_values d) ->
  dict_get d (line_no v) = Some v.
Proof.
  unfold keyed, dict_values.
  induction d as [|[k' v'] d IH]; simpl; intros Hnd Hk Hin; [done|].
  apply NoDup_cons in Hnd as [Hk' Hnd]. apply Forall_cons in Hk as [Hkv Hk].
  simpl in Hkv. destruct Hin as [->|Hin]; [by rewrite decide_True|].
  rewrite decide_False; [by apply IH|].
  intros ->. apply Hk'. rewrite <- (keyed_line_nos d Hk).
  by apply list_elem_of_fmap_2, list_elem_of_In.
Qed.

Lemma NoDup_map_inj {A B : Type} (f : A -> B) (l : list A) (x y : A) :
  NoDup (map f l) -> In x l -> In y l -> f x = f y -> x = y.
Proof.
  induction l as [|z l IH]; simpl; intros Hnd Hx Hy Hxy; [done|].
  apply NoDup_cons in Hnd as [Hz Hnd].
  destruct Hx as [->|Hx], Hy as [->|Hy]; [done| | |by apply IH].
  - exfalso. apply Hz. rewrite Hxy. by apply list_elem_of_fmap_2, list_elem_of_In.
  - exfalso. apply Hz. rewrite <- Hxy. by apply list_elem_of_fmap_2, list_elem_of_In.
Qed.

Lemma NoDup_app_split {A : Type} (l k : list A) (x : A) :
  NoDup (l ++ x :: k) -> NoDup (l ++ k) /\ ~ In x l /\ ~ In x k.
Proof.
  intros H. apply NoDup_app in H as (H1 & H2 & H3).
  apply NoDup_cons in H3 as [Hx H3]. split; [|split].
  - apply NoDup_app. split; [done|]. split; [|done].
    intros y Hy Hy'. apply (H2 y Hy). by right.
  - intros Hin. apply (H2 x); [by apply list_elem_of_In|by left].
  - by rewrite <- list_elem_of_In.
Qed.

Lemma line_spans_insert (h : store) (p : nat) (x : list span)
    (lms : list LineMatch) (n : Z) :
  ~ In p (map spans lms) ->
  line_spans (<[p:=x]> h) lms n = line_spans h lms n.
Proof.
  intros Hp. unfold line_spans. destruct (find_line lms n) as [lm|] eqn:Hf; [|done].
  apply find_line_elem in Hf as [Hin _].
  apply contents_insert_ne. intros ->. apply Hp. by apply in_map.
Qed.

(** What the loop over the other result's line matches leaves in the
    dict: the entries it found there, each extended by the spans of the
    other line match with the same number, and the other line matches
    with a new number. *)
Lemma merge_lines_view (others : list LineMatch) :
  forall (d : dict) (h : store),
    NoDup (map fst d) -> keyed d -> NoDup (map line_no others) ->
    NoDup (map spans (dict_values d) ++ map spans others) ->
    Forall (fun p => (p < length h)%nat)
      (map spans (dict_values d) ++ map spans others) ->
    forall v,
      In v (dict_values (fst (merge_lines others d h))) ->
      (In v (dict_values d)
       /\ contents (snd (merge_lines others d h)) (spans v)
          = contents h (spans v) ++ line_spans h others (line_no v))
      \/ (In v others /\ dict_get d (line_no v) = None
          /\ contents (snd (merge_lines others d h)) (spans v) = contents h (spans v)).
Proof.
  induction others as [|lm rest IH]; intros d h Hkeys Hk Hln Hlocs Hvalid v Hv.
  - left. simpl in *. split; [done|]. unfold line_spans. simpl. by rewrite app_nil_r.
  - rewrite merge_lines_cons in Hv |- *.
    simpl in Hln. apply NoDup_cons in Hln as [Hlm_rest Hln].
    rewrite list_elem_of_In in Hlm_rest.
    cbn [map] in Hlocs, Hvalid.
    destruct (NoDup_app_split _ _ _ Hlocs) as (Hlocs' & Hlm_d & Hlm_r).
    assert (Forall (fun p => (p < length h)%nat)
              (map spans (dict_values d) ++ map spans rest)) as Hvalid'.
    { apply Forall_app in Hvalid as [H1 H2]. apply Forall_cons in H2 as [_ H2].
      by apply Forall_app. }
    destruct (dict_get d (line_no lm)) as [mine|] eqn:Hget.
    + pose proof (dict_get_values d _ _ Hget) as Hmine.
      pose proof (dict_get_keyed d _ _ Hk Hget) as Hmine_no.
      assert (spans mine < length h)%nat as Hmine_lt.
      { apply Forall_app in Hvalid' as [H1 _]. rewrite Forall_forall in H1.
        apply H1, list_elem_of_In. by apply in_map. }
      assert (~ In (spans mine) (map spans rest)) as Hmine_rest.
      { apply NoDup_app in Hlocs' as (_ & H2 & _). intros Hin.
        apply (H2 (spans mine)); apply list_elem_of_In; [by apply in_map|done]. }
      set (h1 := <[spans mine := contents h (spans mine) ++ contents h (spans lm)]> h) in *.
      destruct (IH d h1 Hkeys Hk Hln Hlocs') with (v := v) as [[Hvd Hc]|(Hvr & Hnone & Hc)].
      { unfold h1. by rewrite length_insert. }
      { done. }
      * left. split; [done|]. rewrite Hc. unfold h1 at 2.
        rewrite line_spans_insert by done.
        destruct (decide (spans v = spans mine)) as [Heq|Hne].
        -- assert (v = mine) as ->.
           { apply NoDup_app in Hlocs' as (H1 & _).
             by eapply (NoDup_map_inj spans (dict_values d)). }
           unfold h1. rewrite contents_insert by done.
           unfold line_spans. cbn [find_line].
           rewrite decide_True by done.
           rewrite Hmine_no. rewrite (proj2 (find_line_None rest (line_no lm))) by done.
           by rewrite app_nil_r.
        -- unfold h1. rewrite contents_insert_ne by done. f_equal.
           unfold line_spans at 2. cbn [find_line].
           rewrite decide_False; [done|].
           intros Heq. apply Hne.
           pose proof (dict_get_value d v Hkeys Hk Hvd) as Hgv.
           rewrite <- Heq, Hget in Hgv. by injection Hgv as ->.
      * right. split; [by right|]. split; [done|]. rewrite Hc.
        unfold h1. apply contents_insert_ne. intros Heq. apply Hmine_rest.
        rewrite Heq. by apply in_map.
    + assert (~ In (line_no lm) (map fst d)) as Hnew by (by apply dict_get_None).
      destruct (IH (d ++ [(line_no lm, lm)]) h) with (v := v)
        as [[Hvd Hc]|(Hvr & Hnone & Hc)].
      { rewrite map_app. simpl. apply NoDup_app. split; [done|].
        split; [|apply NoDup_singleton].
        intros x Hx Hx'. apply list_elem_of_singleton in Hx' as ->.
        by apply list_elem_of_In in Hx. }
      { unfold keyed. apply Forall_app. split; [done|]. by repeat constructor. }
      { done. }
      { rewrite dict_values_app, map_app. simpl. by rewrite <- app_assoc. }
      { rewrite dict_values_app, map_app. simpl. by rewrite <- app_assoc. }
      { done. }
      * rewrite dict_values_app in Hvd. apply in_app_or in Hvd as [Hvd|[<-|[]]].
        -- left. split; [done|]. rewrite Hc. f_equal.
           unfold line_spans at 2. cbn [find_line].
           rewrite decide_False; [done|].
           intros Heq. apply Hnew. rewrite Heq, <- (keyed_line_nos d Hk).
           by apply in_map.
        -- right. split; [by left|]. split; [done|]. rewrite Hc.
           unfold line_spans.
           rewrite (proj2 (find_line_None rest (line_no lm))) by done.
           by rewrite app_nil_r.
      * right. split; [by right|]. split; [|done].
        rewrite dict_get_app in Hnone. by destruct (dict_get d (line_no v)).
Qed.

Lemma line_spans_extends (h h' : store) (lms : list LineMatch) (n : Z) :
  extends h h' -> Forall (fun p => (p < length h)%nat) (map spans lms) ->
  line_spans h' lms n = line_spans h lms n.
Proof.
  intros Hext Hvalid. unfold line_spans.
  destruct (find_line lms n) as [lm|] eqn:Hf; [|done].
  apply find_line_elem in Hf as [Hin _].
  apply extends_contents; [done|].
  rewrite List.Forall_forall in Hvalid. apply Hvalid. by apply in_map.
Qed.

(** X10: for two results that share no span list, each line match of the
    combined result is either a line match of the receiver, observed with
    its spans followed by the spans of the other result's line match of the
    same number, if there is one; or a line match of the other result
    whose number the receiver does not have, observed with its spans as
    they were. *)
Theorem combine_with_lines (a b : SearchResult) (h : store) :
  separate h a b -> NoDup (map line_no (line_matches b)) ->
  let c := fst (combine_with a b h) in
  let h' := snd (combine_with a b h) in
  forall lm,
    In lm (line_matches c) ->
    (In lm (line_matches a)
     /\ contents h' (spans lm)
        = contents h (spans lm) ++ line_spans h (line_matches b) (line_no lm))
    \/ (In lm (line_matches b)
        /\ ~ In (line_no lm) (map line_no (line_matches a))
        /\ contents h' (spans lm) = contents h (spans lm)).
Proof.
  intros (Hla & Hlocs & Hvalid) Hlb c h' lm Hlm.
  unfold c, h' in *. rewrite combine_with_eq in Hlm |- *. cbv zeta in Hlm |- *.
  cbn [fst snd line_matches] in Hlm |- *.
  set (h1 := h ++ [sorted span_leb (contents h (title_spans a)
                                    ++ contents h (title_spans b))]) in *.
  assert (extends h h1) as Hext by (by eexists).
  destruct (lines_dict_keys (line_matches a)) as (Hnd0 & Hk0 & Hkeys0).
  pose proof (lines_dict_values _ Hla) as Hvals.
  apply (Permutation_in _ (Permutation_sym (sorted_perm line_no_leb _))) in Hlm.
  apply Forall_app in Hvalid as [Hva Hvb].
  assert (forall x, In x (line_matches a) \/ In x (line_matches b) ->
                    contents h1 (spans x) = contents h (spans x)) as Hsame.
  { intros x Hx. apply extends_contents; [done|].
    rewrite List.Forall_forall in Hva, Hvb.
    destruct Hx as [Hx|Hx]; [apply Hva|apply Hvb]; by apply in_map. }
  destruct (merge_lines_view (line_matches b) (lines_dict (line_matches a)) h1)
    with (v := lm) as [[Hin Hc]|(Hin & Hnone & Hc)].
  - done.
  - done.
  - done.
  - by rewrite Hvals.
  - rewrite Hvals. apply Forall_app. split;
      (eapply Forall_impl; [eassumption|]); intros p Hp; simpl in Hp;
      apply extends_length in Hext; lia.
  - done.
  - rewrite Hvals in Hin. left. split; [done|].
    rewrite Hc, Hsame by (by left). f_equal. by apply line_spans_extends.
  - right. split; [done|]. split.
    + apply dict_get_None in Hnone. intros Hn. apply Hnone. by apply Hkeys0.
    + rewrite Hc. apply Hsame. by right.
Qed.

Lemma combine_with_lines_witness :
  Forall
    (fun lm =>
       (In lm (line_matches (fst found_a))
        /\ contents (snd combined_ab) (spans lm)
           = contents (snd found_b) (spans lm)
             ++ line_spans (snd found_b) (line_matches (fst found_b)) (line_no lm))
       \/ (In lm (line_matches (fst found_b))
           /\ ~ In (line_no lm) (map line_no (line_matches (fst found_a)))
           /\ contents (snd combined_ab) (spans lm) = contents (snd found_b) (spans lm)))
    (line_matches (fst combined_ab)).
Proof.
  apply List.Forall_forall.
  apply (combine_with_lines (fst found_a) (fst found_b) (snd found_b)); by_decide.
Defined.

(** ** More on the renderer *)

Lemma StronglySorted_perm_eq {A : Type} (R : A -> A -> Prop) (l : list A) :
  (forall x y, R x y -> R y x -> x = y) ->
  forall k, StronglySorted R l -> StronglySorted R k -> Permutation l k -> l = k.
Proof.
  intros Hanti. induction l as [|x l IH]; intros k Hl Hk Hperm.
  - symmetry. by apply Permutation_nil.
  - destruct k as [|y k]; [by apply Permutation_sym, Permutation_nil in Hperm|].
    apply StronglySorted_inv in Hl as [Hl Hxl].
    apply StronglySorted_inv in Hk as [Hk Hyk].
    rewrite List.Forall_forall in Hxl, Hyk.
    assert (x = y) as ->.
    { assert (In x (y :: k)) as Hx by (eapply Permutation_in; [exact Hperm|by left]).
      assert (In y (x :: l)) as Hy
        by (eapply Permutation_in; [symmetry; exact Hperm|by left]).
      destruct Hx as [->|Hx]; [done|]. destruct Hy as [->|Hy]; [done|].
      apply Hanti; [by apply Hxl|by apply Hyk]. }
    f_equal. apply IH; [done|done|]. by eapply Permutation_cons_inv.
Qed.

Lemma sorted_spans_perm (l k : list span) :
  Permutation l k -> sorted span_leb l = sorted span_leb k.
Proof.
  intros Hperm. apply (StronglySorted_perm_eq span_le).
  - intros [a b] [c d]. unfold span_le. simpl. intros H1 H2. f_equal; lia.
  - apply sorted_spans_ordered.
  - apply sorted_spans_ordered.
  - by rewrite <- !(sorted_perm span_leb).
Qed.

(** X11: the order in which the spans are given does not matter to the
    renderer: the same spans in another order give the same string. *)
Theorem ansi_highlight_order (t : str) (l k : list span) (highlight_mode : str) :
  Permutation l k ->
  ansi_highlight t l highlight_mode = ansi_highlight t k highlight_mode.
Proof.
  intros Hperm. unfold ansi_highlight.
  destruct l as [|x l], k as [|y k].
  - reflexivity.
  - by apply Permutation_nil in Hperm.
  - by apply Permutation_sym, Permutation_nil in Hperm.
  - by rewrite !highlight_out_runs, (sorted_spans_perm _ _ Hperm).
Qed.

Lemma ansi_highlight_order_witness :
  ansi_highlight (lit "abcdef") [(3, 5); (0, 2)] (lit "GREEN")
  = ansi_highlight (lit "abcdef") [(0, 2); (3, 5)] (lit "GREEN").
Proof.
  apply ansi_highlight_order. apply perm_swap.
Defined.

(** ** More on the query driver *)

Lemma search_for_title (s : Sonnet) (word : str) (h : store) :
  title (fst (search_for s word h)) = sonnet_title s.
Proof. by rewrite search_for_eq. Qed.

Lemma search_all_titles (sonnets : list Sonnet) (word : str) :
  forall h, map title (fst (search_all sonnets word h)) = map sonnet_title sonnets.
Proof.
  induction sonnets as [|s rest IH]; intros h; [reflexivity|].
  rewrite search_all_cons. simpl. by rewrite search_for_title, IH.
Qed.

Lemma fold_result_title (search_mode : str) (c r : SearchResult) (h : store) :
  title (fst (fold_result search_mode c r h)) = title c.
Proof.
  unfold fold_result.
  destruct (decide (search_mode = lit "AND")).
  - destruct ((0 <? matches c) && (0 <? matches r)); [by rewrite combine_with_eq|done].
  - destruct (decide (search_mode = lit "OR")); [by rewrite combine_with_eq|done].
Qed.

Lemma fold_results_titles (search_mode : str) (indices : list nat)
    (results : list SearchResult) :
  forall (combined : list SearchResult) (h : store),
    map title (fst (fold_results search_mode indices results combined h))
    = map title combined.
Proof.
  induction indices as [|i rest IH]; intros combined h; [reflexivity|].
  cbn [fold_results].
  destruct (combined !! i) as [c|] eqn:Hc; [|reflexivity].
  destruct (results !! i) as [r|]; [|reflexivity].
  unfold bind. pose proof (fold_result_title search_mode c r h) as Ht.
  destruct (fold_result search_mode c r h) as [updated h1]. simpl in Ht.
  rewrite IH.
  change (map title (<[i:=updated]> combined)) with (title <$> <[i:=updated]> combined).
  rewrite list_fmap_insert, Ht. apply list_insert_id.
  by rewrite list_lookup_fmap, Hc.
Qed.

Lemma word_loop_titles (search_mode : str) (sonnets : list Sonnet) (words : list str) :
  forall (combined : list SearchResult) (h : store),
    combined = [] \/ map title combined = map sonnet_title sonnets ->
    words <> [] ->
    map title (fst (word_loop search_mode sonnets words combined h))
    = map sonnet_title sonnets.
Proof.
  induction words as [|word rest IH]; intros combined h Hc Hne; [done|].
  rewrite word_loop_cons. cbv zeta.
  pose proof (search_all_titles sonnets word h) as Hft.
  destruct (search_all sonnets word h) as [results h1]. cbn [fst snd] in *.
  set (folded := match combined with
                 | [] => (results, h1)
                 | _ :: _ =>
                     fold_results search_mode (seq 0 (length combined)) results
                       combined h1
                 end).
  assert (map title (fst folded) = map sonnet_title sonnets) as Hfolded.
  { unfold folded. destruct combined as [|c0 combined']; [done|].
    rewrite fold_results_titles. by destruct Hc. }
  destruct rest as [|w rest]; [done|].
  apply IH; [by right|done].
Qed.

(** X12: for a query of at least one word the driver ends with one result
    per sonnet, in the order of the corpus, each with the title of its
    sonnet; for no word it ends with no result. *)
Theorem evaluate_query_titles (search_mode : str) (sonnets : list Sonnet)
    (words : list str) (h : store) :
  (words <> [] ->
   map title (fst (evaluate_query search_mode sonnets words h))
   = map sonnet_title sonnets)
  /\ evaluate_query search_mode sonnets [] h = ([], h).
Proof.
  split; [|reflexivity].
  intros Hne. apply word_loop_titles; [by left|done].
Qed.

Lemma evaluate_query_titles_witness :
  map title (fst (evaluate_query (lit "OR") [doc_A; doc_B] [lit "be"; lit "to"] []))
  = map sonnet_title [doc_A; doc_B].
Proof.
  apply (proj1 (evaluate_query_titles (lit "OR") [doc_A; doc_B] [lit "be"; lit "to"] [])).
  discriminate.
Defined.

Lemma fold_matches_AND (acc m : Z) :
  fold_matches (lit "AND") acc m = if (0 <? acc) && (0 <? m) then acc + m else 0.
Proof. reflexivity. Qed.

Lemma or_fold_value (ms : list Z) :
  forall acc, fold_left (fold_matches (lit "OR")) ms acc = acc + foldr Z.add 0 ms.
Proof.
  induction ms as [|m ms IH]; intros acc; cbn [fold_left foldr]; [lia|].
  rewrite fold_matches_OR, IH. lia.
Qed.

Lemma zero_under_and (ms : list Z) : fold_left (fold_matches (lit "AND")) ms 0 = 0.
Proof.
  induction ms as [|m ms IH]; cbn [fold_left]; [done|].
  by rewrite fold_matches_AND.
Qed.

Lemma value_under_and (ms : list Z) :
  forall acc,
    0 <= acc ->
    fold_left (fold_matches (lit "AND")) ms acc
    = if bool_decide (Forall (fun m => 0 < m) (acc :: ms))
      then acc + foldr Z.add 0 ms else 0.
Proof.
  induction ms as [|m ms IH]; intros acc Hacc; cbn [fold_left foldr].
  - case_bool_decide as H; [lia|].
    destruct (decide (0 < acc)) as [Hpos|Hn]; [|lia].
    exfalso. apply H. by repeat constructor.
  - rewrite fold_matches_AND.
    destruct (Z.ltb_spec 0 acc) as [Ha|Ha], (Z.ltb_spec 0 m) as [Hm|Hm]; simpl.
    + rewrite IH by lia. repeat case_bool_decide; try lia.
      * exfalso. match goal with H : ~ Forall _ _ |- _ => apply H end.
        match goal with H : Forall _ ((acc + m) :: ms) |- _ =>
          apply Forall_cons in H as [_ H] end.
        by repeat constructor.
      * exfalso. match goal with H : ~ Forall _ ((acc + m) :: ms) |- _ => apply H end.
        match goal with H : Forall _ (acc :: m :: ms) |- _ =>
          apply Forall_cons in H as [_ H]; apply Forall_cons in H as [_ H] end.
        constructor; [simpl; lia|done].
    + rewrite zero_under_and. rewrite bool_decide_eq_false_2; [done|].
      intros H. apply Forall_cons in H as [_ H]. apply Forall_cons in H as [H _].
      simpl in H. lia.
    + rewrite zero_under_and. rewrite bool_decide_eq_false_2; [done|].
      intros H. apply Forall_cons in H as [H _]. simpl in H. lia.
    + rewrite zero_under_and. rewrite bool_decide_eq_false_2; [done|].
      intros H. apply Forall_cons in H as [H _]. simpl in H. lia.
Qed.

(** X13: under OR the final [matches] of a document is the sum of the
    matches of the words of the query, a word given twice counting twice;
    under AND it is that sum when every word has matches in the document,
    and 0 otherwise. *)
Theorem query_count (search_mode : str) (sonnets : list Sonnet) (word : str)
    (words : list str) (h : store) (j : nat) (s : Sonnet) :
  sonnets !! j = Some s ->
  exists r,
    fst (evaluate_query search_mode sonnets (word :: words) h) !! j = Some r
    /\ (search_mode = lit "OR" -> matches r = sum_matches s (word :: words))
    /\ (search_mode = lit "AND" ->
        matches r
        = if bool_decide (Forall (fun w => 0 < word_matches s w) (word :: words))
          then sum_matches s (word :: words) else 0).
Proof.
  intros Hs.
  destruct (evaluate_query_matches search_mode sonnets word words h j s Hs)
    as (r & Hr & Hm).
  exists r. split; [done|]. rewrite Hm. unfold sum_matches. cbn [map foldr]. split.
  - intros ->. apply or_fold_value.
  - intros ->. rewrite value_under_and by apply word_matches_nonneg.
    assert (Forall (fun m => 0 < m) (word_matches s word :: map (word_matches s) words)
            <-> Forall (fun w => 0 < word_matches s w) (word :: words)) as Hiff.
    { change (word_matches s word :: map (word_matches s) words)
        with (word_matches s <$> (word :: words)).
      by rewrite Forall_fmap. }
    repeat case_bool_decide; tauto.
Qed.

Lemma query_count_witness :
  exists r,
    fst (evaluate_query (lit "OR") [doc_A; doc_B] [lit "be"; lit "be"] []) !! 0%nat
    = Some r
    /\ (lit "OR" = lit "OR" -> matches r = sum_matches doc_A [lit "be"; lit "be"])
    /\ (lit "OR" = lit "AND" ->
        matches r
        = if bool_decide (Forall (fun w => 0 < word_matches doc_A w) [lit "be"; lit "be"])
          then sum_matches doc_A [lit "be"; lit "be"] else 0).
Proof.
  apply (query_count (lit "OR") [doc_A; doc_B] (lit "be") [lit "be"] [] 0%nat doc_A).
  reflexivity.
Defined.

(** X14: under AND a document that has lost its matches does not get them
    back: when its [matches] is 0 after some words of a query, it is 0
    after any further words. *)
Theorem no_return_under_and (sonnets : list Sonnet) (word : str)
    (words more : list str) (h : store) (j : nat) (r : SearchResult) :
  fst (evaluate_query (lit "AND") sonnets (word :: words) h) !! j = Some r ->
  matches r = 0 ->
  exists r',
    fst (evaluate_query (lit "AND") sonnets (word :: words ++ more) h) !! j = Some r'
    /\ matches r' = 0.
Proof.
  intros Hr H0.
  assert (exists s, sonnets !! j = Some s) as [s Hs].
  { apply lookup_lt_is_Some. apply lookup_lt_Some in Hr.
    assert (map title (fst (evaluate_query (lit "AND") sonnets (word :: words) h))
            = map sonnet_title sonnets) as Ht
      by (apply word_loop_titles; [by left|done]).
    assert (length (fst (evaluate_query (lit "AND") sonnets (word :: words) h))
            = length sonnets) as <-; [|done].
    rewrite <- (length_map title), Ht. apply length_map. }
  destruct (evaluate_query_matches (lit "AND") sonnets word words h j s Hs)
    as (r1 & Hr1 & Hm1).
  destruct (evaluate_query_matches (lit "AND") sonnets word (words ++ more) h j s Hs)
    as (r2 & Hr2 & Hm2).
  exists r2. split; [done|].
  rewrite Hr in Hr1. injection Hr1 as <-.
  rewrite Hm2, map_app, fold_left_app, <- Hm1, H0. apply zero_under_and.
Qed.

Lemma no_return_under_and_witness :
  exists r',
    fst (evaluate_query (lit "AND") [doc_A; doc_B]
           (lit "be" :: [lit "zzz"] ++ [lit "to"]) []) !! 0%nat = Some r'
    /\ matches r' = 0.
Proof.
  destruct (fst (evaluate_query (lit "AND") [doc_A; doc_B] [lit "be"; lit "zzz"] [])
            !! 0%nat) as [r|] eqn:Hr; [|vm_compute in Hr; discriminate Hr].
  apply (no_return_under_and [doc_A; doc_B] (lit "be") [lit "zzz"] [lit "to"] [] 0%nat r Hr).
  vm_compute in Hr. injection Hr as <-. reflexivity.
Defined.

(** ** The invariant in the query driver *)

Lemma count_ok_frame (h h' : store) (r : SearchResult) :
  (forall p, In p (locs r) -> contents h' p = contents h p) ->
  count_ok h r -> count_ok h' r.
Proof.
  intros Hsame. unfold count_ok.
  rewrite (Hsame (title_spans r)) by (by left).
  assert (line_span_count h' (line_matches r) = line_span_count h (line_matches r)) as ->;
    [|done].
  assert (forall lm, In lm (line_matches r) ->
                     contents h' (spans lm) = contents h (spans lm)) as Hl.
  { intros lm Hlm. apply Hsame. right. by apply in_map. }
  induction (line_matches r) as [|lm lms IH]; [done|].
  rewrite !line_span_count_cons, Hl by (by left).
  rewrite IH; [done|]. intros x Hx. apply Hl. by right.
Qed.

Lemma merge_lines_values (others : list LineMatch) :
  forall (d : dict) (h : store),
    exists added,
      dict_values (fst (merge_lines others d h)) = dict_values d ++ added
      /\ sublist added others.
Proof.
  induction others as [|lm rest IH]; intros d h.
  - exists []. simpl. by rewrite app_nil_r.
  - rewrite merge_lines_cons. destruct (dict_get d (line_no lm)) as [mine|].
    + destruct (IH d (<[spans mine := contents h (spans mine) ++ contents h (spans lm)]> h))
        as (added & Hv & Hs).
      exists added. split; [done|]. by apply sublist_cons.
    + destruct (IH (d ++ [(line_no lm, lm)]) h) as (added & Hv & Hs).
      exists (lm :: added). split; [|by apply sublist_skip].
      by rewrite Hv, dict_values_app, <- app_assoc.
Qed.

Lemma combine_with_line_nos (a b : SearchResult) (h : store) :
  NoDup (map line_no (line_matches (fst (combine_with a b h)))).
Proof.
  rewrite combine_with_eq. cbv zeta. cbn [fst line_matches].
  set (h1 := h ++ _).
  destruct (lines_dict_keys (line_matches a)) as (Hnd0 & Hk0 & _).
  destruct (merge_lines_keys (line_matches b) (lines_dict (line_matches a)) h1 Hnd0 Hk0)
    as (Hnd & Hk & _).
  rewrite <- (sorted_perm line_no_leb). by rewrite keyed_line_nos.
Qed.

Lemma combined_lines_from (a b : SearchResult) (h : store) :
  NoDup (map line_no (line_matches a)) ->
  exists added,
    Permutation (line_matches (fst (combine_with a b h))) (line_matches a ++ added)
    /\ sublist added (line_matches b).
Proof.
  intros Hla. rewrite combine_with_eq. cbv zeta. cbn [fst line_matches].
  set (h1 := h ++ _).
  destruct (merge_lines_values (line_matches b) (lines_dict (line_matches a)) h1)
    as (added & Hv & Hs).
  exists added. split; [|done].
  rewrite <- (sorted_perm line_no_leb), Hv. by rewrite lines_dict_values.
Qed.

(** The value [combine_with] returns is in good order, and each of its
    lists is the new title list or a line list of one of the inputs. *)
Lemma combine_with_well_formed (a b : SearchResult) (h : store) :
  well_formed h a -> well_formed h b ->
  (forall p, In p (locs a) -> ~ In p (locs b)) ->
  let c := fst (combine_with a b h) in
  let h' := snd (combine_with a b h) in
  well_formed h' c
  /\ separate h a b
  /\ forall p, In p (locs c) ->
       p = length h \/ In p (map spans (line_matches a))
       \/ In p (map spans (line_matches b)).
Proof.
  intros (Hla & Hda & Hva) (Hlb & Hdb & Hvb) Hdisj c h'.
  unfold locs in Hda, Hdb, Hva, Hvb.
  apply NoDup_cons in Hda as [_ Hda]. apply NoDup_cons in Hdb as [_ Hdb].
  apply Forall_cons in Hva as [_ Hva]. apply Forall_cons in Hvb as [_ Hvb].
  assert (NoDup (map spans (line_matches a) ++ map spans (line_matches b))) as Hnd.
  { apply NoDup_app. split; [done|]. split; [|done].
    intros p Hpa Hpb. apply (Hdisj p); right; by apply list_elem_of_In. }
  destruct (combined_lines_from a b h Hla) as (added & Hperm & Hsub).
  fold c in Hperm.
  assert (sublist (map spans (line_matches a) ++ map spans added)
            (map spans (line_matches a) ++ map spans (line_matches b))) as Hsub'.
  { apply sublist_app; [done|]. by apply (fmap_sublist spans). }
  assert (Permutation (map spans (line_matches c))
            (map spans (line_matches a) ++ map spans added)) as Hperm'.
  { rewrite <- map_app. by apply Permutation_map. }
  assert (forall p, In p (map spans (line_matches c)) ->
                    In p (map spans (line_matches a))
                    \/ In p (map spans (line_matches b))) as Hfrom.
  { intros p Hp. apply (Permutation_in _ Hperm') in Hp.
    apply in_app_or. apply list_elem_of_In.
    eapply sublist_subseteq; [exact Hsub'|]. by apply list_elem_of_In. }
  assert (forall p, In p (map spans (line_matches c)) -> (p < length h)%nat) as Hlt.
  { intros p Hp. rewrite List.Forall_forall in Hva, Hvb.
    destruct (Hfrom p Hp); auto. }
  assert (title_spans c = length h) as Htc
    by (unfold c; by rewrite combine_with_eq).
  assert (length h' = S (length h)) as Hlen by apply combine_with_length.
  split; [|split].
  - split; [apply combine_with_line_nos|]. split.
    + unfold locs. rewrite Htc. constructor.
      * intros Hin. apply list_elem_of_In, Hlt in Hin. lia.
      * rewrite Hperm'. by eapply sublist_NoDup.
    + unfold locs. rewrite Htc, Hlen. constructor; [lia|].
      apply List.Forall_forall. intros p Hp. apply Hlt in Hp. lia.
  - split; [done|]. split; [done|]. by apply Forall_app.
  - intros p [Hp|Hp]; [left; by rewrite <- Hp, Htc|right; by apply Hfrom].
Qed.

Lemma tracked_frame (search_mode : str) (h h' : store) (r : SearchResult) :
  (forall p, In p (locs r) -> contents h' p = contents h p) ->
  tracked search_mode h r -> tracked search_mode h' r.
Proof.
  intros Hsame [Hok|Hz]; [left; by eapply count_ok_frame|by right].
Qed.

Lemma well_formed_mono (h h' : store) (r : SearchResult) :
  (length h <= length h')%nat -> well_formed h r -> well_formed h' r.
Proof.
  intros Hle (H1 & H2 & H3). split; [done|]. split; [done|].
  eapply Forall_impl; [exact H3|]. intros p Hp. simpl in Hp. lia.
Qed.

Lemma well_formed_lt (h : store) (r : SearchResult) (p : nat) :
  well_formed h r -> In p (locs r) -> (p < length h)%nat.
Proof.
  intros (_ & _ & Hv) Hp. rewrite List.Forall_forall in Hv. by apply Hv.
Qed.

(** One turn of the loop over the sonnets keeps a cumulative result in good
    order and tracked, and touches no list outside it. *)
Lemma fold_result_step (search_mode : str) (c r : SearchResult) (h : store) :
  well_formed h c -> well_formed h r ->
  tracked search_mode h c -> count_ok h r ->
  (forall p, In p (locs c) -> ~ In p (locs r)) ->
  let u := fst (fold_result search_mode c r h) in
  let h1 := snd (fold_result search_mode c r h) in
  (length h <= length h1)%nat
  /\ (forall p, (p < length h)%nat -> ~ In p (locs c) -> contents h1 p = contents h p)
  /\ well_formed h1 u
  /\ tracked search_mode h1 u
  /\ (forall p, In p (locs u) ->
        (length h <= p)%nat \/ In p (locs c) \/ In p (locs r)).
Proof.
  intros Hwc Hwr Htc Hor Hdisj u h1.
  assert ((fold_result search_mode c r h = combine_with c r h) -> count_ok h c ->
            (length h <= length h1)%nat
            /\ (forall p, (p < length h)%nat -> ~ In p (locs c) ->
                          contents h1 p = contents h p)
            /\ well_formed h1 u /\ tracked search_mode h1 u
            /\ (forall p, In p (locs u) ->
                  (length h <= p)%nat \/ In p (locs c) \/ In p (locs r))) as Hcombine.
  { intros Heq Hoc. unfold u, h1. rewrite Heq.
    destruct (combine_with_well_formed c r h Hwc Hwr Hdisj) as (Hwu & Hsep & Hfrom).
    split; [rewrite combine_with_length; lia|].
    split.
    { intros p Hp Hnot. apply combine_with_frame; [apply Hwc|apply Hwr|done|].
      intros Hin. apply Hnot. by right. }
    split; [done|].
    split; [left; by apply combine_with_count_ok|].
    intros p Hp. destruct (Hfrom p Hp) as [->|[Hin|Hin]];
      [left; lia|right; left; by right|right; right; by right]. }
  assert (forall v,
            fold_result search_mode c r h = (v, h) -> locs v = locs c ->
            line_matches v = line_matches c -> tracked search_mode h v ->
            (length h <= length h1)%nat
            /\ (forall p, (p < length h)%nat -> ~ In p (locs c) ->
                          contents h1 p = contents h p)
            /\ well_formed h1 u /\ tracked search_mode h1 u
            /\ (forall p, In p (locs u) ->
                  (length h <= p)%nat \/ In p (locs c) \/ In p (locs r))) as Hkeep.
  { intros v Heq Hlocs Hlines Htv. unfold u, h1. rewrite Heq. cbn [fst snd].
    split; [done|]. split; [done|]. split.
    { unfold well_formed. rewrite Hlocs, Hlines. exact Hwc. }
    split; [done|]. intros p Hp. right. left. by rewrite <- Hlocs. }
  unfold fold_result in *.
  destruct (decide (search_mode = lit "AND")) as [Hand|Hnand].
  - destruct (Z.ltb_spec 0 (matches c)) as [Hc|Hc];
      destruct (Z.ltb_spec 0 (matches r)) as [Hr|Hr]; cbn [andb] in *.
    + apply Hcombine; [done|]. destruct Htc as [?|[_ H0]]; [done|lia].
    + apply (Hkeep (set_matches c 0)); [done|done|done|by right].
    + apply (Hkeep (set_matches c 0)); [done|done|done|by right].
    + apply (Hkeep (set_matches c 0)); [done|done|done|by right].
  - destruct (decide (search_mode = lit "OR")) as [Hor'|Hnor].
    + apply Hcombine; [done|]. destruct Htc as [?|[Ha _]]; done.
    + by apply (Hkeep c).
Qed.

Lemma fold_pairs_cons (search_mode : str) (c r : SearchResult)
    (cs rs : list SearchResult) (h : store) :
  fold_pairs search_mode (c :: cs) (r :: rs) h
  = (fst (fold_result search_mode c r h)
       :: fst (fold_pairs search_mode cs rs (snd (fold_result search_mode c r h))),
     snd (fold_pairs search_mode cs rs (snd (fold_result search_mode c r h)))).
Proof.
  cbn [fold_pairs]. unfold bind, ret.
  destruct (fold_result search_mode c r h) as [u h1]. cbn [fst snd].
  by destruct (fold_pairs search_mode cs rs h1).
Qed.

Lemma fold_pairs_inv (search_mode : str) (cs : list SearchResult) :
  forall (rs : list SearchResult) (h : store) (ctx : list loc),
    length cs = length rs ->
    Forall (well_formed h) cs -> Forall (well_formed h) rs ->
    Forall (tracked search_mode h) cs -> Forall (count_ok h) rs ->
    apart_results cs -> apart_results rs -> apart_pairs cs rs ->
    disjoint_from ctx cs -> disjoint_from ctx rs ->
    Forall (fun p => (p < length h)%nat) ctx ->
    let cs' := fst (fold_pairs search_mode cs rs h) in
    let h' := snd (fold_pairs search_mode cs rs h) in
    (length h <= length h')%nat
    /\ (forall p, In p ctx -> contents h' p = contents h p)
    /\ Forall (well_formed h') cs'
    /\ Forall (tracked search_mode h') cs'
    /\ apart_results cs'
    /\ disjoint_from ctx cs'
    /\ length cs' = length cs.
Proof.
  induction cs as [|c cs IH];
    intros rs h ctx Hlen Hwc Hwr Htc Hor Hac Har Hap Hdc Hdr Hctx; cbn zeta.
  - simpl. repeat split; done.
  - destruct rs as [|r rs]; [done|]. simpl in Hlen.
    rewrite fold_pairs_cons. cbn [fst snd].
    apply Forall_cons in Hwc as [Hwc Hwcs]. apply Forall_cons in Hwr as [Hwr Hwrs].
    apply Forall_cons in Htc as [Htc Htcs]. apply Forall_cons in Hor as [Hor Hors].
    destruct Hac as [Hc_cs Hacs]. destruct Har as [Hr_rs Hars].
    assert (forall p, In p (locs c) -> ~ In p (locs r)) as Hcr.
    { intros p Hp. apply (Hap c r p); [by left|by left|done]. }
    destruct (fold_result_step search_mode c r h Hwc Hwr Htc Hor Hcr)
      as (Hlen1 & Hframe & Hwu & Htu & Hfrom).
    set (u := fst (fold_result search_mode c r h)) in *.
    set (h1 := snd (fold_result search_mode c r h)) in *.
    (* what the step keeps for the results still to fold *)
    assert (forall x, In x cs -> forall p, In p (locs x) -> contents h1 p = contents h p)
      as Hsame_cs.
    { intros x Hx p Hp. apply Hframe.
      - rewrite List.Forall_forall in Hwcs. by eapply well_formed_lt; [apply Hwcs|].
      - intros Hpc. by apply (Hc_cs p x Hx Hpc). }
    assert (forall y, In y rs -> forall p, In p (locs y) -> contents h1 p = contents h p)
      as Hsame_rs.
    { intros y Hy p Hp. apply Hframe.
      - rewrite List.Forall_forall in Hwrs. by eapply well_formed_lt; [apply Hwrs|].
      - intros Hpc. apply (Hap c y p); [by left|by right|done|done]. }
    assert (forall x p, In x cs \/ In x rs -> In p (locs x) -> (p < length h)%nat)
      as Hold.
    { intros x p Hx Hp. rewrite List.Forall_forall in Hwcs, Hwrs.
      destruct Hx as [Hx|Hx];
        [exact (well_formed_lt h x p (Hwcs x Hx) Hp)
        |exact (well_formed_lt h x p (Hwrs x Hx) Hp)]. }
    assert (forall p, In p ctx -> (p < length h)%nat) as Hctx'
      by (by apply List.Forall_forall).
    destruct (IH rs h1 (ctx ++ locs u)) as (Hlen2 & Hsame2 & Hw2 & Ht2 & Ha2 & Hd2 & Hl2).
    + lia.
    + eapply Forall_impl; [exact Hwcs|]. intros x. by apply well_formed_mono.
    + eapply Forall_impl; [exact Hwrs|]. intros x. by apply well_formed_mono.
    + apply List.Forall_forall. intros x Hx. rewrite List.Forall_forall in Htcs.
      eapply tracked_frame; [|by apply Htcs]. by apply Hsame_cs.
    + apply List.Forall_forall. intros y Hy. rewrite List.Forall_forall in Hors.
      eapply count_ok_frame; [|by apply Hors]. by apply Hsame_rs.
    + done.
    + done.
    + intros x y p Hx Hy. apply Hap; by right.
    + intros p x Hp Hx Hpx. apply in_app_or in Hp as [Hp|Hp].
      * apply (Hdc p x Hp); [by right|done].
      * destruct (Hfrom p Hp) as [Hfresh|[Hpc|Hpr]].
        -- pose proof (Hold x p (or_introl Hx) Hpx). lia.
        -- by apply (Hc_cs p x Hx Hpc).
        -- apply (Hap x r p); [by right|by left|done|done].
    + intros p y Hp Hy Hpy. apply in_app_or in Hp as [Hp|Hp].
      * apply (Hdr p y Hp); [by right|done].
      * destruct (Hfrom p Hp) as [Hfresh|[Hpc|Hpr]].
        -- pose proof (Hold y p (or_intror Hy) Hpy). lia.
        -- apply (Hap c y p); [by left|by right|done|done].
        -- by apply (Hr_rs p y Hy Hpr).
    + apply Forall_app. split.
      * eapply Forall_impl; [exact Hctx|]. intros p Hp. simpl in Hp. lia.
      * apply Hwu.
    + set (cs' := fst (fold_pairs search_mode cs rs h1)) in *.
      set (h2 := snd (fold_pairs search_mode cs rs h1)) in *.
      split; [lia|]. split.
      { intros p Hp. rewrite Hsame2 by (apply in_or_app; by left).
        apply Hframe; [by apply Hctx'|].
        intros Hpc. apply (Hdc p c Hp); [by left|done]. }
      split.
      { constructor; [by eapply well_formed_mono|done]. }
      split.
      { constructor; [|done]. eapply tracked_frame; [|exact Htu].
        intros p Hp. apply Hsame2. apply in_or_app. by right. }
      split.
      { split; [|done]. intros p x Hx Hp. apply (Hd2 p x); [|done].
        apply in_or_app. by right. }
      split.
      { intros p x Hp [<-|Hx] Hpx.
        - destruct (Hfrom p Hpx) as [Hfresh|[Hpc|Hpr]].
          + pose proof (Hctx' p Hp). lia.
          + apply (Hdc p c Hp); [by left|done].
          + apply (Hdr p r Hp); [by left|done].
        - apply (Hd2 p x); [apply in_or_app; by left|done|done]. }
      simpl. by rewrite Hl2.
Qed.

(** The loop over the indices does what [fold_pairs] does on the two lists
    side by side. *)
Lemma fold_results_pairs (search_mode : str) (cs : list SearchResult) :
  forall (before rs_before rs : list SearchResult) (h : store),
    length before = length rs_before -> length cs = length rs ->
    fold_results search_mode (seq (length before) (length cs))
      (rs_before ++ rs) (before ++ cs) h
    = (before ++ fst (fold_pairs search_mode cs rs h),
       snd (fold_pairs search_mode cs rs h)).
Proof.
  induction cs as [|c cs IH]; intros before rs_before rs h Hb Hlen.
  - simpl. by rewrite app_nil_r.
  - destruct rs as [|r rs]; [done|]. simpl in Hlen.
    cbn [length seq fold_results].
    rewrite (list_lookup_middle before cs c (length before)) by done.
    rewrite (list_lookup_middle rs_before rs r (length before)) by done.
    unfold bind. rewrite fold_pairs_cons.
    destruct (fold_result search_mode c r h) as [u h1]. cbn [fst snd].
    replace (<[length before:=u]> (before ++ c :: cs)) with ((before ++ [u]) ++ cs).
    + replace (rs_before ++ r :: rs) with ((rs_before ++ [r]) ++ rs)
        by (by rewrite <- app_assoc).
      replace (S (length before)) with (length (before ++ [u]))
        by (rewrite length_app; simpl; lia).
      rewrite IH; [|rewrite !length_app; simpl; lia|lia].
      by rewrite <- app_assoc.
    + rewrite insert_app_r_alt by lia. rewrite Nat.sub_diag. simpl.
      by rewrite <- app_assoc.
Qed.

Lemma fold_results_as_pairs (search_mode : str) (combined results : list SearchResult)
    (h : store) :
  length combined = length results ->
  fold_results search_mode (seq 0 (length combined)) results combined h
  = fold_pairs search_mode combined results h.
Proof.
  intros Hlen.
  pose proof (fold_results_pairs search_mode combined [] [] results h eq_refl Hlen) as H.
  simpl in H. rewrite H.
  by destruct (fold_pairs search_mode combined results h).
Qed.

Lemma count_ok_extends (h h' : store) (r : SearchResult) :
  extends h h' -> well_formed h r -> count_ok h r -> count_ok h' r.
Proof.
  intros Hext Hw. apply count_ok_frame. intros p Hp.
  apply extends_contents; [done|]. by eapply well_formed_lt.
Qed.

Lemma search_for_extends (s : Sonnet) (word : str) (h : store) :
  extends h (snd (search_for s word h)).
Proof. by destruct (search_for_view s word h). Qed.

(** The results of one word for all sonnets: new lists only, each result in
    good order and with the invariant. *)
Lemma search_all_inv (sonnets : list Sonnet) (word : str) :
  forall h,
    let rs := fst (search_all sonnets word h) in
    let h' := snd (search_all sonnets word h) in
    extends h h'
    /\ Forall (well_formed h') rs
    /\ Forall (count_ok h') rs
    /\ apart_results rs
    /\ (forall p x, In x rs -> In p (locs x) -> (length h <= p)%nat).
Proof.
  induction sonnets as [|s rest IH]; intros h; cbn zeta.
  - simpl. split; [apply extends_refl|]. repeat split; done.
  - rewrite search_all_cons. cbn [fst snd].
    pose proof (search_for_extends s word h) as Hext1.
    destruct (fresh_search_locs s word h) as (Hrange & Hnd & Hln).
    pose proof (search_for_count_ok s word h) as Hok.
    set (r := fst (search_for s word h)) in *.
    set (h1 := snd (search_for s word h)) in *.
    destruct (IH h1) as (Hext2 & Hw & Hc & Ha & Hfresh).
    set (rs := fst (search_all rest word h1)) in *.
    set (h2 := snd (search_all rest word h1)) in *.
    assert (well_formed h1 r) as Hwr.
    { split; [done|]. split; [done|].
      eapply Forall_impl; [exact Hrange|]. intros p Hp. simpl in Hp. lia. }
    split; [by eapply extends_trans|].
    split.
    { constructor; [|done]. eapply well_formed_mono; [|exact Hwr].
      by apply extends_length. }
    split.
    { constructor; [|done]. by eapply count_ok_extends. }
    split.
    { split; [|done]. intros p x Hx Hp Hpx.
      pose proof (Hfresh p x Hx Hpx). pose proof (well_formed_lt h1 r p Hwr Hp). lia. }
    intros p x [<-|Hx] Hp.
    + rewrite List.Forall_forall in Hrange. specialize (Hrange p Hp). simpl in Hrange. lia.
    + pose proof (Hfresh p x Hx Hp). apply extends_length in Hext1. lia.
Qed.

Lemma word_loop_inv (search_mode : str) (sonnets : list Sonnet) (words : list str) :
  forall (combined : list SearchResult) (h : store),
    driver_inv search_mode sonnets h combined ->
    driver_inv search_mode sonnets
      (snd (word_loop search_mode sonnets words combined h))
      (fst (word_loop search_mode sonnets words combined h)).
Proof.
  induction words as [|word rest IH]; intros combined h Hinv; [done|].
  rewrite word_loop_cons. cbv zeta. apply IH.
  destruct Hinv as (Hlen & Hw & Ht & Ha).
  pose proof (search_all_length sonnets word h) as Hrl.
  destruct (search_all_inv sonnets word h) as (Hext & Hwr & Hcr & Har & Hfresh).
  set (results := fst (search_all sonnets word h)) in *.
  set (h1 := snd (search_all sonnets word h)) in *.
  destruct combined as [|c0 combined'].
  - split; [by right|]. split; [done|]. split; [|done].
    eapply Forall_impl; [exact Hcr|]. intros x Hx. by left.
  - set (combined := c0 :: combined') in *.
    destruct Hlen as [|Hlen]; [done|].
    rewrite fold_results_as_pairs by lia.
    destruct (fold_pairs_inv search_mode combined results h1 [])
      as (_ & _ & Hw' & Ht' & Ha' & _ & Hl').
    + lia.
    + eapply Forall_impl; [exact Hw|]. intros x.
      apply well_formed_mono. by apply extends_length.
    + done.
    + apply List.Forall_forall. intros x Hx. rewrite List.Forall_forall in Ht, Hw.
      eapply tracked_frame; [|by apply Ht].
      intros p Hp. apply extends_contents; [done|].
      by eapply well_formed_lt; [apply Hw|].
    + done.
    + done.
    + done.
    + intros x y p Hx Hy Hp Hpy. rewrite List.Forall_forall in Hw.
      pose proof (well_formed_lt h x p (Hw x Hx) Hp).
      pose proof (Hfresh p y Hy Hpy). lia.
    + by intros p x [].
    + by intros p x [].
    + constructor.
    + split; [right; lia|]. done.
Qed.

(** X15: in the query driver the combination never corrupts a result that
    is still in use: after any query every cumulative result refers to
    lists of its own, and its [matches] is the number of its spans, unless
    it was set to 0 under AND; so every displayed result, with
    [matches > 0], satisfies the invariant. *)
Theorem evaluate_query_keeps_count (search_mode : str) (sonnets : list Sonnet)
    (words : list str) (h : store) :
  let rs := fst (evaluate_query search_mode sonnets words h) in
  let h' := snd (evaluate_query search_mode sonnets words h) in
  Forall (well_formed h') rs
  /\ apart_results rs
  /\ Forall (fun r => count_ok h' r \/ (search_mode = lit "AND" /\ matches r = 0)) rs
  /\ (forall r, In r rs -> 0 < matches r -> count_ok h' r).
Proof.
  intros rs h'.
  destruct (word_loop_inv search_mode sonnets words [] h) as (_ & Hw & Ht & Ha).
  { split; [by left|]. by repeat split. }
  fold (evaluate_query search_mode sonnets words h) in Hw, Ht, Ha.
  split; [done|]. split; [done|]. split; [done|].
  intros r Hr Hpos. rewrite List.Forall_forall in Ht.
  destruct (Ht r Hr) as [Hok|[_ H0]]; [done|]. fold rs in Hr. lia.
Qed.

(** ** More on the display and on the query line *)

Lemma SearchResult_print_length (r : SearchResult) (idx : Z) (hl : bool)
    (total : Z) (mode : str) (h : store) :
  length (SearchResult_print r idx hl total mode h) = S (length (line_matches r)).
Proof. unfold SearchResult_print. simpl. by rewrite length_map. Qed.

Lemma print_matched_length (matched : list SearchResult) (hl : bool) (total : Z)
    (mode : str) (h : store) :
  forall idx,
    length (print_matched idx matched hl total mode h)
    = sum_list (map (fun r => S (length (line_matches r))) matched).
Proof.
  induction matched as [|r rest IH]; intros idx; [reflexivity|].
  cbn [print_matched map sum_list sum_list_with].
  rewrite length_app, SearchResult_print_length, IH. reflexivity.
Qed.

(** X16: when no result has matches, [print_results] prints the summary
    with the count 0 and nothing else; in general it prints the summary
    and, for each result with matches, one string for the title and one
    for each line match. *)
Theorem print_results_size (query : str) (results : list SearchResult)
    (hl : bool) (mode : str) (t : option str) (h : store) :
  (Forall (fun r => matches r <= 0) results ->
   print_results query results hl mode None h
   = [summary_line 0 (len results) query])
  /\ length (print_results query results hl mode t h)
     = S (sum_list (map (fun r => S (length (line_matches r)))
                      (filter (fun r => 0 < matches r) results))).
Proof.
  split.
  - intros Hall. unfold print_results.
    assert (filter (fun r => 0 < matches r) results = []) as ->.
    { induction Hall as [|r rs Hr Hrs IH]; [done|].
      rewrite filter_cons. destruct (decide (0 < matches r)); [lia|done]. }
    reflexivity.
  - unfold print_results. cbn [length]. by rewrite print_matched_length.
Qed.

Lemma print_results_size_witness :
  print_results (lit "zzz") [fst found_z] true (lit "GREEN") None (snd found_z)
  = [summary_line 0 1 (lit "zzz")].
Proof.
  apply (proj1 (print_results_size (lit "zzz") [fst found_z] true (lit "GREEN") None
                  (snd found_z))).
  repeat constructor. vm_compute. discriminate.
Defined.

Lemma split_loop_nil (s : str) :
  forall word words,
    split_loop s word words = []
    <-> words = [] /\ word = [] /\ Forall (fun c => is_space c = true) s.
Proof.
  induction s as [|c rest IH]; intros word words; cbn [split_loop].
  - destruct word as [|w word].
    + split; [intros ->; repeat split; constructor|by intros [-> _]].
    + split; [intros H; by apply app_eq_nil in H as [_ ?]|by intros (_ & ? & _)].
  - destruct (is_space c) eqn:Hc.
    + destruct word as [|w word].
      * rewrite IH. split.
        -- intros (-> & _ & Hrest). split; [done|]. split; [done|]. by constructor.
        -- intros (-> & _ & Hall). apply Forall_cons in Hall as [_ Hrest]. done.
      * rewrite IH. split.
        -- intros [H _]. by apply app_eq_nil in H as [_ ?].
        -- by intros (_ & ? & _).
    + rewrite IH. split.
      * intros (_ & Hw & _). by apply app_eq_nil in Hw as [_ ?].
      * intros (_ & _ & Hall). apply Forall_cons in Hall as [Hc' _]. congruence.
Qed.

(** X17: a query line prints nothing exactly when it consists of white
    space only, and then the store is left as it is; any other line prints
    at least the summary. *)
Theorem run_query_blank (config : Configuration) (sonnets : list Sonnet)
    (raw elapsed_ms : str) (h : store) :
  (fst (run_query config sonnets raw elapsed_ms h) = []
   <-> Forall (fun c => is_space c = true) raw)
  /\ (Forall (fun c => is_space c = true) raw ->
      run_query config sonnets raw elapsed_ms h = ([], h)).
Proof.
  unfold run_query.
  pose proof (split_loop_nil raw [] []) as Hnil. fold (split raw) in Hnil.
  destruct (split raw) as [|w ws] eqn:Hs.
  - assert (Forall (fun c => is_space c = true) raw) as Hall by (by apply Hnil).
    split; [done|done].
  - assert (~ Forall (fun c => is_space c = true) raw) as Hnot.
    { intros Hall. assert ((w :: ws) = []) by (apply Hnil; by repeat split). done. }
    split; [|done]. unfold bind.
    destruct (evaluate_query (search_mode config) sonnets (w :: ws) h) as [rs h'].
    cbn [fst]. unfold print_results. split; [done|done].
Qed.

Lemma run_query_blank_witness :
  run_query DEFAULT_CONFIG [doc_A; doc_B] (lit "   ") (lit "0.01") [] = ([], []).
Proof.
  apply (proj2 (run_query_blank DEFAULT_CONFIG [doc_A; doc_B] (lit "   ") (lit "0.01") [])).
  repeat constructor.
Defined.

(** ** The configuration *)

Lemma update_keeps_valid (self : Configuration)
    (other : list (str * json)) :
  valid_config self -> valid_config (Configuration_update self other).
Proof.
  intros [Hm Hh]. unfold Configuration_update, valid_config.
  destruct (json_get other (lit "highlight")) as [[| ? | ? | ? | ? | ? | ?]|];
    destruct (json_get other (lit "search_mode")) as [[| ? | ? | ? | ? | ? | ?]|];
    destruct (json_get other (lit "highlight_mode")) as [[| ? | ? | ? | ? | ? | ?]|];
    cbn [highlight search_mode highlight_mode];
    repeat case_bool_decide; cbn [highlight search_mode highlight_mode];
    (split; [try done|try done]);
    try (by apply list_elem_of_In).
Qed.

(** X18: [Configuration.update] never leaves the known settings: when the
    search mode is AND or OR and the highlight mode DEFAULT or GREEN before
    the call, they are so after it, whatever the dict holds. *)
Theorem Configuration_update_valid (self : Configuration) (other : list (str * json)) :
  valid_config self -> valid_config (Configuration_update self other).
Proof. apply update_keeps_valid. Qed.

Lemma Configuration_update_valid_witness :
  valid_config
    (Configuration_update DEFAULT_CONFIG
       [(lit "search_mode", JStr (lit "XOR")); (lit "highlight", JInt 1);
        (lit "highlight_mode", JStr (lit "GREEN"))]).
Proof.
  apply Configuration_update_valid. vm_compute. split; left; reflexivity.
Defined.

Lemma to_dict_restores (c0 c : Configuration) :
  valid_config c -> Configuration_update c0 (to_dict c) = c.
Proof.
  intros [Hm Hh]. unfold Configuration_update.
  change (json_get (to_dict c) (lit "highlight")) with (Some (JBool (highlight c))).
  change (json_get (to_dict c) (lit "search_mode")) with (Some (JStr (search_mode c))).
  change (json_get (to_dict c) (lit "highlight_mode"))
    with (Some (JStr (highlight_mode c))).
  cbn [highlight search_mode highlight_mode].
  rewrite bool_decide_eq_true_2 by (by apply list_elem_of_In).
  cbn [highlight search_mode highlight_mode].
  rewrite bool_decide_eq_true_2 by (by apply list_elem_of_In).
  by destruct c.
Qed.

(** X19: a configuration with known settings comes back from its own
    dict: [update] with [to_dict] of it gives it again, whatever the
    configuration updated was. *)
Theorem update_to_dict (c0 c : Configuration) :
  valid_config c -> Configuration_update c0 (to_dict c) = c.
Proof. apply to_dict_restores. Qed.

Lemma update_to_dict_witness :
  Configuration_update DEFAULT_CONFIG
    (to_dict (mkConfiguration false (lit "OR") (lit "GREEN")))
  = mkConfiguration false (lit "OR") (lit "GREEN").
Proof.
  apply update_to_dict. vm_compute. split; [right; left|right; left]; reflexivity.
Defined.

(** X20: [update] looks at the three keys highlight, search_mode and
    highlight_mode only: two dicts with the same entries for them have the
    same effect, so any other key is ignored; an empty dict changes
    nothing, and a second update with the same dict changes nothing. *)
Theorem update_three_keys (self : Configuration) (d1 d2 : list (str * json)) :
  (json_get d1 (lit "highlight") = json_get d2 (lit "highlight") ->
   json_get d1 (lit "search_mode") = json_get d2 (lit "search_mode") ->
   json_get d1 (lit "highlight_mode") = json_get d2 (lit "highlight_mode") ->
   Configuration_update self d1 = Configuration_update self d2)
  /\ Configuration_update self [] = self
  /\ Configuration_update (Configuration_update self d1) d1
     = Configuration_update self d1.
Proof.
  split; [|split].
  - intros H1 H2 H3. unfold Configuration_update. by rewrite H1, H2, H3.
  - reflexivity.
  - unfold Configuration_update.
    destruct (json_get d1 (lit "highlight")) as [[| ? | ? | ? | ? | ? | ?]|];
      destruct (json_get d1 (lit "search_mode")) as [[| ? | ? | ? | ? | ? | ?]|];
      destruct (json_get d1 (lit "highlight_mode")) as [[| ? | ? | ? | ? | ? | ?]|];
      cbn [highlight search_mode highlight_mode];
      repeat case_bool_decide; cbn [highlight search_mode highlight_mode];
      try reflexivity; by destruct self.
Qed.

Lemma update_three_keys_witness :
  Configuration_update DEFAULT_CONFIG
    [(lit "colour", JStr (lit "red")); (lit "search_mode", JStr (lit "OR"))]
  = Configuration_update DEFAULT_CONFIG [(lit "search_mode", JStr (lit "OR"))].
Proof.
  apply (proj1 (update_three_keys DEFAULT_CONFIG
                  [(lit "colour", JStr (lit "red")); (lit "search_mode", JStr (lit "OR"))]
                  [(lit "search_mode", JStr (lit "OR"))])); reflexivity.
Defined.

Lemma DEFAULT_CONFIG_valid : valid_config DEFAULT_CONFIG.
Proof. split; left; reflexivity. Qed.

Lemma update_value_valid (cfg cfg' : Configuration) (v : json) :
  valid_config cfg -> update_value cfg v = Some cfg' -> valid_config cfg'.
Proof.
  intros Hv. unfold update_value.
  destruct v as [| b | n | t | s | l | d]; try done.
  - destruct (json_has (JStr s) (lit "highlight")) as [[]|],
      (json_has (JStr s) (lit "search_mode")) as [[]|],
      (json_has (JStr s) (lit "highlight_mode")) as [[]|]; try done.
    by intros [= <-].
  - destruct (json_has (JList l) (lit "highlight")) as [[]|],
      (json_has (JList l) (lit "search_mode")) as [[]|],
      (json_has (JList l) (lit "highlight_mode")) as [[]|]; try done.
    by intros [= <-].
  - intros [= <-]. by apply update_keeps_valid.
Qed.

(** X21: [load_config] returns the default settings, with one message, when
    config.json is missing, is not JSON or cannot be read; for a JSON
    object it never raises and returns known settings, those of the object
    where they are valid; it gives back a configuration written by
    [to_dict]; for null, a boolean or a number the update raises, and the
    exception is not caught, while an empty list passes as a dict without
    keys.  Whatever it returns has known settings. *)
Theorem load_config_outcomes :
  (forall file cfg, fst (load_config file) = Some cfg -> valid_config cfg)
  /\ (forall d,
        load_config (Decoded (JDict d))
        = (Some (Configuration_update DEFAULT_CONFIG d), []))
  /\ (forall c, valid_config c -> load_config (Decoded (JDict (to_dict c))) = (Some c, []))
  /\ (forall file,
        file = FileNotFound \/ file = InvalidJSON \/ file = ReadFailed ->
        fst (load_config file) = Some DEFAULT_CONFIG
        /\ length (snd (load_config file)) = 1%nat)
  /\ (forall v,
        v = JNull \/ (exists b, v = JBool b) \/ (exists n, v = JInt n)
        \/ (exists t, v = JFloat t) ->
        fst (load_config (Decoded v)) = None)
  /\ load_config (Decoded (JList [])) = (Some DEFAULT_CONFIG, []).
Proof.
  split; [|split; [|split; [|split; [|split]]]].
  - intros file cfg. destruct file as [| | |v|]; simpl.
    + intros [= <-]. apply DEFAULT_CONFIG_valid.
    + intros [= <-]. apply DEFAULT_CONFIG_valid.
    + intros [= <-]. apply DEFAULT_CONFIG_valid.
    + apply update_value_valid, DEFAULT_CONFIG_valid.
    + done.
  - reflexivity.
  - intros c Hc. unfold load_config, update_value.
    by rewrite to_dict_restores.
  - intros file [->|[->| ->]]; by split.
  - intros v [->|[[b ->]|[[n ->]|[t ->]]]]; reflexivity.
  - reflexivity.
Qed.

Lemma load_config_outcomes_witness :
  load_config (Decoded (JDict (to_dict (mkConfiguration false (lit "OR") (lit "GREEN")))))
  = (Some (mkConfiguration false (lit "OR") (lit "GREEN")), []).
Proof.
  apply (proj1 (proj2 (proj2 load_config_outcomes))).
  vm_compute. split; right; left; reflexivity.
Defined.

(** ** The command loop *)

Lemma command_valid (HELP : str) (writable : bool) (config : Configuration)
    (raw : str) :
  valid_config config -> valid_config (fst (fst (command HELP writable config raw))).
Proof.
  intros [Hm Hh]. unfold command.
  destruct (decide (raw = lit ":quit")); [done|].
  destruct (decide (raw = lit ":help")); [done|].
  destruct (startswith raw (lit ":highlight")).
  { destruct (split raw) as [|w [|p [|x l]]]; try done.
    case_bool_decide; done. }
  destruct (startswith raw (lit ":search-mode")).
  { destruct (split raw) as [|w [|p [|x l]]]; try done.
    destruct (upper p) as [u|]; [|done].
    case_bool_decide as Hu; [|done].
    split; [by apply list_elem_of_In|done]. }
  destruct (startswith raw (lit ":hl-mode")); [|done].
  destruct (split raw) as [|w [|p [|x l]]]; try done.
  destruct (upper p) as [u|]; [|done].
  case_bool_decide as Hu; [|done].
  split; [done|by apply list_elem_of_In].
Qed.

Lemma main_step_valid (HELP : str) (config : Configuration) (sonnets : list Sonnet)
    (t : turn) (h : store) :
  valid_config config ->
  valid_config (fst (fst (fst (main_step HELP config sonnets t h)))).
Proof.
  intros Hv. unfold main_step. destruct (typed t) as [line|]; [|done].
  destruct (strip line) as [|c raw]; [done|].
  destruct (startswith (c :: raw) (lit ":")).
  - by apply command_valid.
  - unfold bind, ret. by destruct (run_query config sonnets (c :: raw) (elapsed t) h).
Qed.

Lemma main_loop_cons (HELP : str) (config : Configuration) (sonnets : list Sonnet)
    (t : turn) (rest : list turn) (h : store) :
  main_loop HELP config sonnets (t :: rest) h
  = let step := main_step HELP config sonnets t h in
    if snd (fst step)
    then (fst (fst (fst step)), snd (fst (fst step)), snd step)
    else
      let more := main_loop HELP (fst (fst (fst step))) sonnets rest (snd step) in
      (fst (fst more), snd (fst (fst step)) ++ snd (fst more), snd more).
Proof.
  cbn [main_loop]. unfold bind, ret. cbv zeta.
  destruct (main_step HELP config sonnets t h) as [[[config' out] stop] h1].
  cbn [fst snd]. destruct stop; [done|].
  by destruct (main_loop HELP config' sonnets rest h1) as [[c'' out'] h2].
Qed.

(** X22: the settings stay known through a whole session: when the search
    mode is AND or OR and the highlight mode DEFAULT or GREEN at the start
    of the loop, they are so after any lines typed. *)
Theorem main_loop_valid (HELP : str) (sonnets : list Sonnet) (turns : list turn) :
  forall (config : Configuration) (h : store),
    valid_config config ->
    valid_config (fst (fst (main_loop HELP config sonnets turns h))).
Proof.
  induction turns as [|t rest IH]; intros config h Hv; [done|].
  rewrite main_loop_cons. cbv zeta.
  pose proof (main_step_valid HELP config sonnets t h Hv) as Hstep.
  destruct (main_step HELP config sonnets t h) as [[[config' out] stop] h1].
  cbn [fst snd] in *. destruct stop; [done|].
  cbn [fst]. by apply IH.
Qed.

Lemma main_loop_valid_witness :
  valid_config
    (fst (fst (main_loop (lit "help") DEFAULT_CONFIG [doc_A; doc_B]
                 [mkTurn (Some (lit ":search-mode or")) (lit "0.1") true;
                  mkTurn (Some (lit ":hl-mode blue")) (lit "0.1") true;
                  mkTurn (Some (lit "be")) (lit "0.1") true]
                 []))).
Proof.
  apply main_loop_valid. vm_compute. split; left; reflexivity.
Defined.

(** A command prints one message and changes nothing, or it is a setting
    that prints one message and saves the new configuration. *)
Lemma command_shape (HELP : str) (writable : bool) (config : Configuration)
    (raw : str) :
  (exists m,
     command HELP writable config raw
     = (config, [Printed m], bool_decide (raw = lit ":quit")))
  \/ (exists m config',
        raw <> lit ":quit"
        /\ command HELP writable config raw
           = (config', Printed m :: Configuration_save config' writable, false)).
Proof.
  unfold command.
  destruct (decide (raw = lit ":quit")) as [->|Hq]; [left; by eexists|].
  rewrite (bool_decide_eq_false_2 _ Hq).
  destruct (decide (raw = lit ":help")); [left; by eexists|].
  destruct (startswith raw (lit ":highlight")).
  { destruct (split raw) as [|w [|p [|x l]]]; try (left; by eexists).
    case_bool_decide; [right; by do 2 eexists|left; by eexists]. }
  destruct (startswith raw (lit ":search-mode")).
  { destruct (split raw) as [|w [|p [|x l]]]; try (left; by eexists).
    destruct (upper p) as [u|]; [|left; by eexists].
    case_bool_decide; [right; by do 2 eexists|left; by eexists]. }
  destruct (startswith raw (lit ":hl-mode")); [|left; by eexists].
  destruct (split raw) as [|w [|p [|x l]]]; try (left; by eexists).
  destruct (upper p) as [u|]; [|left; by eexists].
  case_bool_decide; [right; by do 2 eexists|left; by eexists].
Qed.

(** X23: a command that changes the configuration writes it to config.json,
    or reports that writing failed; and what a command writes is a dict
    from which [load_config] restores the configuration then in force. *)
Theorem command_saves (HELP : str) (writable : bool) (config : Configuration)
    (raw : str) :
  valid_config config ->
  let config' := fst (fst (command HELP writable config raw)) in
  let events := snd (fst (command HELP writable config raw)) in
  (forall d, In (Saved d) events ->
             load_config (Decoded (JDict d)) = (Some config', []))
  /\ (config' <> config ->
      if writable then In (Saved (to_dict config')) events
      else In (Printed (lit "Writing config.json failed.")) events).
Proof.
  intros Hv config' events.
  pose proof (command_valid HELP writable config raw Hv) as Hv'.
  fold config' in Hv'. unfold config', events in *. clear config' events.
  destruct (command_shape HELP writable config raw)
    as [(m & Heq)|(m & c' & _ & Heq)]; rewrite Heq in *; cbn [fst snd] in *.
  - split; [|done]. intros d [H|[]]. discriminate H.
  - split.
    + intros d [H|Hd]; [discriminate H|].
      unfold Configuration_save in Hd. destruct writable.
      * destruct Hd as [[= <-]|[]]. unfold load_config, update_value.
        by rewrite to_dict_restores.
      * destruct Hd as [H|[]]. discriminate H.
    + intros _. unfold Configuration_save. destruct writable; right; by left.
Qed.

Lemma command_saves_witness :
  load_config (Decoded (JDict (to_dict (mkConfiguration true (lit "OR") (lit "DEFAULT")))))
  = (Some (fst (fst (command (lit "help") true DEFAULT_CONFIG (lit ":search-mode or")))),
     []).
Proof.
  apply (proj1 (command_saves (lit "help") true DEFAULT_CONFIG (lit ":search-mode or")
                  DEFAULT_CONFIG_valid)).
  vm_compute. right. left. reflexivity.
Defined.

Lemma main_step_stop_iff (HELP : str) (config : Configuration) (sonnets : list Sonnet)
    (t : turn) (h : store) :
  snd (fst (main_step HELP config sonnets t h)) = true
  <-> typed t = None
      \/ exists line, typed t = Some line /\ strip line = lit ":quit".
Proof.
  unfold main_step. destruct (typed t) as [line|].
  - destruct (strip line) as [|c raw] eqn:Hs.
    + simpl. split; [done|]. intros [?|(l & [= <-] & Hl)]; [done|].
      rewrite Hs in Hl. discriminate Hl.
    + destruct (startswith (c :: raw) (lit ":")) eqn:Hcolon.
      * cbn [ret fst snd].
        destruct (command_shape HELP (writable t) config (c :: raw))
          as [(m & Heq)|(m & c' & Hnq & Heq)]; rewrite Heq; cbn [fst snd].
        -- rewrite bool_decide_eq_true. split.
           ++ intros Hq. right. exists line. split; [done|]. by rewrite Hs.
           ++ intros [?|(l & [= <-] & Hl)]; [done|]. by rewrite <- Hs.
        -- split; [done|]. intros [?|(l & [= <-] & Hl)]; [done|].
           rewrite Hs in Hl. done.
      * unfold bind, ret.
        destruct (run_query config sonnets (c :: raw) (elapsed t) h) as [out h'].
        cbn [fst snd]. split; [done|]. intros [?|(l & [= <-] & Hl)]; [done|].
        rewrite Hs in Hl. rewrite Hl in Hcolon. done.
  - simpl. split; [by left|done].
Qed.

(** X24: the loop ends at the end of the input and on the line :quit,
    white space around it aside, and on nothing else. *)
Theorem main_step_stops (HELP : str) (config : Configuration) (sonnets : list Sonnet)
    (t : turn) (h : store) :
  snd (fst (main_step HELP config sonnets t h)) = true
  <-> typed t = None
      \/ exists line, typed t = Some line /\ strip line = lit ":quit".
Proof. apply main_step_stop_iff. Qed.

(** X25: a query line never changes the configuration and never writes
    config.json; a command, a blank line and the end of the input never
    search: they leave the store of span lists as it is, and a blank line
    prints nothing. *)
Theorem main_step_separation (HELP : str) (config : Configuration)
    (sonnets : list Sonnet) (t : turn) (h : store) :
  let res := main_step HELP config sonnets t h in
  (forall line,
      typed t = Some line -> startswith (strip line) (lit ":") = false ->
      fst (fst (fst res)) = config
      /\ Forall (fun e => exists s, e = Printed s) (snd (fst (fst res))))
  /\ (forall line,
        typed t = Some line -> startswith (strip line) (lit ":") = true ->
        snd res = h)
  /\ (forall line,
        typed t = Some line -> strip line = [] -> res = (config, [], false, h))
  /\ (typed t = None -> snd res = h /\ fst (fst (fst res)) = config).
Proof.
  intros res. unfold res, main_step. clear res.
  destruct (typed t) as [line|].
  - split; [|split; [|split]]; try done.
    + intros l [= <-] Hcolon. destruct (strip line) as [|c raw]; [by split|].
      rewrite Hcolon. unfold bind, ret.
      destruct (run_query config sonnets (c :: raw) (elapsed t) h) as [out h'].
      cbn [fst snd]. split; [done|].
      apply List.Forall_forall. intros e He. apply in_map_iff in He as (x & <- & _).
      by eexists.
    + intros l [= <-] Hcolon. destruct (strip line) as [|c raw]; [done|].
      by rewrite Hcolon.
    + intros l [= <-] Hs. by rewrite Hs.
  - split; [|split; [|split]]; done.
Qed.

Lemma main_step_separation_witness :
  fst (fst (fst (main_step (lit "help") DEFAULT_CONFIG [doc_A; doc_B]
                   (mkTurn (Some (lit " or not ")) (lit "0.1") true) [])))
  = DEFAULT_CONFIG.
Proof.
  apply (proj1 (main_step_separation (lit "help") DEFAULT_CONFIG [doc_A; doc_B]
                  (mkTurn (Some (lit " or not ")) (lit "0.1") true) [])
           (lit " or not ")); reflexivity.
Defined.

(** X26: what is typed after the line :quit, or after the end of the
    input, plays no part: the loop gives the same configuration, the same
    output and the same store as if nothing followed. *)
Theorem main_loop_ends (HELP : str) (sonnets : list Sonnet)
    (before : list turn) (t : turn) (after : list turn) :
  (typed t = None \/ exists line, typed t = Some line /\ strip line = lit ":quit") ->
  forall (config : Configuration) (h : store),
    main_loop HELP config sonnets (before ++ t :: after) h
    = main_loop HELP config sonnets (before ++ [t]) h.
Proof.
  intros Hstop. induction before as [|b before IH]; intros config h.
  - simpl app. rewrite !main_loop_cons. cbv zeta.
    by rewrite (proj2 (main_step_stop_iff HELP config sonnets t h) Hstop).
  - simpl app. rewrite !main_loop_cons. cbv zeta.
    destruct (snd (fst (main_step HELP config sonnets b h))); [done|].
    by rewrite IH.
Qed.

Lemma main_loop_ends_witness :
  main_loop (lit "help") DEFAULT_CONFIG [doc_A; doc_B]
    ([mkTurn (Some (lit "be")) (lit "0.1") true]
     ++ mkTurn (Some (lit "  :quit ")) (lit "") true
     :: [mkTurn (Some (lit ":search-mode or")) (lit "") true]) []
  = main_loop (lit "help") DEFAULT_CONFIG [doc_A; doc_B]
      ([mkTurn (Some (lit "be")) (lit "0.1") true]
       ++ [mkTurn (Some (lit "  :quit ")) (lit "") true]) [].
Proof.
  apply main_loop_ends. right. exists (lit "  :quit "). split; reflexivity.
Defined.

Lemma startswith_conflict (raw a b : str) (n : nat) :
  (n <= length a)%nat -> (n <= length b)%nat -> take n a <> take n b ->
  startswith raw a = true -> startswith raw b = false.
Proof.
  unfold startswith. intros Hna Hnb Hne Ha.
  apply bool_decide_eq_true in Ha. apply bool_decide_eq_false. intros Hb.
  apply Hne. rewrite <- Ha at 1. rewrite <- Hb. rewrite !take_take.
  by rewrite !Nat.min_l.
Qed.

(** X27: a setting is recognised by the beginning of the line, not by its
    first word, and its value in any mix of capitals and small letters:
    a line of two words that begins with :highlight sets highlighting
    when the lowercase of the second word is on or off; one that begins
    with :search-mode or :hl-mode sets the mode to the uppercase of the
    second word when that is a known mode.  The other settings are
    kept. *)
Theorem setting_commands (HELP : str) (writable : bool) (config : Configuration)
    (raw w p : str) :
  split raw = [w; p] ->
  let config' := fst (fst (command HELP writable config raw)) in
  (startswith raw (lit ":highlight") = true ->
   In (lower p) [lit "on"; lit "off"] ->
   config' = mkConfiguration (bool_decide (lower p = lit "on")) (search_mode config)
               (highlight_mode config))
  /\ (startswith raw (lit ":search-mode") = true ->
      forall u, upper p = Some u -> In u [lit "AND"; lit "OR"] ->
      config' = mkConfiguration (highlight config) u (highlight_mode config))
  /\ (startswith raw (lit ":hl-mode") = true ->
      forall u, upper p = Some u -> In u [lit "DEFAULT"; lit "GREEN"] ->
      config' = mkConfiguration (highlight config) (search_mode config) u).
Proof.
  intros Hsplit config'. unfold config', command. clear config'.
  assert (raw <> lit ":quit") as Hq.
  { intros ->. vm_compute in Hsplit. discriminate Hsplit. }
  assert (raw <> lit ":help") as Hh.
  { intros ->. vm_compute in Hsplit. discriminate Hsplit. }
  rewrite (decide_False (P := raw = lit ":quit")) by done.
  rewrite (decide_False (P := raw = lit ":help")) by done.
  rewrite Hsplit.
  split; [|split].
  - intros -> Hp. apply list_elem_of_In in Hp.
    by rewrite bool_decide_eq_true_2.
  - intros Hs u Hu Hin.
    rewrite (startswith_conflict raw (lit ":search-mode") (lit ":highlight") 2)
      by (done || (vm_compute; lia) || (vm_compute; discriminate)).
    rewrite Hs, Hu. apply list_elem_of_In in Hin.
    by rewrite bool_decide_eq_true_2.
  - intros Hs u Hu Hin.
    rewrite (startswith_conflict raw (lit ":hl-mode") (lit ":highlight") 3)
      by (done || (vm_compute; lia) || (vm_compute; discriminate)).
    rewrite (startswith_conflict raw (lit ":hl-mode") (lit ":search-mode") 2)
      by (done || (vm_compute; lia) || (vm_compute; discriminate)).
    rewrite Hs, Hu. apply list_elem_of_In in Hin.
    by rewrite bool_decide_eq_true_2.
Qed.

Lemma setting_commands_witness :
  fst (fst (command (lit "help") true DEFAULT_CONFIG (lit ":highlighting  OFF")))
  = mkConfiguration (bool_decide (lower (lit "OFF") = lit "on")) (lit "AND")
      (lit "DEFAULT").
Proof.
  apply (proj1 (setting_commands (lit "help") true DEFAULT_CONFIG
                  (lit ":highlighting  OFF") (lit ":highlighting") (lit "OFF")
                  eq_refl)).
  - reflexivity.
  - vm_compute. right. left. reflexivity.
Defined.

(** ** Highlighting what the driver found *)

Lemma find_spans_ok (t pattern : str) : Forall span_ok (find_spans t pattern).
Proof.
  apply List.Forall_forall. intros [s e] Hin.
  apply find_spans_elem in Hin as (_ & Hs & -> & _).
  pose proof (len_nonneg pattern). unfold span_ok. simpl. lia.
Qed.

Lemma store_ok_contents (h : store) (p : nat) :
  store_ok h -> Forall span_ok (contents h p).
Proof.
  intros Hok. unfold contents. destruct (h !! p) as [l|] eqn:Hp; simpl; [|constructor].
  unfold store_ok in Hok. rewrite Forall_forall in Hok.
  apply Hok. by eapply list_elem_of_lookup_2.
Qed.

Lemma store_ok_alloc (h : store) (l : list span) :
  store_ok h -> Forall span_ok l -> store_ok (h ++ [l]).
Proof. intros Hh Hl. apply Forall_app. split; [done|]. by constructor. Qed.

Lemma store_ok_insert (h : store) (p : nat) (l : list span) :
  store_ok h -> Forall span_ok l -> store_ok (<[p:=l]> h).
Proof. intros Hh Hl. by apply Forall_insert. Qed.

Lemma search_lines_store_ok (q : str) (lines : list str) :
  forall idx acc h, store_ok h -> store_ok (snd (search_lines q idx lines acc h)).
Proof.
  induction lines as [|line_raw rest IH]; intros idx acc h Hok; [done|].
  rewrite search_lines_cons.
  pose proof (find_spans_ok (lower line_raw) q) as Hf.
  destruct (find_spans (lower line_raw) q) as [|sp found];
    apply IH; by apply store_ok_alloc.
Qed.

Lemma search_for_store_ok (s : Sonnet) (word : str) (h : store) :
  store_ok h -> store_ok (snd (search_for s word h)).
Proof.
  intros Hok. rewrite search_for_eq. cbv zeta. cbn [snd].
  apply search_lines_store_ok, store_ok_alloc; [done|apply find_spans_ok].
Qed.

Lemma search_all_store_ok (sonnets : list Sonnet) (word : str) :
  forall h, store_ok h -> store_ok (snd (search_all sonnets word h)).
Proof.
  induction sonnets as [|s rest IH]; intros h Hok; [done|].
  rewrite search_all_cons. cbn [snd]. by apply IH, search_for_store_ok.
Qed.

Lemma merge_lines_store_ok (others : list LineMatch) :
  forall d h, store_ok h -> store_ok (snd (merge_lines others d h)).
Proof.
  induction others as [|lm rest IH]; intros d h Hok; [done|].
  rewrite merge_lines_cons. destruct (dict_get d (line_no lm)) as [mine|].
  - apply IH, store_ok_insert; [done|].
    apply Forall_app. split; by apply store_ok_contents.
  - by apply IH.
Qed.

Lemma combine_with_store_ok (a b : SearchResult) (h : store) :
  store_ok h -> store_ok (snd (combine_with a b h)).
Proof.
  intros Hok. rewrite combine_with_eq. cbv zeta. cbn [snd].
  apply merge_lines_store_ok, store_ok_alloc; [done|].
  rewrite <- (sorted_perm span_leb).
  apply Forall_app. split; by apply store_ok_contents.
Qed.

Lemma fold_result_store_ok (search_mode : str) (c r : SearchResult) (h : store) :
  store_ok h -> store_ok (snd (fold_result search_mode c r h)).
Proof.
  intros Hok. unfold fold_result.
  destruct (decide (search_mode = lit "AND")).
  - destruct ((0 <? matches c) && (0 <? matches r)); [by apply combine_with_store_ok|done].
  - destruct (decide (search_mode = lit "OR")); [by apply combine_with_store_ok|done].
Qed.

Lemma fold_results_store_ok (search_mode : str) (indices : list nat)
    (results : list SearchResult) :
  forall combined h,
    store_ok h -> store_ok (snd (fold_results search_mode indices results combined h)).
Proof.
  induction indices as [|i rest IH]; intros combined h Hok; [done|].
  cbn [fold_results].
  destruct (combined !! i) as [c|]; [|done]. destruct (results !! i) as [r|]; [|done].
  unfold bind. pose proof (fold_result_store_ok search_mode c r h Hok) as Hstep.
  destruct (fold_result search_mode c r h) as [u h1]. by apply IH.
Qed.

Lemma word_loop_store_ok (search_mode : str) (sonnets : list Sonnet) (words : list str) :
  forall combined h,
    store_ok h -> store_ok (snd (word_loop search_mode sonnets words combined h)).
Proof.
  induction words as [|word rest IH]; intros combined h Hok; [done|].
  rewrite word_loop_cons. cbv zeta. apply IH.
  pose proof (search_all_store_ok sonnets word h Hok) as H1.
  destruct combined as [|c0 combined']; [done|].
  by apply fold_results_store_ok.
Qed.

(** X28: what the driver finds can always be highlighted without loss: from
    a store with proper spans, a query leaves proper spans in every list;
    so for any text without escape character and the spans of any list,
    the highlighted string with its escape sequences stripped is the
    text. *)
Theorem evaluate_query_highlight (search_mode : str) (sonnets : list Sonnet)
    (words : list str) (h : store) :
  store_ok h ->
  let h' := snd (evaluate_query search_mode sonnets words h) in
  store_ok h'
  /\ forall (t : str) (p : loc) (highlight_mode : str),
       Forall (fun c => c <> esc) t ->
       strip_ansi false (ansi_highlight t (contents h' p) highlight_mode) = t.
Proof.
  intros Hok h'.
  assert (store_ok h') as Hok' by (by apply word_loop_store_ok).
  split; [done|]. intros t p mode Ht.
  rewrite ansi_highlight_rendered.
  rewrite (strip_ansi_join mode) by (by apply rendered_ok).
  apply rendered_roundtrip. by apply store_ok_contents.
Qed.

Lemma evaluate_query_highlight_witness :
  strip_ansi false
    (ansi_highlight (lit "or not to be")
       (contents (snd (evaluate_query (lit "OR") [doc_A; doc_B] [lit "be"; lit "to"] []))
          2%nat)
       (lit "GREEN"))
  = lit "or not to be".
Proof.
  apply (evaluate_query_highlight (lit "OR") [doc_A; doc_B] [lit "be"; lit "to"] []).
  - constructor.
  - repeat constructor; discriminate.
Defined.
